(** * Hanzi stories audit: a shallow embedding of [hanzi-stories-audit.js]
      and of the flattening traversal [loadAllHanziChars]

    JavaScript strings are sequences of UTF-16 code units; the audit
    measures, slices and compares them by code unit, so the embedding
    keeps that representation. *)

From Stdlib Require Import String Ascii.
From Stdlib Require Import List NArith Bool Lia Arith.
Import ListNotations.
Local Open Scope list_scope.

Set Implicit Arguments.

(** ** JavaScript strings *)

Definition jsstring := list N.

(** Source literals are written as UTF-8 text and decoded to UTF-16 code
    units: one unit for a code point below 0x10000, a surrogate pair
    above. *)
Definition cont (c : ascii) : N := N.land (N_of_ascii c) 63.

Definition surrogates (cp : N) : jsstring :=
  let v := (cp - 65536)%N in
  [(55296 + N.shiftr v 10)%N; (56320 + N.land v 1023)%N].

Fixpoint utf16 (s : string) : jsstring :=
  match s with
  | EmptyString => []
  | String c0 r0 =>
    let b0 := N_of_ascii c0 in
    if (b0 <? 128)%N then b0 :: utf16 r0
    else if (b0 <? 224)%N then
      match r0 with
      | String c1 r1 => (N.shiftl (N.land b0 31) 6 + cont c1)%N :: utf16 r1
      | _ => []
      end
    else if (b0 <? 240)%N then
      match r0 with
      | String c1 (String c2 r2) =>
        (N.shiftl (N.land b0 15) 12 + N.shiftl (cont c1) 6 + cont c2)%N
          :: utf16 r2
      | _ => []
      end
    else
      match r0 with
      | String c1 (String c2 (String c3 r3)) =>
        surrogates (N.shiftl (N.land b0 7) 18 + N.shiftl (cont c1) 12
                    + N.shiftl (cont c2) 6 + cont c3)%N ++ utf16 r3
      | _ => []
      end
  end.


(** [a === b]: strict equality of two strings. *)
Fixpoint streq (a b : jsstring) : bool :=
  match a, b with
  | [], [] => true
  | x :: a', y :: b' => (x =? y)%N && streq a' b'
  | _, _ => false
  end.

(** White space and line terminators, as [String.prototype.trim] and the
    regular-expression class [\s] understand them. *)
Definition isWhiteSpace (c : N) : bool :=
  ((9 <=? c) && (c <=? 13) || (c =? 32) || (c =? 160) || (c =? 5760)
   || (8192 <=? c) && (c <=? 8202) || (c =? 8232) || (c =? 8233)
   || (c =? 8239) || (c =? 8287) || (c =? 12288) || (c =? 65279))%N.

(** Line terminators, which [.] does not match. *)
Definition isLineTerminator (c : N) : bool :=
  ((c =? 10) || (c =? 13) || (c =? 8232) || (c =? 8233))%N.

Fixpoint trimStart (s : jsstring) : jsstring :=
  match s with
  | c :: r => if isWhiteSpace c then trimStart r else s
  | [] => []
  end.

Definition trimEnd (s : jsstring) : jsstring := rev (trimStart (rev s)).

Definition trim (s : jsstring) : jsstring := trimEnd (trimStart s).

(** [s.split(sep)] for a one-unit separator: never an empty array. *)
Fixpoint split (sep : N) (s : jsstring) : list jsstring :=
  match s with
  | [] => [[]]
  | c :: r =>
    if (c =? sep)%N then [] :: split sep r
    else match split sep r with
         | h :: t => (c :: h) :: t
         | [] => [[c]]
         end
  end.

Fixpoint startsWith (prefix s : jsstring) : bool :=
  match prefix, s with
  | [], _ => true
  | p :: prefix', c :: s' => (p =? c)%N && startsWith prefix' s'
  | _ :: _, [] => false
  end.

(** [s.includes(needle)] *)
Fixpoint includes (needle s : jsstring) : bool :=
  startsWith needle s ||
  match s with
  | [] => false
  | _ :: r => includes needle r
  end.

(** [s.replace(/\//g, '')] and its like: drop every occurrence of one unit. *)
Definition removeAll (c : N) (s : jsstring) : jsstring :=
  filter (fun x => negb (x =? c)%N) s.

(** [s.slice(n)] and [s.slice(0, n)] for [n >= 0]. *)
Definition sliceFrom (n : nat) (s : jsstring) : jsstring := skipn n s.
Definition sliceTo (n : nat) (s : jsstring) : jsstring := firstn n s.

(** [ToString] of a possibly [undefined] value, as [RegExp.prototype.test]
    applies it to its argument. *)
Definition toStringArg (v : option jsstring) : jsstring :=
  match v with
  | Some s => s
  | None => utf16 "undefined"
  end.

(** Lowercasing of the ASCII range; the instance of [toLowerCase] used
    when a run is evaluated on text whose cased letters are ASCII. *)
Definition asciiLower (s : jsstring) : jsstring :=
  map (fun c => if ((65 <=? c) && (c <=? 90))%N then (c + 32)%N else c) s.

(** ** Regular expressions

    The patterns of the source are regular (no back-references, no
    look-around), and only [test] is used, so whether a match exists is
    all that matters; derivatives decide that. *)

Inductive regex : Type :=
| Void
| Eps
| Class (p : N -> bool)
| Cat (r1 r2 : regex)
| Alt (r1 r2 : regex)
| Star (r : regex).

Fixpoint nullable (r : regex) : bool :=
  match r with
  | Void => false
  | Eps => true
  | Class _ => false
  | Cat a b => nullable a && nullable b
  | Alt a b => nullable a || nullable b
  | Star _ => true
  end.

Fixpoint deriv (c : N) (r : regex) : regex :=
  match r with
  | Void | Eps => Void
  | Class p => if p c then Eps else Void
  | Cat a b =>
    if nullable a then Alt (Cat (deriv c a) b) (deriv c b)
    else Cat (deriv c a) b
  | Alt a b => Alt (deriv c a) (deriv c b)
  | Star a => Cat (deriv c a) (Star a)
  end.

Fixpoint matches (r : regex) (s : jsstring) : bool :=
  match s with
  | [] => nullable r
  | c :: t => matches (deriv c r) t
  end.

Definition Chr (c : N) : regex := Class (fun x => (x =? c)%N).
Definition Range (lo hi : N) : regex :=
  Class (fun x => ((lo <=? x) && (x <=? hi))%N).
Definition NotChr (c : N) : regex := Class (fun x => negb (x =? c)%N).
Definition AnyUnit : regex := Class (fun _ => true).
(** [.] *)
Definition Dot : regex := Class (fun x => negb (isLineTerminator x)).
(** [\S] *)
Definition NonSpace : regex := Class (fun x => negb (isWhiteSpace x)).
Definition Plus (r : regex) : regex := Cat r (Star r).
Definition Opt (r : regex) : regex := Alt r Eps.
Definition Lit (s : jsstring) : regex :=
  fold_right (fun c r => Cat (Chr c) r) Eps s.
Definition Alts (l : list regex) : regex := fold_right Alt Void l.

(** A pattern with its anchors: [bos] for a leading [^], [eos] for a
    trailing [$] (no [m] flag anywhere in the source). *)
Record RegExp : Type := mkRegExp {
  bos : bool;
  body : regex;
  eos : bool
}.

(** [re.test(s)]: some substring matches, pinned to the start or the end
    of [s] where the pattern is anchored. *)
Definition test (re : RegExp) (s : jsstring) : bool :=
  matches
    (Cat (if bos re then Eps else Star AnyUnit)
         (Cat (body re) (if eos re then Eps else Star AnyUnit)))
    s.

(** ** Console output and exceptions

    A call appends lines to the console ([console.error]) and either
    returns a value or throws. *)

Inductive Exn : Type := TypeError.

Inductive result (A : Type) : Type :=
| Value (a : A)
| Throw (e : Exn).
Arguments Throw {A} e.

Definition Eff (A : Type) : Type := (list jsstring * result A)%type.

Definition ret {A} (a : A) : Eff A := ([], Value a).

Definition bind {A B} (m : Eff A) (f : A -> Eff B) : Eff B :=
  match m with
  | (out, Value a) => let (out', r) := f a in (out ++ out', r)
  | (out, Throw e) => (out, Throw e)
  end.

Definition consoleError (line : jsstring) : Eff unit := ([line], Value tt).

Definition throw {A} (e : Exn) : Eff A := ([], Throw e).

(** Reading a property of [undefined] throws a [TypeError]. *)
Definition defined {A} (v : option A) : Eff A :=
  match v with
  | Some a => ret a
  | None => throw TypeError
  end.

Declare Scope eff_scope.
Delimit Scope eff_scope with eff.
Notation "x <- m ;; k" := (bind m (fun x => k))
  (at level 61, m at next level, right associativity) : eff_scope.
Notation "m ;; k" := (bind m (fun _ => k))
  (at level 61, right associativity) : eff_scope.
Local Open Scope eff_scope.

(** [arr.forEach(f)] *)
Fixpoint forEach {A B} (f : A -> Eff B) (l : list A) : Eff unit :=
  match l with
  | [] => ret tt
  | x :: r => f x ;; forEach f r
  end.

(** [if (!rule(...)) return;] inside a function whose early [return]
    yields [None]. *)
Definition orReturn {A} (rule : Eff bool) (k : Eff (option A))
  : Eff (option A) :=
  ok <- rule ;; if ok then k else ret None.
Notation "'check' r ;; k" := (orReturn r k)
  (at level 61, r at next level, right associativity) : eff_scope.

(** ** The outline tree

    A node that carries its [text] attribute, as [xml2js] hands it over:
    [$.text], and [outline], the array of child nodes, which is
    [undefined] on a node without children. The nodes the parser hands
    over without attributes, or without that one, are [Raw.Outline]
    below. *)

Local Unset Elimination Schemes.
Inductive Element : Type :=
| mkElement (text : jsstring) (children : option (list Element)).
Local Set Elimination Schemes.

Definition elText (e : Element) : jsstring :=
  match e with mkElement t _ => t end.

Definition outline (e : Element) : option (list Element) :=
  match e with mkElement _ c => c end.

(** ** The story object

    [auditHanziElement] fills the fields of its local [story] one after
    the other. A field that can be read while still [undefined] is an
    [option]; the others are assigned before their first read, and the
    record carries a placeholder until then. The six genre flags hold
    the truthiness of [tags && tags.includes(...)], the only way they are
    read. *)

Record Story : Type := mkStory {
  headerText : jsstring;
  hanzi : jsstring;
  pinyinAndTones : list jsstring;
  translationStr : option jsstring;
  tags : option jsstring;
  translations : list jsstring;
  isMovieSetStory : bool;
  isWheelStory : bool;
  isPouringRainStory : bool;
  isOldWestStory : bool;
  isSciFiStory : bool;
  isPoliceDramaStory : bool;
  storyLines : list jsstring;
  notes : list jsstring;
  hanziBreakdown : option jsstring
}.

Definition newStory (text : jsstring) : Story :=
  mkStory text [] [] None None [] false false false false false false
          [] [] None.

Definition setHanzi (v : jsstring) (s : Story) : Story :=
  let 'mkStory a _ c d e f g h i j k l m n o := s in
  mkStory a v c d e f g h i j k l m n o.
Definition setPinyinAndTones (v : list jsstring) (s : Story) : Story :=
  let 'mkStory a b _ d e f g h i j k l m n o := s in
  mkStory a b v d e f g h i j k l m n o.
Definition setTranslationStr (v : option jsstring) (s : Story) : Story :=
  let 'mkStory a b c _ e f g h i j k l m n o := s in
  mkStory a b c v e f g h i j k l m n o.
Definition setTags (v : option jsstring) (s : Story) : Story :=
  let 'mkStory a b c d _ f g h i j k l m n o := s in
  mkStory a b c d v f g h i j k l m n o.
Definition setTranslations (v : list jsstring) (s : Story) : Story :=
  let 'mkStory a b c d e _ g h i j k l m n o := s in
  mkStory a b c d e v g h i j k l m n o.
Definition setIsMovieSetStory (v : bool) (s : Story) : Story :=
  let 'mkStory a b c d e f _ h i j k l m n o := s in
  mkStory a b c d e f v h i j k l m n o.
Definition setIsWheelStory (v : bool) (s : Story) : Story :=
  let 'mkStory a b c d e f g _ i j k l m n o := s in
  mkStory a b c d e f g v i j k l m n o.
Definition setIsPouringRainStory (v : bool) (s : Story) : Story :=
  let 'mkStory a b c d e f g h _ j k l m n o := s in
  mkStory a b c d e f g h v j k l m n o.
Definition setIsOldWestStory (v : bool) (s : Story) : Story :=
  let 'mkStory a b c d e f g h i _ k l m n o := s in
  mkStory a b c d e f g h i v k l m n o.
Definition setIsSciFiStory (v : bool) (s : Story) : Story :=
  let 'mkStory a b c d e f g h i j _ l m n o := s in
  mkStory a b c d e f g h i j v l m n o.
Definition setIsPoliceDramaStory (v : bool) (s : Story) : Story :=
  let 'mkStory a b c d e f g h i j k _ m n o := s in
  mkStory a b c d e f g h i j k v m n o.
Definition setStoryLines (v : list jsstring) (s : Story) : Story :=
  let 'mkStory a b c d e f g h i j k l _ n o := s in
  mkStory a b c d e f g h i j k l v n o.
Definition setNotes (v : list jsstring) (s : Story) : Story :=
  let 'mkStory a b c d e f g h i j k l m _ o := s in
  mkStory a b c d e f g h i j k l m v o.
Definition setHanziBreakdown (v : option jsstring) (s : Story) : Story :=
  let 'mkStory a b c d e f g h i j k l m n _ := s in
  mkStory a b c d e f g h i j k l m n v.

(** Truthiness of a string-valued property: [undefined] and [''] are
    falsy. *)
Definition truthy (v : option jsstring) : bool :=
  match v with
  | Some (_ :: _) => true
  | _ => false
  end.

(** [tags && tags.includes(marker)], read as a condition. *)
Definition tagged (tags : option jsstring) (marker : jsstring) : bool :=
  match tags with
  | Some t => includes marker t
  | None => false
  end.

(** ** The patterns of [hanzi-stories-audit.js] *)

Definition unitOf (c : ascii) : N := N_of_ascii c.

(** The double-quote character of a message. *)
Definition dquote : jsstring := [34%N].

Definition noPronunciation : jsstring := utf16 "(no pronunciation)".
Definition tongue : jsstring := utf16 "👅".

(** [/\(no pronunciation\)/] *)
Definition reNoPronunciation : RegExp :=
  mkRegExp false (Lit noPronunciation) false.
(** [/^[1-5]$/] *)
Definition reTone : RegExp :=
  mkRegExp true (Range (unitOf "1") (unitOf "5")) true.
(** [/^.: \S/] *)
Definition reHeader : RegExp :=
  mkRegExp true (Cat Dot (Cat (Lit (utf16 ": ")) NonSpace)) false.
(** [/^(ü|[a-z])+[1-5]?$/] *)
Definition rePinyinAndTone : RegExp :=
  mkRegExp true
    (Cat (Plus (Alt (Lit (utf16 "ü")) (Range (unitOf "a") (unitOf "z"))))
         (Opt (Range (unitOf "1") (unitOf "5"))))
    true.
(** [/^🧩/] and [/^📌/]: two code units each, the pattern has no [u] flag *)
Definition reBreakdownMarker : RegExp := mkRegExp true (Lit (utf16 "🧩")) false.
Definition reNoteMarker : RegExp := mkRegExp true (Lit (utf16 "📌")) false.
(** [/^[^+]+(\+[^+]+)+$/] *)
Definition reBreakdown : RegExp :=
  mkRegExp true
    (Cat (Plus (NotChr (unitOf "+")))
         (Plus (Cat (Chr (unitOf "+")) (Plus (NotChr (unitOf "+"))))))
    true.
(** [/^\(Old West/], [/^\(Sci-fi/], [/^\(Police drama/] *)
Definition reOldWest : RegExp := mkRegExp true (Lit (utf16 "(Old West")) false.
Definition reSciFi : RegExp := mkRegExp true (Lit (utf16 "(Sci-fi")) false.
Definition rePoliceDrama : RegExp :=
  mkRegExp true (Lit (utf16 "(Police drama")) false.

Definition pouringRainSyllables : list jsstring :=
  map utf16 ["ju"; "juan"; "jun"; "lü"; "lüe"; "nü"; "nüe"; "qu"; "quan";
             "que"; "qun"; "xu"; "xuan"; "xue"; "xun"; "yu"]%string.

(** [/^(ju|juan|jun|lü|lüe|nü|nüe|qu|quan|que|qun|xu|xuan|xue|xun|yu)$/] *)
Definition pouringRainSyllable : RegExp :=
  mkRegExp true (Alts (map Lit pouringRainSyllables)) true.

(** ** The rules of [hanzi-stories-audit.js]

    Each rule takes the path and the story, writes its diagnostic to the
    console when it fails, and returns whether it passed. *)

Section Audit.

(** [String.prototype.toLowerCase], whose Unicode case tables stay
    abstract. *)
Variable toLowerCase : jsstring -> jsstring.

Definition validateHeaderFormat (path : jsstring) (story : Story) : Eff bool :=
  if negb (test reHeader (headerText story)) then
    consoleError (path ++ utf16 ": Hanzi element must begin with character, colon, single space: "
                    ++ sliceTo 5 (headerText story) ++ utf16 "...") ;;
    ret false
  else ret true.

Definition hanziIsSingleCharacter (path : jsstring) (story : Story) : Eff bool :=
  if negb (length (hanzi story) =? 1) then
    consoleError (path ++ utf16 ": Hanzi " ++ dquote ++ hanzi story ++ dquote
                    ++ utf16 " is not a single character") ;;
    ret false
  else ret true.

(** The test of the [forEach] body of [pinyinAndTonesValid]. *)
Definition malformedPinyinAndTone (pinyinAndTone : jsstring) : bool :=
  negb (streq pinyinAndTone noPronunciation)
  && negb (test rePinyinAndTone pinyinAndTone).

(** Every malformed token is reported; the loop has no early exit. *)
Definition pinyinAndTonesValid (path : jsstring) (story : Story) : Eff bool :=
  let step (valid : bool) (pinyinAndTone : jsstring) : Eff bool :=
    if malformedPinyinAndTone pinyinAndTone then
      consoleError (path ++ utf16 "/" ++ hanzi story
                      ++ utf16 ": Pinyin and tone " ++ dquote ++ pinyinAndTone
                      ++ dquote ++ utf16 " does not match expected pattern") ;;
      ret false
    else ret valid in
  fold_left (fun acc pinyinAndTone => valid <- acc ;; step valid pinyinAndTone)
            (pinyinAndTones story) (ret true).

Definition pinyinCountMatchesTranslationCount (path : jsstring) (story : Story)
  : Eff bool :=
  if negb (length (pinyinAndTones story) =? length (translations story)) then
    consoleError (path ++ utf16 "/" ++ hanzi story
                    ++ utf16 ": Pinyin and translation counts do not match") ;;
    ret false
  else ret true.

(** [a[0] !== expected], where [a[0]] is [undefined] on an empty array. *)
Definition firstDiffers (a : list jsstring) (expected : jsstring) : bool :=
  match nth_error a 0 with
  | Some x => negb (streq x expected)
  | None => true
  end.

Definition matchingPinyinSyllable (path : jsstring) (story : Story) : Eff bool :=
  let expectedPinyinSyllable := removeAll (unitOf "/") path in
  if firstDiffers (pinyinAndTones story) expectedPinyinSyllable then
    consoleError (path ++ utf16 "/" ++ hanzi story
                    ++ utf16 ": First pinyin syllable does not match expected value") ;;
    ret false
  else ret true.

Definition multiplePinyinSyllablesWithMovieSetTag (path : jsstring)
  (story : Story) : Eff bool :=
  if (1 <? length (pinyinAndTones story)) && negb (isMovieSetStory story) then
    consoleError (path ++ utf16 "/" ++ hanzi story
                    ++ utf16 ": Multiple pinyin syllables require the #🎬 tag") ;;
    ret false
  else if isMovieSetStory story && (length (pinyinAndTones story) =? 1) then
    consoleError (path ++ utf16 "/" ++ hanzi story
                    ++ utf16 ": The #🎬 tag requires multiple pinyin syllables") ;;
    ret false
  else ret true.

(** [child.outline && child.outline.length > 0] *)
Definition hasChildNodes (child : Element) : bool :=
  match outline child with
  | Some (_ :: _) => true
  | _ => false
  end.

(** The [for] loop of [parseChildren] from index [i] on, with the flag
    [hanziBreakdownEncountered] and the story as loop state. *)
Fixpoint parseChildrenFrom (path : jsstring) (i : nat) (children : list Element)
  (hanziBreakdownEncountered : bool) (story : Story) : Eff (bool * Story) :=
  match children with
  | [] => ret (true, story)
  | child :: rest =>
    if hasChildNodes child then
      consoleError (path ++ utf16 "/" ++ hanzi story
                      ++ utf16 ": Story has grand-child nodes.") ;;
      ret (false, story)
    else
      let text := elText child in
      if test reBreakdownMarker text then
        if hanziBreakdownEncountered then
          consoleError (path ++ utf16 "/" ++ hanzi story
                          ++ utf16 ": Multiple hanzi breakdowns encountered") ;;
          ret (false, story)
        else if negb (i =? 0) then
          consoleError (path ++ utf16 "/" ++ hanzi story
                          ++ utf16 ": Hanzi breakdown is not the first child node") ;;
          ret (false, story)
        else
          parseChildrenFrom path (S i) rest true
            (setHanziBreakdown (Some (trim (sliceFrom 2 text))) story)
      else if test reNoteMarker text then
        parseChildrenFrom path (S i) rest hanziBreakdownEncountered
          (setNotes (notes story ++ [trim (sliceFrom 2 text)]) story)
      else
        parseChildrenFrom path (S i) rest hanziBreakdownEncountered
          (setStoryLines (storyLines story ++ [text]) story)
  end.

(** [!children || children.length === 0] *)
Definition noChildren (children : option (list Element)) : bool :=
  match children with
  | Some (_ :: _) => false
  | _ => true
  end.

Definition parseChildren (path : jsstring) (hanziElement : Element)
  (story : Story) : Eff (bool * Story) :=
  let children := outline hanziElement in
  if noChildren children && negb (streq path noPronunciation) then
    consoleError (path ++ utf16 "/" ++ hanzi story
                    ++ utf16 ": Hanzi element must have children") ;;
    ret (false, story)
  else
    let story := setNotes [] (setStoryLines [] story) in
    match children with
    | None => ret (true, story)
    | Some children => parseChildrenFrom path 0 children false story
    end.

Definition wheelStoryValid (path : jsstring) (story : Story) : Eff bool :=
  if isWheelStory story && truthy (hanziBreakdown story) then
    consoleError (path ++ utf16 "/" ++ hanzi story
                    ++ utf16 ": Wheel story should not have hanzi breakdown") ;;
    ret false
  else ret true.

Definition hanziBreakdownValid (path : jsstring) (story : Story) : Eff bool :=
  if negb (isWheelStory story) && negb (truthy (hanziBreakdown story))
     && negb (streq path noPronunciation) then
    consoleError (path ++ utf16 "/" ++ hanzi story
                    ++ utf16 ": Non-wheel story must have hanzi breakdown") ;;
    ret false
  else if truthy (hanziBreakdown story) then
    if negb (test reBreakdown (toStringArg (hanziBreakdown story))) then
      consoleError (path ++ utf16 "/" ++ hanzi story
                      ++ utf16 ": Hanzi breakdown does not match expected format") ;;
      ret false
    else ret true
  else ret true.

Definition storyTypeValid (path : jsstring) (story : Story) : Eff bool :=
  let storyTypes :=
    [isMovieSetStory; isOldWestStory; isSciFiStory; isPoliceDramaStory] in
  let count :=
    fold_left (fun acc (type : Story -> bool) => acc + (if type story then 1 else 0))
              storyTypes 0 in
  if negb (count =? 0) && negb (count =? 1) then
    consoleError (path ++ utf16 "/" ++ hanzi story
                    ++ utf16 ": Multiple story types are set") ;;
    ret false
  else ret true.

Definition atLeastOneStoryLine (path : jsstring) (story : Story) : Eff bool :=
  if (length (storyLines story) =? 0) && negb (streq path noPronunciation) then
    consoleError (path ++ utf16 "/" ++ hanzi story
                    ++ utf16 ": Hanzi element must have at least one story line") ;;
    ret false
  else ret true.

(** [story.storyLines[0].toLowerCase()] is a method call on the first
    line: with no story line the receiver is [undefined]. *)
Definition wheelStoryMentionsWheel (path : jsstring) (story : Story) : Eff bool :=
  if isWheelStory story then
    line <- defined (nth_error (storyLines story) 0) ;;
    if negb (includes (utf16 "wheel") (toLowerCase line)) then
      consoleError (path ++ utf16 "/" ++ hanzi story
                      ++ utf16 ": Wheel story must mention " ++ dquote
                      ++ utf16 "wheel" ++ dquote ++ utf16 " in the first line") ;;
      ret false
    else ret true
  else ret true.

Definition movieSetStoryHasAtLeastFourStoryLines (path : jsstring)
  (story : Story) : Eff bool :=
  if isMovieSetStory story && (length (storyLines story) <? 4) then
    consoleError (path ++ utf16 "/" ++ hanzi story
                    ++ utf16 ": Movie set story must have at least four story lines") ;;
    ret false
  else ret true.

Definition oldWestStoryMustBeginWithCorrectPattern (path : jsstring)
  (story : Story) : Eff bool :=
  if isOldWestStory story
     && negb (test reOldWest (toStringArg (nth_error (storyLines story) 0))) then
    consoleError (path ++ utf16 "/" ++ hanzi story
                    ++ utf16 ": Old West story must begin with " ++ dquote
                    ++ utf16 "(Old West" ++ dquote) ;;
    ret false
  else ret true.

Definition sciFiStoryMustBeginWithCorrectPattern (path : jsstring)
  (story : Story) : Eff bool :=
  if isSciFiStory story
     && negb (test reSciFi (toStringArg (nth_error (storyLines story) 0))) then
    consoleError (path ++ utf16 "/" ++ hanzi story
                    ++ utf16 ": Sci-fi story must begin with " ++ dquote
                    ++ utf16 "(Sci-fi" ++ dquote) ;;
    ret false
  else ret true.

Definition policeDramaStoryMustBeginWithCorrectPattern (path : jsstring)
  (story : Story) : Eff bool :=
  if isPoliceDramaStory story
     && negb (test rePoliceDrama (toStringArg (nth_error (storyLines story) 0))) then
    consoleError (path ++ utf16 "/" ++ hanzi story
                    ++ utf16 ": Police drama story must begin with " ++ dquote
                    ++ utf16 "(Police drama" ++ dquote) ;;
    ret false
  else ret true.

Definition pouringRainStoryMustHaveEligibleSyllable (path : jsstring)
  (story : Story) : Eff bool :=
  if isPouringRainStory story
     && negb (test pouringRainSyllable
                   (toStringArg (nth_error (pinyinAndTones story) 0))) then
    consoleError (path ++ utf16 "/" ++ hanzi story
                    ++ utf16 ": Pouring Rain story must have an eligible pinyin syllable") ;;
    ret false
  else ret true.

Definition storyWithPouringRainSyllableMustBePouringRainStory (path : jsstring)
  (story : Story) : Eff bool :=
  if test pouringRainSyllable (toStringArg (nth_error (pinyinAndTones story) 0))
     && negb (isPouringRainStory story)
     && firstDiffers (pinyinAndTones story) (utf16 "yu") then
    consoleError (path ++ utf16 "/" ++ hanzi story
                    ++ utf16 ": Story with pouring rain syllable must be a Pouring Rain story") ;;
    ret false
  else ret true.

Definition pouringRainStoryMustMentionPouringRainInStoryText (path : jsstring)
  (story : Story) : Eff bool :=
  if isPouringRainStory story
     && negb (existsb (fun line => includes (utf16 "pouring rain") (toLowerCase line))
                      (storyLines story)) then
    consoleError (path ++ utf16 "/" ++ hanzi story
                    ++ utf16 ": Pouring Rain story must mention " ++ dquote
                    ++ utf16 "pouring rain" ++ dquote ++ utf16 " in the story text") ;;
    ret false
  else ret true.

(** ** [auditHanziElement]

    The JavaScript function returns [undefined] whichever way it ends.
    The embedding returns the local [story] as it stands once the last
    rule has passed, and [None] when an early [return] was taken. *)

Definition auditHanziElement (path : jsstring) (hanziElement : Element)
  : Eff (option Story) :=
  let text := elText hanziElement in
  let story := newStory text in
  check validateHeaderFormat path story ;;
  (* const [hanzi, rest] = text.split(':'); *)
  let parts := split (unitOf ":") text in
  let hanzi := hd [] parts in
  let rest := nth_error parts 1 in
  let story := setHanzi hanzi story in
  check hanziIsSingleCharacter path story ;;
  (* const [pinyinAndToneStr, translationStr, tags] = rest.split('|').map(trim) *)
  rest <- defined rest ;;
  let segments := map trim (split (unitOf "|") rest) in
  let pinyinAndToneStr := hd [] segments in
  let translationStr := nth_error segments 1 in
  let tags := nth_error segments 2 in
  let pinyinAndTones := map trim (split (unitOf ",") pinyinAndToneStr) in
  let story := setPinyinAndTones pinyinAndTones story in
  let story := setTranslationStr translationStr story in
  let story := setTags tags story in
  check pinyinAndTonesValid path story ;;
  (* translationStr.split(',') *)
  translationStr <- defined translationStr ;;
  let translations := map trim (split (unitOf ",") translationStr) in
  let story := setTranslations translations story in
  check pinyinCountMatchesTranslationCount path story ;;
  check matchingPinyinSyllable path story ;;
  let story := setIsMovieSetStory (tagged tags (utf16 "#🎬")) story in
  let story := setIsWheelStory (tagged tags (utf16 "#🎡")) story in
  let story := setIsPouringRainStory (tagged tags (utf16 "#🌧️")) story in
  let story := setIsOldWestStory (tagged tags (utf16 "#🤠")) story in
  let story := setIsSciFiStory (tagged tags (utf16 "#👽")) story in
  let story := setIsPoliceDramaStory (tagged tags (utf16 "#👮")) story in
  check multiplePinyinSyllablesWithMovieSetTag path story ;;
  (* if (!parseChildren(path, hanziElement, story)) return;
     the story is the one parseChildren has filled *)
  parsed <- parseChildren path hanziElement story ;;
  let story := snd parsed in
  check ret (fst parsed) ;;
  check wheelStoryValid path story ;;
  check hanziBreakdownValid path story ;;
  check storyTypeValid path story ;;
  check atLeastOneStoryLine path story ;;
  check wheelStoryMentionsWheel path story ;;
  check movieSetStoryHasAtLeastFourStoryLines path story ;;
  check oldWestStoryMustBeginWithCorrectPattern path story ;;
  check sciFiStoryMustBeginWithCorrectPattern path story ;;
  check policeDramaStoryMustBeginWithCorrectPattern path story ;;
  check pouringRainStoryMustHaveEligibleSyllable path story ;;
  check storyWithPouringRainSyllableMustBePouringRainStory path story ;;
  check pouringRainStoryMustMentionPouringRainInStoryText path story ;;
  ret (Some story).

(** ** [auditHanziStories]

    Returns [false] from the early [return] after the structural error,
    [true] when the walk ran to its end (the JavaScript function returns
    [undefined] at both places). *)

Definition structuralError : jsstring :=
  utf16 "First pronunciation does not contain " ++ dquote
    ++ utf16 "(no pronunciation)" ++ dquote.

Definition auditToneLevel (syllable : jsstring) (child : Element) : Eff unit :=
  if negb (streq (elText child) tongue) && negb (test reTone (elText child)) then
    consoleError (syllable
      ++ utf16 ": Pronunciation element does not contain only tone-level elements or 👅")
  else
    let tone := elText child in
    if negb (streq (elText child) tongue) then
      hanziElements <- defined (outline child) ;;
      forEach (auditHanziElement (syllable ++ utf16 "/" ++ tone)) hanziElements
    else ret tt.

Definition auditPronunciation (pronunciation : Element) : Eff unit :=
  let syllable := elText pronunciation in
  children <- defined (outline pronunciation) ;;
  forEach (auditToneLevel syllable) children.

Definition auditHanziStories (pronunciations : Element) : Eff bool :=
  (* pronunciations.outline[2], then firstPronunciation.$.text *)
  level1 <- defined (outline pronunciations) ;;
  firstPronunciation <- defined (nth_error level1 2) ;;
  if negb (test reNoPronunciation (elText firstPronunciation)) then
    consoleError structuralError ;;
    ret false
  else
    hanziElements <- defined (outline firstPronunciation) ;;
    forEach (auditHanziElement noPronunciation) hanziElements ;;
    let pronunciationElements := skipn 3 level1 in
    forEach auditPronunciation pronunciationElements ;;
    ret true.

(** ** Names for the two halves of [auditHanziElement]

    [parsedStory] is the function up to and including [parseChildren]:
    the story as the first content rule receives it. [contentRules] lists
    the content rules in the order the specification gives them, and
    [firstFailure] runs such a list, stopping at the first rule that
    fails. *)

Definition parsedStory (path : jsstring) (hanziElement : Element)
  : Eff (option Story) :=
  let text := elText hanziElement in
  let story := newStory text in
  check validateHeaderFormat path story ;;
  let parts := split (unitOf ":") text in
  let story := setHanzi (hd [] parts) story in
  check hanziIsSingleCharacter path story ;;
  rest <- defined (nth_error parts 1) ;;
  let segments := map trim (split (unitOf "|") rest) in
  let tags := nth_error segments 2 in
  let story :=
    setTags tags
      (setTranslationStr (nth_error segments 1)
         (setPinyinAndTones (map trim (split (unitOf ",") (hd [] segments)))
            story)) in
  check pinyinAndTonesValid path story ;;
  translationStr <- defined (nth_error segments 1) ;;
  let story := setTranslations (map trim (split (unitOf ",") translationStr)) story in
  check pinyinCountMatchesTranslationCount path story ;;
  check matchingPinyinSyllable path story ;;
  let story :=
    setIsPoliceDramaStory (tagged tags (utf16 "#👮"))
      (setIsSciFiStory (tagged tags (utf16 "#👽"))
         (setIsOldWestStory (tagged tags (utf16 "#🤠"))
            (setIsPouringRainStory (tagged tags (utf16 "#🌧️"))
               (setIsWheelStory (tagged tags (utf16 "#🎡"))
                  (setIsMovieSetStory (tagged tags (utf16 "#🎬")) story))))) in
  check multiplePinyinSyllablesWithMovieSetTag path story ;;
  parsed <- parseChildren path hanziElement story ;;
  if fst parsed then ret (Some (snd parsed)) else ret None.

Definition Rule : Type := jsstring -> Story -> Eff bool.

Definition contentRules : list Rule :=
  [ wheelStoryValid;
    hanziBreakdownValid;
    storyTypeValid;
    atLeastOneStoryLine;
    wheelStoryMentionsWheel;
    movieSetStoryHasAtLeastFourStoryLines;
    oldWestStoryMustBeginWithCorrectPattern;
    sciFiStoryMustBeginWithCorrectPattern;
    policeDramaStoryMustBeginWithCorrectPattern;
    pouringRainStoryMustHaveEligibleSyllable;
    storyWithPouringRainSyllableMustBePouringRainStory;
    pouringRainStoryMustMentionPouringRainInStoryText ].

Fixpoint firstFailure (rules : list Rule) (path : jsstring) (story : Story)
  : Eff (option Story) :=
  match rules with
  | [] => ret (Some story)
  | rule :: rules' =>
    ok <- rule path story ;;
    if ok then firstFailure rules' path story else ret None
  end.

End Audit.

(** ** The flattening traversal ([loadAllHanziChars])

    The script that looks every character up in the flashcard deck
    flattens the same tree into [{hanzi, path, definition}] objects. *)

Module Flashcards.

Record HanziChar : Type := mkHanziChar {
  hanzi : jsstring;
  path : jsstring;
  definition : option jsstring
}.

(** The marker this script compares tone-level labels with, as its
    source text spells it. *)
Definition tongueLiteral : jsstring := utf16 "ðŸ‘…".

(** [hanziElements.forEach(...)] with [hanziChars.push(...)] in its body;
    [forEach] on [undefined] throws. *)
Definition loadChildHanziChars (hanziElements : option (list Element))
  (path : jsstring) : Eff (list HanziChar) :=
  hanziElements <- defined hanziElements ;;
  ret (fold_left
         (fun hanziChars hanziElement =>
            let hanziElementParts := split (unitOf ":") (elText hanziElement) in
            let hanzi := hd [] hanziElementParts in
            let definition := nth_error hanziElementParts 1 in
            hanziChars ++ [mkHanziChar hanzi path definition])
         hanziElements []).

(** The inner [forEach] over the tone-level elements of one
    pronunciation, threading the accumulated [hanziChars]. *)
Definition loadToneLevel (syllable : jsstring) (hanziChars : Eff (list HanziChar))
  (toneElement : Element) : Eff (list HanziChar) :=
  hanziChars <- hanziChars ;;
  if negb (streq (elText toneElement) tongueLiteral) then
    more <- loadChildHanziChars (outline toneElement)
              (syllable ++ utf16 "/" ++ elText toneElement) ;;
    ret (hanziChars ++ more)
  else ret hanziChars.

Definition loadPronunciation (hanziChars : Eff (list HanziChar))
  (pronunciation : Element) : Eff (list HanziChar) :=
  hanziChars <- hanziChars ;;
  let syllable := elText pronunciation in
  toneElements <- defined (outline pronunciation) ;;
  fold_left (loadToneLevel syllable) toneElements (ret hanziChars).

Definition loadAllHanziChars (pronunciations : Element) : Eff (list HanziChar) :=
  level1 <- defined (outline pronunciations) ;;
  firstPronunciation <- defined (nth_error level1 2) ;;
  let noPronunciationHanziElements := outline firstPronunciation in
  hanziChars <- loadChildHanziChars noPronunciationHanziElements noPronunciation ;;
  let pronunciationElements := skipn 3 level1 in
  fold_left loadPronunciation pronunciationElements (ret hanziChars).

(** The translation the specification describes for a tuple: split the
    label on [:], then its remainder on [|], and take the translation
    segment (the one after the pronunciation list), trimmed. *)
Definition specTranslation (label : jsstring) : option jsstring :=
  match nth_error (split (unitOf ":") label) 1 with
  | Some rest => nth_error (map trim (split (unitOf "|") rest)) 1
  | None => None
  end.

(** The label text before the first colon (the whole label without one). *)
Fixpoint beforeColon (label : jsstring) : jsstring :=
  match label with
  | [] => []
  | c :: r => if (c =? unitOf ":")%N then [] else c :: beforeColon r
  end.

(** The label text after the first colon, when there is one. *)
Fixpoint afterColon (label : jsstring) : option jsstring :=
  match label with
  | [] => None
  | c :: r => if (c =? unitOf ":")%N then Some r else afterColon r
  end.

(** The object the traversal builds for one entry. *)
Definition tupleOf (path : jsstring) (hanziElement : Element) : HanziChar :=
  let label := elText hanziElement in
  mkHanziChar (beforeColon label) path
    (option_map beforeColon (afterColon label)).

Definition tupleOfEntry (entry : jsstring * Element) : HanziChar :=
  tupleOf (fst entry) (snd entry).

(** The story entries of a tone-level element, with their path. *)
Definition toneEntries (syllable : jsstring) (toneElement : Element)
  : list (jsstring * Element) :=
  if streq (elText toneElement) tongueLiteral then []
  else
    match outline toneElement with
    | Some hanziElements =>
      map (fun e => (syllable ++ utf16 "/" ++ elText toneElement, e)) hanziElements
    | None => []
    end.

(** The story entries of the whole tree in document order: the children
    of the node at index 2, then the children of every tone-level
    element of the nodes from index 3 on. *)
Definition storyEntries (pronunciations : Element) : list (jsstring * Element) :=
  match outline pronunciations with
  | Some level1 =>
    match nth_error level1 2 with
    | Some firstPronunciation =>
      match outline firstPronunciation with
      | Some hanziElements => map (fun e => (noPronunciation, e)) hanziElements
      | None => []
      end
    | None => []
    end
    ++ flat_map
         (fun pronunciation =>
            match outline pronunciation with
            | Some toneElements =>
              flat_map (toneEntries (elText pronunciation)) toneElements
            | None => []
            end)
         (skipn 3 level1)
  | None => []
  end.

(** A tree on which no [forEach] of the traversal meets [undefined]:
    the root has at least three children, the third has children, every
    later one has children, and so has each of their children that is
    not the marker. *)
Definition wellShaped (pronunciations : Element) : Prop :=
  exists level1 firstPronunciation hanziElements,
    outline pronunciations = Some level1
    /\ nth_error level1 2 = Some firstPronunciation
    /\ outline firstPronunciation = Some hanziElements
    /\ Forall
         (fun pronunciation =>
            exists toneElements,
              outline pronunciation = Some toneElements
              /\ Forall
                   (fun toneElement =>
                      streq (elText toneElement) tongueLiteral = false ->
                      outline toneElement <> None)
                   toneElements)
         (skipn 3 level1).

End Flashcards.

(** ** The language of a pattern

    What [matches] decides, stated without derivatives. *)

Inductive lang : regex -> jsstring -> Prop :=
| LangEps : lang Eps []
| LangClass (p : N -> bool) (c : N) : p c = true -> lang (Class p) [c]
| LangCat (a b : regex) (s t : jsstring) :
    lang a s -> lang b t -> lang (Cat a b) (s ++ t)
| LangAltL (a b : regex) (s : jsstring) : lang a s -> lang (Alt a b) s
| LangAltR (a b : regex) (s : jsstring) : lang b s -> lang (Alt a b) s
| LangStarNil (a : regex) : lang (Star a) []
| LangStarApp (a : regex) (s t : jsstring) :
    lang a s -> lang (Star a) t -> lang (Star a) (s ++ t).

(** The pronunciation tokens of an entry label, as [auditHanziElement]
    cuts them out: the part between the first two colons, up to its first
    [|], split on commas. *)
Definition pinyinTokens (label : jsstring) : list jsstring :=
  match nth_error (split (unitOf ":") label) 1 with
  | Some rest =>
    map trim (split (unitOf ",") (hd [] (map trim (split (unitOf "|") rest))))
  | None => []
  end.

(** How an entry's audit ended. *)
Definition accepted (run : Eff (option Story)) : Prop :=
  exists story, run = ([], Value (Some story)).

Definition leaf (label : string) : Element := mkElement (utf16 label) None.
Definition node (label : string) (children : list Element) : Element :=
  mkElement (utf16 label) (Some children).

(** ** Notions used to state the results *)

(** [andThen m f]: run [f] on the story [m] returns, if it returns one. *)
Definition andThen {A B} (m : Eff (option A)) (f : A -> Eff (option B))
  : Eff (option B) :=
  o <- m ;; match o with Some a => f a | None => ret None end.


(** The three ways a rule can end: it passes silently, it fails with one
    line, or it throws with none. *)
Definition ruleShape (m : Eff bool) : Prop :=
  m = ([], Value true)
  \/ (exists line, m = ([line], Value false))
  \/ m = ([], Throw TypeError).

(** [holds P m]: the console output and the result of [m] satisfy [P]. *)
Definition holds {A} (P : list jsstring -> result A -> Prop) (m : Eff A) : Prop :=
  P (fst m) (snd m).

(** The fields [parseChildren] leaves alone. *)
Definition sameHeader (s s' : Story) : Prop :=
  hanzi s' = hanzi s
  /\ pinyinAndTones s' = pinyinAndTones s
  /\ tags s' = tags s
  /\ translations s' = translations s
  /\ isMovieSetStory s' = isMovieSetStory s
  /\ isWheelStory s' = isWheelStory s
  /\ isPouringRainStory s' = isPouringRainStory s
  /\ isOldWestStory s' = isOldWestStory s
  /\ isSciFiStory s' = isSciFiStory s
  /\ isPoliceDramaStory s' = isPoliceDramaStory s.

(** What the parsing half of [auditHanziElement] can end in. *)
Definition parsedPost (label : jsstring) (out : list jsstring)
  (r : result (option Story)) : Prop :=
  match r with
  | Value (Some s) =>
    out = []
    /\ pinyinAndTones s = pinyinTokens label
    /\ isMovieSetStory s = tagged (tags s) (utf16 "#🎬")
    /\ isWheelStory s = tagged (tags s) (utf16 "#🎡")
    /\ (1 < length (pinyinAndTones s) <-> isMovieSetStory s = true)
  | Value None =>
    1 <= length out
    /\ (length out = 1
        \/ length out = length (filter malformedPinyinAndTone (pinyinTokens label)))
  | Throw _ => out = []
  end.

(** The line [pinyinAndTonesValid] writes for one malformed token. *)
Definition patternLine (path hanzi pinyinAndTone : jsstring) : jsstring :=
  path ++ utf16 "/" ++ hanzi ++ utf16 ": Pinyin and tone " ++ dquote
    ++ pinyinAndTone ++ dquote ++ utf16 " does not match expected pattern".

(** The entries that the pronunciation pattern rule rejects: the two
    rules before it pass (the header format, the single character) and
    some pronunciation token is malformed. *)
Definition rejectedByPattern (label : jsstring) : bool :=
  test reHeader label
  && (length (hd [] (split (unitOf ":") label)) =? 1)
  && existsb malformedPinyinAndTone (pinyinTokens label).

(** What a rejection leaves on the console: the lines of the malformed
    tokens, in order, when the pattern rule rejects, and one line
    otherwise. An entry that gets past the parsing half is not one the
    pattern rule rejects. *)
Definition rejectionPost (path label : jsstring) (out : list jsstring)
  (r : result (option Story)) : Prop :=
  match r with
  | Value None =>
    if rejectedByPattern label then
      out = map (patternLine path (hd [] (split (unitOf ":") label)))
                (filter malformedPinyinAndTone (pinyinTokens label))
    else length out = 1
  | Value (Some _) => rejectedByPattern label = false
  | Throw _ => True
  end.

(** A computation that never returns [false]: it returns [true] or
    throws. *)
Definition endsTrue (m : Eff bool) : Prop := snd m <> Value false.

(** Entries used as concrete inputs below. *)
Definition motherEntry : Element :=
  node "妈: ma1 | mother"
       [leaf "🧩 female + horse"; leaf "A mother rides a horse."].

Definition heavyEntry : Element :=
  node "重: zhong4, zhong1 | heavy, again | #🎬"
       [leaf "🧩 thousand + village"; leaf "Take one."; leaf "Take two.";
        leaf "Take three."; leaf "Cut!"].

Definition garbledEntry : Element :=
  node "好: h@o, H3 | good, well" [leaf "🧩 woman + child"; leaf "A good child."].

Definition sentenceEntry : Element :=
  node "句: ju2 | sentence | #🌧️"
       [leaf "🧩 mouth + wrap"; leaf "A sentence shouted in the pouring rain."].

(** A document without the anchor at index 2. *)
Definition unanchoredDocument : Element :=
  node "字 HANZI" [leaf "help"; leaf "legend"; node "ma" [node "1" [motherEntry]]].

Definition smallDocument : Element :=
  node "字 HANZI"
       [leaf "help"; leaf "legend";
        node "(no pronunciation)" [leaf "的: (no pronunciation) | of"; leaf "no colon here"];
        node "ma" [node "1" [motherEntry]; leaf "👅"];
        node "zhong" [node "4" [heavyEntry]]].

Definition rosterDocument : Element :=
  node "字 HANZI"
       [leaf "help"; leaf "legend";
        node "(no pronunciation)" [leaf "的: (no pronunciation) | of"; leaf "no colon here"];
        node "ma" [node "1" [motherEntry]; leaf "ðŸ‘…"];
        node "zhong" [node "4" [heavyEntry]]].

(** ** Notions used to state further properties of the audit *)

(** The story as [auditHanziElement] has filled it when [parseChildren]
    is called, for a label whose part between the first two colons is
    [rest] and whose translation segment is [translationStr]. *)
Definition headerStory (label rest translationStr : jsstring) : Story :=
  let segments := map trim (split (unitOf "|") rest) in
  let tags := nth_error segments 2 in
  mkStory label
          (hd [] (split (unitOf ":") label))
          (map trim (split (unitOf ",") (hd [] segments)))
          (Some translationStr)
          tags
          (map trim (split (unitOf ",") translationStr))
          (tagged tags (utf16 "#🎬"))
          (tagged tags (utf16 "#🎡"))
          (tagged tags (utf16 "#🌧️"))
          (tagged tags (utf16 "#🤠"))
          (tagged tags (utf16 "#👽"))
          (tagged tags (utf16 "#👮"))
          [] [] None.

(** The three kinds of child of a story entry, as the loop of
    [parseChildren] tells them apart. *)
Definition isBreakdownChild (child : Element) : bool :=
  test reBreakdownMarker (elText child).

Definition isNoteChild (child : Element) : bool :=
  negb (test reBreakdownMarker (elText child))
  && test reNoteMarker (elText child).

Definition isStoryLineChild (child : Element) : bool :=
  negb (test reBreakdownMarker (elText child))
  && negb (test reNoteMarker (elText child)).

(** The children of an element, none for a missing [outline]. *)
Definition childrenOf (e : Element) : list Element :=
  match outline e with
  | Some children => children
  | None => []
  end.

(** What [parseChildren] accepts: some child unless the path is the root
    group, no child with children of its own, and no breakdown child
    after the first position. *)
Definition childrenAccepted (path : jsstring) (hanziElement : Element) : bool :=
  negb (noChildren (outline hanziElement) && negb (streq path noPronunciation))
  && forallb (fun child => negb (hasChildNodes child)) (childrenOf hanziElement)
  && forallb (fun child => negb (isBreakdownChild child))
             (tl (childrenOf hanziElement)).

(** The breakdown a story gets from its children: the text of a leading
    breakdown child, marker removed and trimmed. *)
Definition breakdownOf (children : list Element) : option jsstring :=
  match children with
  | child :: _ =>
    if isBreakdownChild child then Some (trim (sliceFrom 2 (elText child)))
    else None
  | [] => None
  end.

(** A letter of a pinyin token: [ü] or [a] to [z]. *)
Definition isPinyinLetter (c : N) : bool :=
  ((c =? 252) || (97 <=? c) && (c <=? 122))%N.

(** A tone digit, [1] to [5]. *)
Definition isToneDigit (c : N) : bool := ((49 <=? c) && (c <=? 53))%N.

(** What the parsing half of [auditHanziElement] has established when it
    returns a story: the steps that passed, and the call of
    [parseChildren] that produced the story. *)
Definition parsedFacts (path : jsstring) (hanziElement : Element)
  (out : list jsstring) (r : result (option Story)) : Prop :=
  match r with
  | Value (Some story) =>
    exists rest translationStr,
      nth_error (split (unitOf ":") (elText hanziElement)) 1 = Some rest
      /\ nth_error (map trim (split (unitOf "|") rest)) 1 = Some translationStr
      /\ test reHeader (elText hanziElement) = true
      /\ length (hd [] (split (unitOf ":") (elText hanziElement))) = 1
      /\ filter malformedPinyinAndTone
                (pinyinAndTones (headerStory (elText hanziElement) rest translationStr))
         = []
      /\ length (pinyinAndTones (headerStory (elText hanziElement) rest translationStr))
         = length (translations (headerStory (elText hanziElement) rest translationStr))
      /\ firstDiffers
           (pinyinAndTones (headerStory (elText hanziElement) rest translationStr))
           (removeAll (unitOf "/") path)
         = false
      /\ parseChildren path hanziElement
           (headerStory (elText hanziElement) rest translationStr)
         = ([], Value (true, story))
  | _ => True
  end.

(** The story [s'] that the loop of [parseChildren] leaves when it has
    gone through [children] starting from story [s]; [first] says that
    the loop starts at index 0 with no breakdown met yet. *)
Definition childrenParsed (children : list Element) (first : bool)
  (s s' : Story) : Prop :=
  sameHeader s s'
  /\ headerText s' = headerText s
  /\ translationStr s' = translationStr s
  /\ storyLines s'
     = storyLines s ++ map elText (filter isStoryLineChild children)
  /\ notes s'
     = notes s
       ++ map (fun child => trim (sliceFrom 2 (elText child)))
              (filter isNoteChild children)
  /\ hanziBreakdown s'
     = match (if first then breakdownOf children else None) with
       | Some breakdown => Some breakdown
       | None => hanziBreakdown s
       end.

(** The verdict of the loop of [parseChildren] over [children]. *)
Definition loopVerdict (first : bool) (children : list Element) : bool :=
  forallb (fun child => negb (hasChildNodes child)) children
  && forallb (fun child => negb (isBreakdownChild child))
             (if first then tl children else children).

(** A string without [+]. *)
Definition plusFree (s : jsstring) : bool :=
  forallb (fun c => negb (c =? unitOf "+")%N) s.

(** The paths [auditHanziStories] hands to [auditHanziElement]: the root
    group's, or a syllable and a tone digit. *)
Definition auditPath (path : jsstring) : Prop :=
  path = noPronunciation
  \/ exists syllable tone,
       path = syllable ++ utf16 "/" ++ tone /\ test reTone tone = true.

(** A rule that never throws: it passes silently or fails with one
    line. *)
Definition neverThrows (m : Eff bool) : Prop :=
  m = ([], Value true) \/ exists line, m = ([line], Value false).

(** What a [TypeError] out of the parsing half of [auditHanziElement]
    means: the label has its second colon part, with well-formed
    pronunciation tokens and no translation segment. *)
Definition parseThrowFacts (hanziElement : Element) (out : list jsstring)
  (r : result (option Story)) : Prop :=
  match r with
  | Throw _ =>
    exists rest,
      nth_error (split (unitOf ":") (elText hanziElement)) 1 = Some rest
      /\ nth_error (map trim (split (unitOf "|") rest)) 1 = None
      /\ filter malformedPinyinAndTone (pinyinTokens (elText hanziElement)) = []
  | _ => True
  end.

(** The story entries [auditHanziStories] audits below a tone-level
    element: the children of an element labelled with a tone digit. *)
Definition toneLevelEntries (syllable : jsstring) (child : Element)
  : list (jsstring * Element) :=
  if test reTone (elText child) then
    map (fun e => (syllable ++ utf16 "/" ++ elText child, e)) (childrenOf child)
  else [].

(** All the story entries [auditHanziStories] audits, with their paths,
    in document order. *)
Definition auditedEntries (pronunciations : Element) : list (jsstring * Element) :=
  match nth_error (childrenOf pronunciations) 2 with
  | Some firstPronunciation =>
    map (fun e => (noPronunciation, e)) (childrenOf firstPronunciation)
  | None => []
  end
  ++ flat_map
       (fun pronunciation =>
          flat_map (toneLevelEntries (elText pronunciation))
                   (childrenOf pronunciation))
       (skipn 3 (childrenOf pronunciations)).


Section AuditConsole.

Variable toLowerCase : jsstring -> jsstring.




End AuditConsole.


(** ** Looking the characters up ([findHanziFlashcard])

    The script asks the flashcard deck about every object of the roster.
    Its two requests are kept as the answers they get: [findCards] gives
    the card ids for a query, [cardsInfo] the [question] of each card
    for a list of ids, and [None] stands for a request that fails, on
    which the script prints the error and ends the process. *)

Module Lookup.

(** The request that failed. What [console.error(error)] prints for it
    is the error of the request, which the environment decides. *)
Inductive Failure : Type :=
| FindCardsFailed (query : jsstring)
| CardsInfoFailed (cards : list N).

(** How a lookup leaves the process: it goes on, or [console.error]
    has printed [error], the error of the request that failed, and
    [process.exit(1)] has ended the process. *)
Inductive Outcome : Type := Resumed | Exited (error : Failure).

(** [console.error(error); process.exit(1)]: no line is written with
    [console.log], the error is printed on the error stream, and
    nothing runs after it. *)
Definition logErrorAndExit (error : Failure) : list jsstring * Outcome :=
  ([], Exited error).

(** [/\s|\[/] *)
Definition reSeparator : RegExp :=
  mkRegExp false (Alt (Class isWhiteSpace) (Chr (unitOf "["))) false.

(** The query text, with the deck name as the source text spells it. *)
Definition query (hanziChar : Flashcards.HanziChar) : jsstring :=
  utf16 "deck:" ++ [228; 184; 173; 230; 8211; 8225]%N ++ utf16 " front:"
  ++ Flashcards.hanzi hanziChar ++ utf16 "*".

(** The common start of the two messages. *)
Definition describe (hanziChar : Flashcards.HanziChar) : jsstring :=
  Flashcards.path hanziChar ++ utf16 ": Hanzi char " ++ Flashcards.hanzi hanziChar
  ++ utf16 " (" ++ toStringArg (Flashcards.definition hanziChar) ++ utf16 ")".

(** [cards.forEach(card => { if (/\s|\[/.test(card.question)) found = true })] *)
Definition anyStandsAlone (cards : list (option jsstring)) : bool :=
  fold_left
    (fun found question =>
       if test reSeparator (toStringArg question) then true else found)
    cards false.

Section Anki.

Variable findCards : jsstring -> option (list N).
Variable cardsInfo : list N -> option (list (option jsstring)).

(** The lines written with [console.log], and how the call ended; every
    error caught by the [try] goes to [logErrorAndExit]. *)
Definition findHanziFlashcard (hanziChar : Flashcards.HanziChar)
  : list jsstring * Outcome :=
  match findCards (query hanziChar) with
  | None => logErrorAndExit (FindCardsFailed (query hanziChar))
  | Some cardIds =>
    if (length cardIds =? 0)%nat then
      ([describe hanziChar ++ utf16 " not found in Anki."], Resumed)
    else
      match cardsInfo cardIds with
      | None => logErrorAndExit (CardsInfoFailed cardIds)
      | Some cards =>
        let found := anyStandsAlone cards in
        if negb found then
          ([describe hanziChar ++ utf16 " in Anki does not stand by itself."],
           Resumed)
        else ([], Resumed)
      end
  end.

(** [for (const hanziChar of hanziChars) await findHanziFlashcard(hanziChar)];
    nothing runs after the process has ended. *)
Fixpoint findHanziFlashcards (hanziChars : list Flashcards.HanziChar)
  : list jsstring * Outcome :=
  match hanziChars with
  | [] => ([], Resumed)
  | hanziChar :: rest =>
    match findHanziFlashcard hanziChar with
    | (out, Exited error) => (out, Exited error)
    | (out, Resumed) =>
      let (out', outcome) := findHanziFlashcards rest in
      (out ++ out', outcome)
    end
  end.

End Anki.

(** A code unit that [/\s|\[/] matches. *)
Definition isSeparator (c : N) : bool :=
  isWhiteSpace c || (c =? unitOf "[")%N.

End Lookup.

(** ** Further concrete inputs *)

Definition cowEntry : Element :=
  node "牛: niu2 | cow | #🤠"
       [leaf "🧩 horn + one"; leaf "(Old West) A cow wanders into the saloon."].

(** An entry whose label stops after the pronunciation. *)
Definition bareEntry : Element := leaf "妈: ma1".

(** A document whose anchor has no children. *)
Definition anchorOnlyDocument : Element :=
  node "字 HANZI" [leaf "help"; leaf "legend"; leaf "(no pronunciation)"].

(** A document with an entry whose label starts with the colon. *)
Definition strayDocument : Element :=
  node "字 HANZI"
       [leaf "help"; leaf "legend";
        node "(no pronunciation)"
             [leaf "的: (no pronunciation) | of"; leaf ": lost"];
        node "ma" [node "1" [motherEntry]]].

(** The story of [sentenceEntry] as its header gives it. *)
Definition sentenceStory : Story :=
  headerStory (elText sentenceEntry) (utf16 " ju2 | sentence | #🌧️")
              (utf16 "sentence").

(** The answers of a small deck: a card "的 [de]" for 的, a card "妈" for
    妈, no answer to the query for 重, and no card for anything else. *)
Module Deck.

Definition ofChar : Flashcards.HanziChar :=
  Flashcards.tupleOf noPronunciation (leaf "的: (no pronunciation) | of").

Definition motherChar : Flashcards.HanziChar :=
  Flashcards.tupleOf (utf16 "ma/1") motherEntry.

Definition heavyChar : Flashcards.HanziChar :=
  Flashcards.tupleOf (utf16 "zhong/4") heavyEntry.

Definition strayChar : Flashcards.HanziChar :=
  Flashcards.tupleOf noPronunciation (leaf "no colon here").

Definition findCards (query : jsstring) : option (list N) :=
  if streq query (Lookup.query ofChar) then Some [1%N]
  else if streq query (Lookup.query motherChar) then Some [2%N]
  else if streq query (Lookup.query heavyChar) then None
  else Some [].

Definition cardsInfo (cardIds : list N) : option (list (option jsstring)) :=
  Some (map (fun cardId =>
               if (cardId =? 1)%N then Some (utf16 "的 [de]")
               else Some (utf16 "妈"))
            cardIds).

End Deck.

(** ** The characters the frequency check loads ([loadHanziChars])

    The script that compares the tree with a frequency list walks it the
    same way and sets [hanziStoryCharacters[hanzi] = true] for every
    entry. The object is kept as the list of the keys it was given, in
    the order of the assignments. *)

Module Frequency.

(** [`${path}: Hanzi character not found.`]: no [path] is in scope but
    the module of that name, an object. *)
Definition notFound : jsstring :=
  utf16 "[object Object]: Hanzi character not found.".

(** The function [loadHanziElement()] returns, threading the keys. *)
Definition loadHanziElement (hanziStoryCharacters : Eff (list jsstring))
  (hanziElement : Element) : Eff (list jsstring) :=
  hanziStoryCharacters <- hanziStoryCharacters ;;
  let headerText := elText hanziElement in
  let hanzi := hd [] (split (unitOf ":") headerText) in
  if (length hanzi =? 0)%nat then
    consoleError notFound ;;
    ret hanziStoryCharacters
  else ret (hanziStoryCharacters ++ [hanzi]).

(** The inner [forEach] over the children of one pronunciation. *)
Definition loadChild (hanziStoryCharacters : Eff (list jsstring))
  (child : Element) : Eff (list jsstring) :=
  hanziStoryCharacters <- hanziStoryCharacters ;;
  if negb (streq (elText child) Flashcards.tongueLiteral) then
    hanziElements <- defined (outline child) ;;
    fold_left loadHanziElement hanziElements (ret hanziStoryCharacters)
  else ret hanziStoryCharacters.

Definition loadPronunciation (hanziStoryCharacters : Eff (list jsstring))
  (pronunciation : Element) : Eff (list jsstring) :=
  hanziStoryCharacters <- hanziStoryCharacters ;;
  children <- defined (outline pronunciation) ;;
  fold_left loadChild children (ret hanziStoryCharacters).

Definition loadHanziChars (pronunciations : Element) : Eff (list jsstring) :=
  level1 <- defined (outline pronunciations) ;;
  firstPronunciation <- defined (nth_error level1 2) ;;
  if negb (test reNoPronunciation (elText firstPronunciation)) then
    consoleError structuralError ;;
    ret []
  else
    hanziElements <- defined (outline firstPronunciation) ;;
    hanziStoryCharacters <- fold_left loadHanziElement hanziElements (ret []) ;;
    let pronunciationElements := skipn 3 level1 in
    fold_left loadPronunciation pronunciationElements (ret hanziStoryCharacters).

(** What a list of entries gives: the key of an entry is its label up
    to the first colon; the entries with a key are loaded, the others
    complained about. *)
Definition keyOf (hanziElement : Element) : jsstring :=
  hd [] (split (unitOf ":") (elText hanziElement)).

Definition keys (hanziElements : list Element) : list jsstring :=
  filter (fun key => negb (length key =? 0)%nat) (map keyOf hanziElements).

Definition complaints (hanziElements : list Element) : list jsstring :=
  map (fun _ => notFound)
      (filter (fun hanziElement => (length (keyOf hanziElement) =? 0)%nat)
              hanziElements).

End Frequency.

(** ** Nodes as the XML parser hands them over

    [Element] is a node that carries its [text] attribute. The parser
    gives no [$] to an element without attributes, and [$] has no
    [text] when that attribute is missing. [Raw] follows the flashcard
    traversal and the audit of one entry on such nodes: [x.$.text]
    throws a [TypeError] on the first kind and is [undefined] on the
    second. *)

Module Raw.

Local Unset Elimination Schemes.
Inductive Outline : Type :=
| mkOutline (attributes : option (option jsstring))
            (children : option (list Outline)).
Local Set Elimination Schemes.

(** [n.$], reduced to its [text]: [None] without [$], [Some None]
    without the attribute. *)
Definition dollar (n : Outline) : option (option jsstring) :=
  match n with mkOutline a _ => a end.

Definition outline (n : Outline) : option (list Outline) :=
  match n with mkOutline _ c => c end.

(** [n.$.text]: a [TypeError] without [$], [undefined] without the
    attribute. *)
Definition text (n : Outline) : Eff (option jsstring) :=
  attributes <- defined (dollar n) ;;
  ret attributes.

(** [a === b] for a value that may be [undefined]. *)
Definition strictEq (a : option jsstring) (b : jsstring) : bool :=
  match a with
  | Some s => streq s b
  | None => false
  end.

(** *** The flattening traversal *)

(** [hanziElement.$.text.split(':')] throws on a missing [$] and on a
    missing [text]. *)
Definition loadChildHanziChars (hanziElements : option (list Outline))
  (path : jsstring) : Eff (list Flashcards.HanziChar) :=
  hanziElements <- defined hanziElements ;;
  fold_left
    (fun hanziChars hanziElement =>
       hanziChars <- hanziChars ;;
       label <- text hanziElement ;;
       label <- defined label ;;
       let hanziElementParts := split (unitOf ":") label in
       let hanzi := hd [] hanziElementParts in
       let definition := nth_error hanziElementParts 1 in
       ret (hanziChars ++ [Flashcards.mkHanziChar hanzi path definition]))
    hanziElements (ret []).

(** [`${syllable}/${toneElement.$.text}`] prints a missing [text] as
    "undefined". *)
Definition loadToneLevel (syllable : option jsstring)
  (hanziChars : Eff (list Flashcards.HanziChar)) (toneElement : Outline)
  : Eff (list Flashcards.HanziChar) :=
  hanziChars <- hanziChars ;;
  label <- text toneElement ;;
  if negb (strictEq label Flashcards.tongueLiteral) then
    more <- loadChildHanziChars (outline toneElement)
              (toStringArg syllable ++ utf16 "/" ++ toStringArg label) ;;
    ret (hanziChars ++ more)
  else ret hanziChars.

Definition loadPronunciation (hanziChars : Eff (list Flashcards.HanziChar))
  (pronunciation : Outline) : Eff (list Flashcards.HanziChar) :=
  hanziChars <- hanziChars ;;
  syllable <- text pronunciation ;;
  toneElements <- defined (outline pronunciation) ;;
  fold_left (loadToneLevel syllable) toneElements (ret hanziChars).

Definition loadAllHanziChars (pronunciations : Outline)
  : Eff (list Flashcards.HanziChar) :=
  level1 <- defined (outline pronunciations) ;;
  firstPronunciation <- defined (nth_error level1 2) ;;
  let noPronunciationHanziElements := outline firstPronunciation in
  hanziChars <- loadChildHanziChars noPronunciationHanziElements noPronunciation ;;
  let pronunciationElements := skipn 3 level1 in
  fold_left loadPronunciation pronunciationElements (ret hanziChars).

(** *** The trees the traversal gets through, and its roster *)

(** The [text] of a node, the empty string when it has none. *)
Definition labelOf (n : Outline) : jsstring :=
  match dollar n with
  | Some (Some label) => label
  | _ => []
  end.

Definition labelled (n : Outline) : bool :=
  match dollar n with
  | Some (Some _) => true
  | _ => false
  end.

Definition childrenOf (n : Outline) : list Outline :=
  match outline n with
  | Some children => children
  | None => []
  end.

(** A list of entries that is there, each entry with its [text]. *)
Definition entriesPresent (hanziElements : option (list Outline)) : bool :=
  match hanziElements with
  | Some hanziElements => forallb labelled hanziElements
  | None => false
  end.

(** A tone-level node the traversal gets through: it has [$], and
    unless its label is the script's spelling of the marker, its
    entries are present. *)
Definition toneLevelShaped (toneElement : Outline) : bool :=
  match dollar toneElement with
  | Some label =>
    if strictEq label Flashcards.tongueLiteral then true
    else entriesPresent (outline toneElement)
  | None => false
  end.

Definition pronunciationShaped (pronunciation : Outline) : bool :=
  match dollar pronunciation, outline pronunciation with
  | Some _, Some toneElements => forallb toneLevelShaped toneElements
  | _, _ => false
  end.

(** The root has a child at index 2 whose entries are present, and
    every later child of the root is a pronunciation the traversal gets
    through. *)
Definition wellShaped (pronunciations : Outline) : bool :=
  match outline pronunciations with
  | Some level1 =>
    match nth_error level1 2 with
    | Some firstPronunciation =>
      entriesPresent (outline firstPronunciation)
      && forallb pronunciationShaped (skipn 3 level1)
    | None => false
    end
  | None => false
  end.

(** The object for one entry: the label up to its first colon, the
    path, and the label between its first and its second colon. *)
Definition hanziCharOf (path : jsstring) (hanziElement : Outline)
  : Flashcards.HanziChar :=
  let label := labelOf hanziElement in
  Flashcards.mkHanziChar (Flashcards.beforeColon label) path
    (option_map Flashcards.beforeColon (Flashcards.afterColon label)).

Definition toneLevelRoster (syllable : option jsstring) (toneElement : Outline)
  : list Flashcards.HanziChar :=
  match dollar toneElement with
  | Some label =>
    if strictEq label Flashcards.tongueLiteral then []
    else
      map (hanziCharOf (toStringArg syllable ++ utf16 "/" ++ toStringArg label))
          (childrenOf toneElement)
  | None => []
  end.

Definition pronunciationRoster (pronunciation : Outline)
  : list Flashcards.HanziChar :=
  match dollar pronunciation with
  | Some syllable =>
    flat_map (toneLevelRoster syllable) (childrenOf pronunciation)
  | None => []
  end.

(** One object for every entry, in document order: the entries of the
    child at index 2, then those of the tone-level nodes of every later
    child. *)
Definition roster (pronunciations : Outline) : list Flashcards.HanziChar :=
  match nth_error (childrenOf pronunciations) 2 with
  | Some firstPronunciation =>
    map (hanziCharOf noPronunciation) (childrenOf firstPronunciation)
  | None => []
  end
  ++ flat_map pronunciationRoster (skipn 3 (childrenOf pronunciations)).

(** *** Labelled trees among the nodes *)

Fixpoint embed (e : Element) : Outline :=
  match e with
  | mkElement label children =>
    mkOutline (Some (Some label))
              (match children with
               | Some children => Some (map embed children)
               | None => None
               end)
  end.

(** *** The audit of one entry

    [parseChildren] pushes the [text] of a child onto [story.storyLines]
    as it finds it, [undefined] included. The story lines are therefore
    kept beside the story, as [rawLines]; the field [storyLines] of
    [story] is not used here. *)

Record RawStory : Type := mkRawStory {
  story : Story;
  rawLines : list (option jsstring)
}.

(** [story.storyLines[0]] *)
Definition firstLine (s : RawStory) : option jsstring :=
  match nth_error (rawLines s) 0 with
  | Some line => line
  | None => None
  end.

(** The pattern is tested on "undefined" when [story.headerText] is
    [undefined], and the message needs [story.headerText.slice]. *)
Definition validateHeaderFormat (path : jsstring) (headerText : option jsstring)
  : Eff bool :=
  if negb (test reHeader (toStringArg headerText)) then
    shown <- defined headerText ;;
    consoleError (path ++ utf16 ": Hanzi element must begin with character, colon, single space: "
                    ++ sliceTo 5 shown ++ utf16 "...") ;;
    ret false
  else ret true.

(** [child.outline && child.outline.length > 0] *)
Definition hasChildNodes (child : Outline) : bool :=
  match outline child with
  | Some (_ :: _) => true
  | _ => false
  end.

(** The [for] loop of [parseChildren] from index [i] on. *)
Fixpoint parseChildrenFrom (path : jsstring) (i : nat) (children : list Outline)
  (hanziBreakdownEncountered : bool) (s : RawStory) : Eff (bool * RawStory) :=
  match children with
  | [] => ret (true, s)
  | child :: rest =>
    if hasChildNodes child then
      consoleError (path ++ utf16 "/" ++ hanzi (story s)
                      ++ utf16 ": Story has grand-child nodes.") ;;
      ret (false, s)
    else
      text <- text child ;;
      if test reBreakdownMarker (toStringArg text) then
        if hanziBreakdownEncountered then
          consoleError (path ++ utf16 "/" ++ hanzi (story s)
                          ++ utf16 ": Multiple hanzi breakdowns encountered") ;;
          ret (false, s)
        else if negb (i =? 0) then
          consoleError (path ++ utf16 "/" ++ hanzi (story s)
                          ++ utf16 ": Hanzi breakdown is not the first child node") ;;
          ret (false, s)
        else
          text <- defined text ;;
          parseChildrenFrom path (S i) rest true
            (mkRawStory
               (setHanziBreakdown (Some (trim (sliceFrom 2 text))) (story s))
               (rawLines s))
      else if test reNoteMarker (toStringArg text) then
        text <- defined text ;;
        parseChildrenFrom path (S i) rest hanziBreakdownEncountered
          (mkRawStory
             (setNotes (notes (story s) ++ [trim (sliceFrom 2 text)]) (story s))
             (rawLines s))
      else
        parseChildrenFrom path (S i) rest hanziBreakdownEncountered
          (mkRawStory (story s) (rawLines s ++ [text]))
  end.

(** [!children || children.length === 0] *)
Definition noChildren (children : option (list Outline)) : bool :=
  match children with
  | Some (_ :: _) => false
  | _ => true
  end.

Definition parseChildren (path : jsstring) (hanziElement : Outline)
  (s : RawStory) : Eff (bool * RawStory) :=
  let children := outline hanziElement in
  if noChildren children && negb (streq path noPronunciation) then
    consoleError (path ++ utf16 "/" ++ hanzi (story s)
                    ++ utf16 ": Hanzi element must have children") ;;
    ret (false, s)
  else
    let s := mkRawStory (setNotes [] (story s)) [] in
    match children with
    | None => ret (true, s)
    | Some children => parseChildrenFrom path 0 children false s
    end.

Definition atLeastOneStoryLine (path : jsstring) (s : RawStory) : Eff bool :=
  if (length (rawLines s) =? 0) && negb (streq path noPronunciation) then
    consoleError (path ++ utf16 "/" ++ hanzi (story s)
                    ++ utf16 ": Hanzi element must have at least one story line") ;;
    ret false
  else ret true.

Definition movieSetStoryHasAtLeastFourStoryLines (path : jsstring)
  (s : RawStory) : Eff bool :=
  if isMovieSetStory (story s) && (length (rawLines s) <? 4) then
    consoleError (path ++ utf16 "/" ++ hanzi (story s)
                    ++ utf16 ": Movie set story must have at least four story lines") ;;
    ret false
  else ret true.

Definition oldWestStoryMustBeginWithCorrectPattern (path : jsstring)
  (s : RawStory) : Eff bool :=
  if isOldWestStory (story s)
     && negb (test reOldWest (toStringArg (firstLine s))) then
    consoleError (path ++ utf16 "/" ++ hanzi (story s)
                    ++ utf16 ": Old West story must begin with " ++ dquote
                    ++ utf16 "(Old West" ++ dquote) ;;
    ret false
  else ret true.

Definition sciFiStoryMustBeginWithCorrectPattern (path : jsstring)
  (s : RawStory) : Eff bool :=
  if isSciFiStory (story s)
     && negb (test reSciFi (toStringArg (firstLine s))) then
    consoleError (path ++ utf16 "/" ++ hanzi (story s)
                    ++ utf16 ": Sci-fi story must begin with " ++ dquote
                    ++ utf16 "(Sci-fi" ++ dquote) ;;
    ret false
  else ret true.

Definition policeDramaStoryMustBeginWithCorrectPattern (path : jsstring)
  (s : RawStory) : Eff bool :=
  if isPoliceDramaStory (story s)
     && negb (test rePoliceDrama (toStringArg (firstLine s))) then
    consoleError (path ++ utf16 "/" ++ hanzi (story s)
                    ++ utf16 ": Police drama story must begin with " ++ dquote
                    ++ utf16 "(Police drama" ++ dquote) ;;
    ret false
  else ret true.

Section Audit.

Variable toLowerCase : jsstring -> jsstring.

(** [story.storyLines[0].toLowerCase()] *)
Definition wheelStoryMentionsWheel (path : jsstring) (s : RawStory) : Eff bool :=
  if isWheelStory (story s) then
    line <- defined (firstLine s) ;;
    if negb (includes (utf16 "wheel") (toLowerCase line)) then
      consoleError (path ++ utf16 "/" ++ hanzi (story s)
                      ++ utf16 ": Wheel story must mention " ++ dquote
                      ++ utf16 "wheel" ++ dquote ++ utf16 " in the first line") ;;
      ret false
    else ret true
  else ret true.

(** [story.storyLines.some(line => line.toLowerCase().includes('pouring rain'))]:
    [some] stops at the first line that mentions it. *)
Fixpoint someMentionPouringRain (storyLines : list (option jsstring)) : Eff bool :=
  match storyLines with
  | [] => ret false
  | line :: rest =>
    line <- defined line ;;
    if includes (utf16 "pouring rain") (toLowerCase line) then ret true
    else someMentionPouringRain rest
  end.

Definition pouringRainStoryMustMentionPouringRainInStoryText (path : jsstring)
  (s : RawStory) : Eff bool :=
  if isPouringRainStory (story s) then
    mentioned <- someMentionPouringRain (rawLines s) ;;
    if negb mentioned then
      consoleError (path ++ utf16 "/" ++ hanzi (story s)
                      ++ utf16 ": Pouring Rain story must mention " ++ dquote
                      ++ utf16 "pouring rain" ++ dquote ++ utf16 " in the story text") ;;
      ret false
    else ret true
  else ret true.

(** [auditHanziElement]; the rules that do not read the story lines are
    those of the audit over [Element]. *)
Definition auditHanziElement (path : jsstring) (hanziElement : Outline)
  : Eff (option RawStory) :=
  text <- text hanziElement ;;
  check validateHeaderFormat path text ;;
  (* const [hanzi, rest] = text.split(':'); *)
  text <- defined text ;;
  let story := newStory text in
  let parts := split (unitOf ":") text in
  let hanzi := hd [] parts in
  let rest := nth_error parts 1 in
  let story := setHanzi hanzi story in
  check hanziIsSingleCharacter path story ;;
  rest <- defined rest ;;
  let segments := map trim (split (unitOf "|") rest) in
  let pinyinAndToneStr := hd [] segments in
  let translationStr := nth_error segments 1 in
  let tags := nth_error segments 2 in
  let pinyinAndTones := map trim (split (unitOf ",") pinyinAndToneStr) in
  let story := setPinyinAndTones pinyinAndTones story in
  let story := setTranslationStr translationStr story in
  let story := setTags tags story in
  check pinyinAndTonesValid path story ;;
  translationStr <- defined translationStr ;;
  let translations := map trim (split (unitOf ",") translationStr) in
  let story := setTranslations translations story in
  check pinyinCountMatchesTranslationCount path story ;;
  check matchingPinyinSyllable path story ;;
  let story := setIsMovieSetStory (tagged tags (utf16 "#🎬")) story in
  let story := setIsWheelStory (tagged tags (utf16 "#🎡")) story in
  let story := setIsPouringRainStory (tagged tags (utf16 "#🌧️")) story in
  let story := setIsOldWestStory (tagged tags (utf16 "#🤠")) story in
  let story := setIsSciFiStory (tagged tags (utf16 "#👽")) story in
  let story := setIsPoliceDramaStory (tagged tags (utf16 "#👮")) story in
  check multiplePinyinSyllablesWithMovieSetTag path story ;;
  parsed <- parseChildren path hanziElement (mkRawStory story []) ;;
  let s := snd parsed in
  check ret (fst parsed) ;;
  check wheelStoryValid path (Raw.story s) ;;
  check hanziBreakdownValid path (Raw.story s) ;;
  check storyTypeValid path (Raw.story s) ;;
  check atLeastOneStoryLine path s ;;
  check wheelStoryMentionsWheel path s ;;
  check movieSetStoryHasAtLeastFourStoryLines path s ;;
  check oldWestStoryMustBeginWithCorrectPattern path s ;;
  check sciFiStoryMustBeginWithCorrectPattern path s ;;
  check policeDramaStoryMustBeginWithCorrectPattern path s ;;
  check pouringRainStoryMustHaveEligibleSyllable path (Raw.story s) ;;
  check storyWithPouringRainSyllableMustBePouringRainStory path (Raw.story s) ;;
  check pouringRainStoryMustMentionPouringRainInStoryText path s ;;
  ret (Some s).

End Audit.

(** *** What [parseChildren] does with the children of an entry *)

(** The [text] of a child that has [$]. *)
Definition textOf (child : Outline) : option jsstring :=
  match dollar child with
  | Some text => text
  | None => None
  end.

Definition isBreakdownChild (child : Outline) : bool :=
  test reBreakdownMarker (toStringArg (textOf child)).

Definition isNoteChild (child : Outline) : bool :=
  negb (test reBreakdownMarker (toStringArg (textOf child)))
  && test reNoteMarker (toStringArg (textOf child)).

Definition isStoryLineChild (child : Outline) : bool :=
  negb (test reBreakdownMarker (toStringArg (textOf child)))
  && negb (test reNoteMarker (toStringArg (textOf child))).

(** The three ways [parseChildren] can end. *)
Inductive Verdict : Type := Accepts | Refuses | Throws.

(** The loop, child by child: children of a child refuse, a child
    without [$] throws, a breakdown after the first position refuses. *)
Fixpoint loopVerdict (first : bool) (children : list Outline) : Verdict :=
  match children with
  | [] => Accepts
  | child :: rest =>
    if hasChildNodes child then Refuses
    else
      match dollar child with
      | None => Throws
      | Some _ =>
        if isBreakdownChild child && negb first then Refuses
        else loopVerdict false rest
      end
  end.

Definition verdict (path : jsstring) (hanziElement : Outline) : Verdict :=
  if noChildren (outline hanziElement) && negb (streq path noPronunciation)
  then Refuses
  else loopVerdict true (childrenOf hanziElement).

(** The breakdown an accepted entry gets: the text of a leading
    breakdown child, marker removed and trimmed. *)
Definition breakdownOf (children : list Outline) : option jsstring :=
  match children with
  | child :: _ =>
    if isBreakdownChild child
    then Some (trim (sliceFrom 2 (toStringArg (textOf child))))
    else None
  | [] => None
  end.

(** The story lines [parseChildren] collects from an entry it accepts,
    and the first of them as the rules read it. *)
Definition storyLinesOf (hanziElement : Outline) : list (option jsstring) :=
  map textOf (filter isStoryLineChild (childrenOf hanziElement)).

Definition firstStoryLine (hanziElement : Outline) : option jsstring :=
  match nth_error (storyLinesOf hanziElement) 0 with
  | Some line => line
  | None => None
  end.

(** Where the audit of an entry can throw, and what the console holds
    then: the entry has no [text]; or its label has no translation
    segment; or [parseChildren] meets a child without [$]; or the entry
    is tagged as a wheel story and its first story line is missing
    (which the root group alone allows) or has no [text]; or it is
    tagged as a pouring-rain story and one of its story lines has no
    [text]. *)
Definition throwFacts (path : jsstring) (hanziElement : Outline)
  (out : list jsstring) (r : result (option RawStory)) : Prop :=
  match r with
  | Throw _ =>
    out = []
    /\ (textOf hanziElement = None
        \/ exists label rest,
             textOf hanziElement = Some label
             /\ nth_error (split (unitOf ":") label) 1 = Some rest
             /\ (nth_error (map trim (split (unitOf "|") rest)) 1 = None
                 /\ filter malformedPinyinAndTone (pinyinTokens label) = []
                 \/ verdict path hanziElement = Throws
                 \/ tagged (nth_error (map trim (split (unitOf "|") rest)) 2)
                           (utf16 "#🎡") = true
                    /\ firstStoryLine hanziElement = None
                    /\ (storyLinesOf hanziElement = [] -> path = noPronunciation)
                 \/ tagged (nth_error (map trim (split (unitOf "|") rest)) 2)
                           (utf16 "#🌧️") = true
                    /\ In None (storyLinesOf hanziElement)))
  | Value _ => True
  end.

(** The story [story] with its lines put beside it. *)
Definition raise (story : Story) : RawStory :=
  mkRawStory (setStoryLines [] story) (map Some (storyLines story)).

End Raw.

(** ** Concrete nodes of the parser *)

(** The roster document as the parser hands it over, with an empty
    element at index 0, where the traversal does not look. *)
Definition rawRosterDocument : Raw.Outline :=
  Raw.mkOutline (Some (Some (utf16 "字 HANZI")))
    (Some [Raw.mkOutline None None; Raw.embed (leaf "legend");
           Raw.embed (node "(no pronunciation)"
                           [leaf "的: (no pronunciation) | of"; leaf "no colon here"]);
           Raw.embed (node "ma" [node "1" [motherEntry]; leaf "ðŸ‘…"]);
           Raw.embed (node "zhong" [node "4" [heavyEntry]])]).

(** A document whose root group holds an empty element. *)
Definition rawHoleDocument : Raw.Outline :=
  Raw.mkOutline (Some (Some (utf16 "字 HANZI")))
    (Some [Raw.embed (leaf "help"); Raw.embed (leaf "legend");
           Raw.mkOutline (Some (Some noPronunciation))
                         (Some [Raw.embed (leaf "的: (no pronunciation) | of");
                                Raw.mkOutline None None])]).

(** The entry for "妈" with an empty element among its children. *)
Definition orphanedEntry : Raw.Outline :=
  Raw.mkOutline (Some (Some (utf16 "妈: ma1 | mother")))
    (Some [Raw.embed (leaf "🧩 female + horse"); Raw.mkOutline None None]).

(** A wheel entry whose only child has attributes but no [text]. *)
Definition muteWheelEntry : Raw.Outline :=
  Raw.mkOutline (Some (Some (utf16 "轮: lun2 | wheel | #🎡")))
    (Some [Raw.mkOutline (Some None) None]).

(** * Results *)

(** ** Strings and patterns *)

Example utf16_bmp : utf16 "的: de" = [30340; 58; 32; 100; 101]%N.
Proof. reflexivity. Qed.

Example utf16_astral : utf16 "🧩ü" = [55358; 56809; 252]%N.
Proof. reflexivity. Qed.

Example utf16_variation_selector : utf16 "#🌧️" = [35; 55356; 57127; 65039]%N.
Proof. reflexivity. Qed.

Example split_colons :
  split (unitOf ":") (utf16 "a:b:c") = [utf16 "a"; utf16 "b"; utf16 "c"]
  /\ split (unitOf ":") (utf16 "abc") = [utf16 "abc"]
  /\ split (unitOf ":") [] = [[]].
Proof. repeat split. Qed.

Example trim_both_ends : trim (utf16 "  ma1 , ma2 ") = utf16 "ma1 , ma2".
Proof. reflexivity. Qed.

Example rePinyinAndTone_runs :
  map (test rePinyinAndTone)
      (map utf16 ["ma1"; "lü4"; "de"; "Ma1"; "ma6"; "ma12"; "1"; ""]%string)
  = [true; true; true; false; false; false; false; false].
Proof. vm_compute. reflexivity. Qed.

Example reBreakdown_runs :
  map (test reBreakdown)
      (map utf16 ["female + horse"; "a+b+c"; "a"; "a++b"; "+a"; "a+"]%string)
  = [true; true; false; false; false; false].
Proof. vm_compute. reflexivity. Qed.

Example reHeader_runs :
  map (test reHeader) (map utf16 ["的: de | of"; "的:de"; "的:  de"; "de: x"]%string)
  = [true; false; false; false].
Proof. vm_compute. reflexivity. Qed.

Example reTone_runs :
  map (test reTone) (map utf16 ["1"; "5"; "6"; "12"; "👅"]%string)
  = [true; true; false; false; false].
Proof. vm_compute. reflexivity. Qed.

(** [streq] decides equality of strings. *)
Lemma streq_eq (a b : jsstring) : streq a b = true <-> a = b.
Proof.
  revert b; induction a as [|x a IH]; intros [|y b]; simpl; try (split; congruence).
  rewrite andb_true_iff, N.eqb_eq, IH. split.
  - intros [-> ->]; reflexivity.
  - intros H; injection H; auto.
Qed.

Lemma streq_refl (a : jsstring) : streq a a = true.
Proof. apply streq_eq; reflexivity. Qed.

(** [split] never returns an empty array, so index 0 of its result is
    always defined. *)
Lemma split_nonempty (sep : N) (s : jsstring) : split sep s <> [].
Proof.
  induction s as [|c r IH]; simpl; [discriminate|].
  destruct (c =? sep)%N; [discriminate|].
  destruct (split sep r); discriminate.
Qed.

(** The derivative matcher decides the language of a pattern. *)
Lemma nullable_lang (r : regex) : nullable r = true <-> lang r [].
Proof.
  induction r; simpl.
  - split; [discriminate | inversion 1].
  - split; [constructor | reflexivity].
  - split; [discriminate | inversion 1].
  - rewrite andb_true_iff, IHr1, IHr2. split.
    + intros [H1 H2]. change (@nil N) with (@nil N ++ []). constructor; assumption.
    + inversion 1 as [| |a b s t Hs Ht Hab Hst| | | |]; subst.
      apply app_eq_nil in Hst as [-> ->]. auto.
  - rewrite orb_true_iff, IHr1, IHr2. split.
    + intros [H|H]; [apply LangAltL | apply LangAltR]; assumption.
    + inversion 1; subst; auto.
  - split; [constructor | reflexivity].
Qed.

Lemma lang_star_cons (a : regex) (c : N) (s : jsstring) :
  lang (Star a) (c :: s) ->
  exists s1 s2, s = s1 ++ s2 /\ lang a (c :: s1) /\ lang (Star a) s2.
Proof.
  intros H. remember (Star a) as r eqn:Er. remember (c :: s) as w eqn:Ew.
  revert s Ew. induction H; intros s' Ew; try discriminate.
  injection Er as ->.
  destruct s as [|x s].
  - simpl in Ew. apply IHlang2; auto.
  - simpl in Ew. injection Ew as -> <-.
    exists s, t. auto.
Qed.

Lemma deriv_lang (c : N) (r : regex) (s : jsstring) :
  lang (deriv c r) s <-> lang r (c :: s).
Proof.
  revert s. induction r; intros s; simpl.
  - split; inversion 1.
  - split; inversion 1.
  - destruct (p c) eqn:Hp; split; intros H; inversion H; subst.
    + constructor; assumption.
    + constructor.
    + congruence.
  - destruct (nullable r1) eqn:Hn.
    + split.
      * intros H. inversion H as [| | |a b s0 H1|a b s0 H1| |]; subst.
        -- inversion H1; subst.
           change (c :: s0 ++ t) with ((c :: s0) ++ t).
           constructor; [apply IHr1|]; assumption.
        -- change (c :: s) with ([] ++ c :: s).
           constructor; [apply nullable_lang | apply IHr2]; assumption.
      * intros H. inversion H as [| |a b s0 t H1 H2 Hab Hst| | | |]; subst.
        destruct s0 as [|x s0]; simpl in Hst.
        -- subst. apply LangAltR, IHr2; assumption.
        -- injection Hst as -> <-.
           apply LangAltL. constructor; [apply IHr1|]; assumption.
    + split.
      * intros H. inversion H; subst.
        change (c :: s0 ++ t) with ((c :: s0) ++ t).
        constructor; [apply IHr1|]; assumption.
      * intros H. inversion H as [| |a b s0 t H1 H2 Hab Hst| | | |]; subst.
        destruct s0 as [|x s0]; simpl in Hst.
        -- apply nullable_lang in H1. congruence.
        -- injection Hst as -> <-.
           constructor; [apply IHr1|]; assumption.
  - split; intros H; inversion H; subst.
    + apply LangAltL, IHr1; assumption.
    + apply LangAltR, IHr2; assumption.
    + apply LangAltL, IHr1; assumption.
    + apply LangAltR, IHr2; assumption.
  - split.
    + intros H. inversion H; subst.
      change (c :: s0 ++ t) with ((c :: s0) ++ t).
      constructor; [apply IHr|]; assumption.
    + intros H. apply lang_star_cons in H as (s1 & s2 & -> & H1 & H2).
      constructor; [apply IHr|]; assumption.
Qed.

Lemma matches_lang (r : regex) (s : jsstring) : matches r s = true <-> lang r s.
Proof.
  revert r. induction s as [|c s IH]; intros r; simpl.
  - apply nullable_lang.
  - rewrite IH. apply deriv_lang.
Qed.

Lemma lang_Lit (w s : jsstring) : lang (Lit w) s <-> s = w.
Proof.
  revert s. induction w as [|c w IH]; intros s; simpl.
  - split; [inversion 1; reflexivity | intros ->; constructor].
  - split.
    + inversion 1 as [| |a b s1 t H1 H2 Hab Hst| | | |]; subst.
      inversion H1 as [|p x Hx| | | | |]; subst.
      apply N.eqb_eq in Hx. apply IH in H2. subst. reflexivity.
    + intros ->. change (c :: w) with ([c] ++ w).
      constructor; [constructor; apply N.eqb_refl | apply IH; reflexivity].
Qed.

Lemma lang_any (s : jsstring) : lang (Star AnyUnit) s.
Proof.
  induction s as [|c s IH]; [constructor|].
  change (c :: s) with ([c] ++ s). constructor; [constructor; reflexivity | exact IH].
Qed.

Lemma lang_Alts (l : list regex) (s : jsstring) :
  lang (Alts l) s <-> exists r, In r l /\ lang r s.
Proof.
  induction l as [|a l IH]; simpl.
  - split; [inversion 1 | intros (r & [] & _)].
  - split.
    + inversion 1; subst.
      * exists a; auto.
      * apply IH in H3 as (r & Hr & Hs). exists r; auto.
    + intros (r & [<-|Hr] & Hs); [apply LangAltL; assumption|].
      apply LangAltR, IH. exists r; auto.
Qed.

Lemma lang_Eps_l (r : regex) (s : jsstring) : lang (Cat Eps r) s <-> lang r s.
Proof.
  split.
  - inversion 1 as [| |a b s1 t H1 H2 Hab Hst| | | |]; subst.
    inversion H1; subst. exact H2.
  - intros H. change s with ([] ++ s). constructor; [constructor | exact H].
Qed.

Lemma lang_Eps_r (r : regex) (s : jsstring) : lang (Cat r Eps) s <-> lang r s.
Proof.
  split.
  - inversion 1 as [| |a b s1 t H1 H2 Hab Hst| | | |]; subst.
    inversion H2; subst. rewrite app_nil_r. exact H1.
  - intros H. rewrite <- (app_nil_r s). constructor; [exact H | constructor].
Qed.

(** A pattern anchored at both ends must match the whole string. *)
Lemma test_anchored (r : regex) (s : jsstring) :
  test (mkRegExp true r true) s = true <-> lang r s.
Proof.
  unfold test; simpl. rewrite matches_lang, lang_Eps_l, lang_Eps_r. reflexivity.
Qed.

(** A pattern without anchors is searched for anywhere in the string. *)
Lemma test_search (r : regex) (s : jsstring) :
  test (mkRegExp false r false) s = true <->
  exists pre mid post, s = pre ++ mid ++ post /\ lang r mid.
Proof.
  unfold test; simpl. rewrite matches_lang. split.
  - inversion 1 as [| |a b pre t H1 H2 Hab Hst| | | |]; subst.
    inversion H2 as [| |a b mid post H3 H4 Hab Hst| | | |]; subst.
    exists pre, mid, post. auto.
  - intros (pre & mid & post & -> & H).
    constructor; [apply lang_any|]. constructor; [exact H | apply lang_any].
Qed.

(** A pattern anchored at the start only must match a prefix. *)
Lemma test_prefix (r : regex) (s : jsstring) :
  test (mkRegExp true r false) s = true <->
  exists mid post, s = mid ++ post /\ lang r mid.
Proof.
  unfold test; simpl. rewrite matches_lang, lang_Eps_l. split.
  - inversion 1 as [| |a b mid post H1 H2 Hab Hst| | | |]; subst.
    exists mid, post. auto.
  - intros (mid & post & -> & H). constructor; [exact H | apply lang_any].
Qed.

Lemma startsWith_spec (w s : jsstring) :
  startsWith w s = true <-> exists post, s = w ++ post.
Proof.
  revert s. induction w as [|c w IH]; intros s; simpl.
  - split; [exists s; reflexivity | reflexivity].
  - destruct s as [|x s].
    + split; [discriminate | intros (post & H); discriminate].
    + rewrite andb_true_iff, N.eqb_eq, IH. split.
      * intros (-> & post & ->). exists post; reflexivity.
      * intros (post & H). injection H as -> ->. split; [reflexivity | exists post; reflexivity].
Qed.

Lemma includes_spec (w s : jsstring) :
  includes w s = true <-> exists pre post, s = pre ++ w ++ post.
Proof.
  induction s as [|c s IH].
  - simpl. rewrite orb_false_r, startsWith_spec. split.
    + intros (post & H). exists [], post. exact H.
    + intros (pre & post & H). destruct pre; simpl in H.
      * exists post; exact H.
      * discriminate.
  - cbn [includes]. rewrite orb_true_iff, startsWith_spec, IH. split.
    + intros [(post & H) | (pre & post & H)].
      * exists [], post; exact H.
      * exists (c :: pre), post. rewrite H. reflexivity.
    + intros (pre & post & H). destruct pre as [|x pre]; simpl in H.
      * left. exists post; exact H.
      * right. injection H as _ ->. exists pre, post; reflexivity.
Qed.

Lemma bool_eq_iff (a b : bool) : (a = true <-> b = true) -> a = b.
Proof.
  destruct a, b; intros [H1 H2]; try reflexivity.
  - symmetry; auto.
  - auto.
Qed.

(** [/literal/.test(s)] is [s.includes('literal')]. *)
Lemma test_search_Lit (w s : jsstring) :
  test (mkRegExp false (Lit w) false) s = includes w s.
Proof.
  apply bool_eq_iff. rewrite test_search, includes_spec. split.
  - intros (pre & mid & post & -> & H). apply lang_Lit in H. subst. eauto.
  - intros (pre & post & ->). exists pre, w, post. split; [reflexivity | apply lang_Lit; reflexivity].
Qed.

(** [/^literal/.test(s)] is [s.startsWith('literal')]. *)
Lemma test_prefix_Lit (w s : jsstring) :
  test (mkRegExp true (Lit w) false) s = startsWith w s.
Proof.
  apply bool_eq_iff. rewrite test_prefix, startsWith_spec. split.
  - intros (mid & post & -> & H). apply lang_Lit in H. subst. eauto.
  - intros (post & ->). exists w, post. split; [reflexivity | apply lang_Lit; reflexivity].
Qed.

(** The whitelist pattern accepts exactly the sixteen listed strings. *)
Lemma pouringRainSyllable_spec (s : jsstring) :
  test pouringRainSyllable s = true <-> In s pouringRainSyllables.
Proof.
  unfold pouringRainSyllable. rewrite test_anchored, lang_Alts. split.
  - intros (r & Hr & Hs). apply in_map_iff in Hr as (w & <- & Hw).
    apply lang_Lit in Hs. subst. exact Hw.
  - intros H. exists (Lit s). split; [apply in_map; exact H | apply lang_Lit; reflexivity].
Qed.

(** The laws of [bind] that the proofs step with. *)
Lemma bind_ret_l {A B} (a : A) (f : A -> Eff B) : bind (ret a) f = f a.
Proof. unfold bind, ret. destruct (f a); reflexivity. Qed.

Lemma bind_assoc {A B C} (m : Eff A) (f : A -> Eff B) (g : B -> Eff C) :
  bind (bind m f) g = bind m (fun x => bind (f x) g).
Proof.
  destruct m as [out [a|e]]; simpl; [|reflexivity].
  destruct (f a) as [out1 [b|e]]; simpl; [|reflexivity].
  destruct (g b) as [out2 r]. rewrite app_assoc. reflexivity.
Qed.

Lemma bind_ext {A B} (m : Eff A) (f g : A -> Eff B) :
  (forall x, f x = g x) -> bind m f = bind m g.
Proof. intros H. destruct m as [out [a|e]]; simpl; [rewrite H|]; reflexivity. Qed.

Lemma andThen_check {A B} (r : Eff bool) (k : Eff (option A)) (f : A -> Eff (option B)) :
  andThen (check r ;; k) f = check r ;; andThen k f.
Proof.
  unfold andThen, orReturn. rewrite bind_assoc. refine (bind_ext r _ _ _).
  intros [|]; [reflexivity | rewrite bind_ret_l; reflexivity].
Qed.

Lemma andThen_bind {A B C} (m : Eff C) (k : C -> Eff (option A)) (f : A -> Eff (option B)) :
  andThen (x <- m ;; k x) f = x <- m ;; andThen (k x) f.
Proof. unfold andThen. apply bind_assoc. Qed.

Lemma removeAll_app c a b : removeAll c (a ++ b) = removeAll c a ++ removeAll c b.
Proof. apply filter_app. Qed.

(** A tone label is one digit from 1 to 5. *)
Lemma reTone_spec (tone : jsstring) :
  test reTone tone = true ->
  exists d, tone = [d] /\ (49 <= d <= 53)%N.
Proof.
  unfold reTone. rewrite test_anchored. unfold Range.
  inversion 1 as [|q d Hd| | | | |]; subst.
  exists d. split; [reflexivity|].
  apply andb_true_iff in Hd as [H1 H2].
  apply N.leb_le in H1, H2. vm_compute unitOf in H1, H2. lia.
Qed.

(** No whitelisted syllable ends in a tone digit. *)
Lemma whitelist_no_tone (x : jsstring) (d : N) :
  (49 <= d <= 53)%N -> ~ In (x ++ [d]) pouringRainSyllables.
Proof.
  intros Hd Hin.
  assert (Hlast : forall w, In w pouringRainSyllables -> (last w 0 >= 101)%N).
  { intros w Hw. vm_compute in Hw.
    repeat (destruct Hw as [<- | Hw]; [vm_compute; discriminate|]).
    destruct Hw. }
  apply Hlast in Hin. rewrite last_last in Hin. lia.
Qed.

(** ** Running rules *)




Lemma endsTrue_bind {A} (m : Eff A) (k : A -> Eff bool) :
  (forall a, endsTrue (k a)) -> endsTrue (bind m k).
Proof.
  unfold endsTrue. intros Hk. destruct m as [out [a|e]]; cbn [bind snd].
  - specialize (Hk a). destruct (k a) as [out' r]. exact Hk.
  - discriminate.
Qed.

(** ** The audit of one entry and of a document *)

Section AuditFacts.

Variable toLowerCase : jsstring -> jsstring.

(** [auditHanziElement] is its parsing half followed by the content
    rules, run in the order of [contentRules] up to the first failure. *)
Lemma auditHanziElement_split (path : jsstring) (hanziElement : Element) :
  auditHanziElement toLowerCase path hanziElement
  = andThen (parsedStory path hanziElement)
            (firstFailure (contentRules toLowerCase) path).
Proof.
  unfold auditHanziElement, parsedStory. cbv zeta.
  repeat first
    [ rewrite andThen_check; apply (f_equal (orReturn _))
    | rewrite andThen_bind; refine (bind_ext _ _ _ _); intros ? ].
  match goal with
  | parsed : (bool * Story)%type |- _ => destruct parsed as [[|] story]
  end; cbn [fst snd].
  - unfold orReturn at 1, andThen. rewrite !bind_ret_l. reflexivity.
  - unfold orReturn at 1, andThen. rewrite !bind_ret_l. reflexivity.
Qed.

(** Every rule but [pinyinAndTonesValid] passes silently, fails with
    one line, or throws. *)
Ltac rule_shape :=
  intros; unfold ruleShape;
  repeat (cbn [bind ret defined throw consoleError app];
          match goal with
          | |- context [if ?c then _ else _] => destruct c
          end);
  cbn [bind ret defined throw consoleError app]; eauto.

Lemma validateHeaderFormat_shape p s : ruleShape (validateHeaderFormat p s).
Proof. unfold validateHeaderFormat; rule_shape. Qed.
Lemma hanziIsSingleCharacter_shape p s : ruleShape (hanziIsSingleCharacter p s).
Proof. unfold hanziIsSingleCharacter; rule_shape. Qed.
Lemma pinyinCountMatchesTranslationCount_shape p s :
  ruleShape (pinyinCountMatchesTranslationCount p s).
Proof. unfold pinyinCountMatchesTranslationCount; rule_shape. Qed.
Lemma matchingPinyinSyllable_shape p s : ruleShape (matchingPinyinSyllable p s).
Proof. unfold matchingPinyinSyllable; rule_shape. Qed.
Lemma multiplePinyinSyllablesWithMovieSetTag_shape p s :
  ruleShape (multiplePinyinSyllablesWithMovieSetTag p s).
Proof. unfold multiplePinyinSyllablesWithMovieSetTag; rule_shape. Qed.
Lemma wheelStoryValid_shape p s : ruleShape (wheelStoryValid p s).
Proof. unfold wheelStoryValid; rule_shape. Qed.
Lemma hanziBreakdownValid_shape p s : ruleShape (hanziBreakdownValid p s).
Proof. unfold hanziBreakdownValid; rule_shape. Qed.
Lemma storyTypeValid_shape p s : ruleShape (storyTypeValid p s).
Proof. unfold storyTypeValid; cbv zeta; rule_shape. Qed.
Lemma atLeastOneStoryLine_shape p s : ruleShape (atLeastOneStoryLine p s).
Proof. unfold atLeastOneStoryLine; rule_shape. Qed.
Lemma wheelStoryMentionsWheel_shape p s :
  ruleShape (wheelStoryMentionsWheel toLowerCase p s).
Proof.
  unfold wheelStoryMentionsWheel.
  destruct (nth_error (storyLines s) 0); rule_shape.
Qed.
Lemma movieSetStoryHasAtLeastFourStoryLines_shape p s :
  ruleShape (movieSetStoryHasAtLeastFourStoryLines p s).
Proof. unfold movieSetStoryHasAtLeastFourStoryLines; rule_shape. Qed.
Lemma oldWestStoryMustBeginWithCorrectPattern_shape p s :
  ruleShape (oldWestStoryMustBeginWithCorrectPattern p s).
Proof. unfold oldWestStoryMustBeginWithCorrectPattern; rule_shape. Qed.
Lemma sciFiStoryMustBeginWithCorrectPattern_shape p s :
  ruleShape (sciFiStoryMustBeginWithCorrectPattern p s).
Proof. unfold sciFiStoryMustBeginWithCorrectPattern; rule_shape. Qed.
Lemma policeDramaStoryMustBeginWithCorrectPattern_shape p s :
  ruleShape (policeDramaStoryMustBeginWithCorrectPattern p s).
Proof. unfold policeDramaStoryMustBeginWithCorrectPattern; rule_shape. Qed.
Lemma pouringRainStoryMustHaveEligibleSyllable_shape p s :
  ruleShape (pouringRainStoryMustHaveEligibleSyllable p s).
Proof. unfold pouringRainStoryMustHaveEligibleSyllable; rule_shape. Qed.
Lemma storyWithPouringRainSyllableMustBePouringRainStory_shape p s :
  ruleShape (storyWithPouringRainSyllableMustBePouringRainStory p s).
Proof. unfold storyWithPouringRainSyllableMustBePouringRainStory; rule_shape. Qed.
Lemma pouringRainStoryMustMentionPouringRainInStoryText_shape p s :
  ruleShape (pouringRainStoryMustMentionPouringRainInStoryText toLowerCase p s).
Proof. unfold pouringRainStoryMustMentionPouringRainInStoryText; rule_shape. Qed.

Lemma contentRules_shape p s :
  Forall (fun rule : Rule => ruleShape (rule p s)) (contentRules toLowerCase).
Proof.
  unfold contentRules.
  apply Forall_cons; [apply wheelStoryValid_shape|].
  apply Forall_cons; [apply hanziBreakdownValid_shape|].
  apply Forall_cons; [apply storyTypeValid_shape|].
  apply Forall_cons; [apply atLeastOneStoryLine_shape|].
  apply Forall_cons; [apply wheelStoryMentionsWheel_shape|].
  apply Forall_cons; [apply movieSetStoryHasAtLeastFourStoryLines_shape|].
  apply Forall_cons; [apply oldWestStoryMustBeginWithCorrectPattern_shape|].
  apply Forall_cons; [apply sciFiStoryMustBeginWithCorrectPattern_shape|].
  apply Forall_cons; [apply policeDramaStoryMustBeginWithCorrectPattern_shape|].
  apply Forall_cons; [apply pouringRainStoryMustHaveEligibleSyllable_shape|].
  apply Forall_cons;
    [apply storyWithPouringRainSyllableMustBePouringRainStory_shape|].
  apply Forall_cons;
    [apply pouringRainStoryMustMentionPouringRainInStoryText_shape|].
  apply Forall_nil.
Qed.

(** What a run of a list of well-shaped rules can end in. *)
Lemma firstFailure_outcome (rules : list Rule) p s :
  Forall (fun rule : Rule => ruleShape (rule p s)) rules ->
  match firstFailure rules p s with
  | (out, Value (Some s')) =>
    out = [] /\ s' = s /\ Forall (fun rule : Rule => rule p s = ([], Value true)) rules
  | (out, Value None) => length out = 1
  | (out, Throw _) => out = []
  end.
Proof.
  induction 1 as [|rule rules Hr _ IH]; cbn [firstFailure].
  - cbn. auto.
  - destruct Hr as [Hr | [[line Hr] | Hr]]; rewrite Hr; cbn [bind ret].
    + destruct (firstFailure rules p s) as [out [[s'|]|e]]; cbn [app]; auto.
      destruct IH as (-> & -> & IH). auto.
    + reflexivity.
    + reflexivity.
Qed.

(** Stepping through a chain of [check]s. *)
Lemma holds_check {A} (P : list jsstring -> result (option A) -> Prop)
  (m : Eff bool) (k : Eff (option A)) :
  ruleShape m ->
  (m = ([], Value true) -> holds P k) ->
  (forall line, P [line] (Value None)) ->
  P [] (Throw TypeError) ->
  holds P (check m ;; k).
Proof.
  intros [H | [[line H] | H]] Hk Hfail Hthrow; rewrite H; unfold orReturn, holds.
  - change ([], Value true) with (@ret bool true).
    rewrite bind_ret_l. apply Hk, H.
  - cbn. apply Hfail.
  - cbn. apply Hthrow.
Qed.

Lemma holds_defined {A B} (P : list jsstring -> result B -> Prop)
  (o : option A) (k : A -> Eff B) :
  (forall a, o = Some a -> holds P (k a)) ->
  P [] (Throw TypeError) ->
  holds P (x <- defined o ;; k x).
Proof.
  intros Hk Hthrow. destruct o as [a|]; unfold defined.
  - rewrite bind_ret_l. apply Hk. reflexivity.
  - apply Hthrow.
Qed.

(** [pinyinAndTonesValid] writes one line per malformed token and
    passes when there is none. *)
Lemma pinyinAndTonesValid_spec p s :
  exists out,
    pinyinAndTonesValid p s
    = (out, Value (forallb (fun t => negb (malformedPinyinAndTone t))
                           (pinyinAndTones s)))
    /\ length out = length (filter malformedPinyinAndTone (pinyinAndTones s)).
Proof.
  unfold pinyinAndTonesValid. cbv zeta.
  match goal with |- context [fold_left ?f _ _] => set (F := f) end.
  assert (HF : forall out0 b t, exists line,
    F (out0, Value b) t
    = (out0 ++ (if malformedPinyinAndTone t then [line] else []),
       Value (b && negb (malformedPinyinAndTone t)))).
  { intros out0 b t. unfold F. eexists.
    destruct (malformedPinyinAndTone t); cbn.
    - rewrite andb_false_r. reflexivity.
    - rewrite andb_true_r. reflexivity. }
  assert (Hgen : forall tokens out0 b, exists out,
    fold_left F tokens (out0, Value b)
    = (out0 ++ out,
       Value (b && forallb (fun t => negb (malformedPinyinAndTone t)) tokens))
    /\ length out = length (filter malformedPinyinAndTone tokens)).
  { induction tokens as [|t tokens IH]; intros out0 b; cbn [fold_left filter forallb].
    - exists []. rewrite app_nil_r, andb_true_r. auto.
    - destruct (HF out0 b t) as (line & ->).
      destruct (IH (out0 ++ (if malformedPinyinAndTone t then [line] else []))
                   (b && negb (malformedPinyinAndTone t))) as (out & -> & Hl).
      exists ((if malformedPinyinAndTone t then [line] else []) ++ out).
      rewrite <- app_assoc, andb_assoc. split; [reflexivity|].
      destruct (malformedPinyinAndTone t); cbn [app length]; congruence. }
  destruct (Hgen (pinyinAndTones s) [] true) as (out & Ho & Hl).
  exists out. split; [exact Ho | exact Hl].
Qed.

Lemma forallb_filter_nil {A} (f : A -> bool) (l : list A) :
  forallb (fun x => negb (f x)) l = true <-> filter f l = [].
Proof.
  induction l as [|x l IH]; cbn; [tauto|].
  destruct (f x); cbn; [split; discriminate | exact IH].
Qed.

Lemma holds_check_pinyin {A} (P : list jsstring -> result (option A) -> Prop)
  p s (k : Eff (option A)) :
  (filter malformedPinyinAndTone (pinyinAndTones s) = [] -> holds P k) ->
  (forall out,
      length out = length (filter malformedPinyinAndTone (pinyinAndTones s)) ->
      1 <= length out -> P out (Value None)) ->
  holds P (check pinyinAndTonesValid p s ;; k).
Proof.
  intros Hk Hfail. destruct (pinyinAndTonesValid_spec p s) as (out & Ho & Hl).
  rewrite Ho. unfold orReturn, holds.
  destruct (forallb _ _) eqn:Hall.
  - apply forallb_filter_nil in Hall. rewrite Hall in Hl.
    destruct out; [|discriminate].
    change ([], Value true) with (@ret bool true).
    rewrite bind_ret_l. apply Hk, Hall.
  - cbn. rewrite app_nil_r. apply Hfail; [exact Hl|].
    destruct (filter _ _) eqn:Hf.
    + apply forallb_filter_nil in Hf. congruence.
    + rewrite Hl. cbn. lia.
Qed.

Lemma sameHeader_refl s : sameHeader s s.
Proof. repeat split. Qed.

Lemma sameHeader_trans s1 s2 s3 :
  sameHeader s1 s2 -> sameHeader s2 s3 -> sameHeader s1 s3.
Proof.
  unfold sameHeader. intros H1 H2.
  repeat match goal with H : _ /\ _ |- _ => destruct H end.
  repeat split; congruence.
Qed.

Lemma sameHeader_setStoryLines v s : sameHeader s (setStoryLines v s).
Proof. destruct s; repeat split. Qed.
Lemma sameHeader_setNotes v s : sameHeader s (setNotes v s).
Proof. destruct s; repeat split. Qed.
Lemma sameHeader_setHanziBreakdown v s : sameHeader s (setHanziBreakdown v s).
Proof. destruct s; repeat split. Qed.

(** [parseChildren] writes at most one line, never throws, and leaves
    the header fields of the story alone. *)
Lemma parseChildrenFrom_shape p children : forall i enc s,
  exists s',
    sameHeader s s'
    /\ (parseChildrenFrom p i children enc s = ([], Value (true, s'))
        \/ exists line, parseChildrenFrom p i children enc s = ([line], Value (false, s'))).
Proof.
  induction children as [|child rest IH]; intros i enc s; cbn [parseChildrenFrom].
  - exists s. split; [apply sameHeader_refl | left; reflexivity].
  - destruct (hasChildNodes child).
    { exists s. split; [apply sameHeader_refl | right; eexists; reflexivity]. }
    cbv zeta. destruct (test reBreakdownMarker (elText child)).
    + destruct enc.
      { exists s. split; [apply sameHeader_refl | right; eexists; reflexivity]. }
      destruct (negb (i =? 0)).
      { exists s. split; [apply sameHeader_refl | right; eexists; reflexivity]. }
      destruct (IH (S i) true
                   (setHanziBreakdown (Some (trim (sliceFrom 2 (elText child)))) s))
        as (s' & Hs & Hrun).
      exists s'. split; [|exact Hrun].
      eapply sameHeader_trans; [apply sameHeader_setHanziBreakdown | exact Hs].
    + destruct (test reNoteMarker (elText child)).
      * destruct (IH (S i) enc
                     (setNotes (notes s ++ [trim (sliceFrom 2 (elText child))]) s))
          as (s' & Hs & Hrun).
        exists s'. split; [|exact Hrun].
        eapply sameHeader_trans; [apply sameHeader_setNotes | exact Hs].
      * destruct (IH (S i) enc (setStoryLines (storyLines s ++ [elText child]) s))
          as (s' & Hs & Hrun).
        exists s'. split; [|exact Hrun].
        eapply sameHeader_trans; [apply sameHeader_setStoryLines | exact Hs].
Qed.

Lemma parseChildren_shape p el s :
  exists s',
    sameHeader s s'
    /\ (parseChildren p el s = ([], Value (true, s'))
        \/ exists line, parseChildren p el s = ([line], Value (false, s'))).
Proof.
  unfold parseChildren. cbv zeta.
  destruct (noChildren (outline el) && negb (streq p noPronunciation)).
  { exists s. split; [apply sameHeader_refl | right; eexists; reflexivity]. }
  assert (H0 : sameHeader s (setNotes [] (setStoryLines [] s))).
  { eapply sameHeader_trans; [apply sameHeader_setStoryLines | apply sameHeader_setNotes]. }
  destruct (outline el) as [children|].
  - destruct (parseChildrenFrom_shape p children 0 false
                (setNotes [] (setStoryLines [] s))) as (s' & Hs & Hrun).
    exists s'. split; [eapply sameHeader_trans; eassumption | exact Hrun].
  - eexists. split; [exact H0 | left; reflexivity].
Qed.

(** What passing the movie-set rule means for a non-empty token list. *)
Lemma multiplePinyinSyllablesWithMovieSetTag_pass p s :
  multiplePinyinSyllablesWithMovieSetTag p s = ([], Value true) ->
  pinyinAndTones s <> [] ->
  (1 < length (pinyinAndTones s) <-> isMovieSetStory s = true).
Proof.
  unfold multiplePinyinSyllablesWithMovieSetTag. intros Hrun Hne.
  destruct (1 <? length (pinyinAndTones s)) eqn:Hlt;
    destruct (isMovieSetStory s) eqn:Hms; cbn in Hrun; try discriminate.
  - apply Nat.ltb_lt in Hlt. tauto.
  - destruct (length (pinyinAndTones s) =? 1) eqn:Hone; cbn in Hrun; [discriminate|].
    apply Nat.ltb_ge in Hlt. apply Nat.eqb_neq in Hone.
    destruct (pinyinAndTones s); [congruence|]. cbn in *. lia.
  - apply Nat.ltb_ge in Hlt. split; [lia | discriminate].
Qed.

Lemma map_trim_split_nonempty sep s : map trim (split sep s) <> [].
Proof.
  destruct (split sep s) eqn:H; [|discriminate].
  exfalso. exact (split_nonempty _ _ H).
Qed.

Ltac one_line := intros; cbn [parsedPost length]; auto.

Lemma parsedStory_outcome p el : holds (parsedPost (elText el)) (parsedStory p el).
Proof.
  unfold parsedStory. cbv zeta.
  apply holds_check;
    [apply validateHeaderFormat_shape | intros _ | one_line | reflexivity].
  apply holds_check;
    [apply hanziIsSingleCharacter_shape | intros _ | one_line | reflexivity].
  apply holds_defined; [intros rest Hrest | reflexivity].
  assert (Htokens :
    pinyinTokens (elText el)
    = map trim (split (unitOf ",") (hd [] (map trim (split (unitOf "|") rest))))).
  { unfold pinyinTokens. rewrite Hrest. reflexivity. }
  apply holds_check_pinyin; [intros _ |].
  2:{ intros out Hlen Hpos. cbn [parsedPost]. split; [exact Hpos|]. right.
      rewrite Hlen, Htokens. reflexivity. }
  apply holds_defined; [intros translationStr _ | reflexivity].
  apply holds_check;
    [apply pinyinCountMatchesTranslationCount_shape | intros _ | one_line
    | reflexivity].
  apply holds_check;
    [apply matchingPinyinSyllable_shape | intros _ | one_line | reflexivity].
  apply holds_check;
    [apply multiplePinyinSyllablesWithMovieSetTag_shape | intros Hmovie
    | one_line | reflexivity].
  apply multiplePinyinSyllablesWithMovieSetTag_pass in Hmovie;
    [|apply map_trim_split_nonempty].
  match goal with
  | |- holds _ (bind (parseChildren p el ?s0) _) =>
    destruct (parseChildren_shape p el s0) as (s' & Hs & [Hrun | [line Hrun]]);
      rewrite Hrun
  end.
  - unfold holds. cbn.
    destruct Hs as (_ & Hp & Ht & _ & Hm & Hw & _).
    rewrite Hp, Hm, Hw, Ht. split; [reflexivity|].
    split; [rewrite Htokens; reflexivity|].
    split; [reflexivity|]. split; [reflexivity | exact Hmovie].
  - unfold holds. cbn. auto.
Qed.

(** What [auditHanziElement] can end in: an accepted entry wrote nothing
    and passed every content rule on its final story; a rejected entry
    wrote one line, or one line per malformed pronunciation token; a
    thrown [TypeError] comes with no line. *)
Lemma auditHanziElement_outcome p el :
  match auditHanziElement toLowerCase p el with
  | (out, Value (Some s)) =>
    parsedPost (elText el) out (Value (Some s))
    /\ Forall (fun rule : Rule => rule p s = ([], Value true))
              (contentRules toLowerCase)
  | (out, r) => parsedPost (elText el) out r
  end.
Proof.
  rewrite auditHanziElement_split.
  pose proof (parsedStory_outcome p el) as Hparse. unfold holds in Hparse.
  destruct (parsedStory p el) as [out1 [[s1|]|e]]; cbn [fst snd] in Hparse;
    unfold andThen; cbn [bind].
  - pose proof (firstFailure_outcome (contentRules_shape p s1)) as Hrules.
    destruct (firstFailure (contentRules toLowerCase) p s1) as [out2 [[s2|]|e]].
    + destruct Hrules as (-> & -> & Hall).
      destruct Hparse as (-> & Hparse). cbn [app parsedPost]. auto.
    + destruct Hparse as (-> & _). cbn [app parsedPost]. rewrite Hrules. auto.
    + destruct Hparse as (-> & _). cbn [app parsedPost]. exact Hrules.
  - cbn [ret app]. rewrite app_nil_r. exact Hparse.
  - exact Hparse.
Qed.

(** Truthiness of [story.hanziBreakdown], spelled out. *)
Lemma truthy_false (v : option jsstring) :
  truthy v = false <-> v = None \/ v = Some [].
Proof.
  destruct v as [[|c b]|]; cbn; split; auto; try discriminate.
  - intros [H|H]; discriminate.
Qed.

Lemma truthy_true (v : option jsstring) :
  truthy v = true <-> exists b, v = Some b /\ b <> [].
Proof.
  destruct v as [[|c b]|]; cbn; split; try discriminate.
  - intros (b & H & Hb). injection H as <-. congruence.
  - intros _. exists (c :: b). split; [reflexivity | discriminate].
  - reflexivity.
  - intros (b & H & _). discriminate.
Qed.

Lemma wheelStoryValid_pass p s :
  wheelStoryValid p s = ([], Value true) ->
  isWheelStory s = true -> truthy (hanziBreakdown s) = false.
Proof.
  unfold wheelStoryValid. intros Hrun Hwheel. rewrite Hwheel in Hrun.
  destruct (truthy (hanziBreakdown s)); [discriminate | reflexivity].
Qed.

Lemma hanziBreakdownValid_pass p s :
  hanziBreakdownValid p s = ([], Value true) ->
  isWheelStory s = false -> streq p noPronunciation = false ->
  truthy (hanziBreakdown s) = true.
Proof.
  unfold hanziBreakdownValid. intros Hrun Hwheel Hpath.
  rewrite Hwheel, Hpath in Hrun.
  destruct (truthy (hanziBreakdown s)); [reflexivity | discriminate].
Qed.

(** C7. For an entry that passes every rule, the pronunciation tokens of
    its label number more than one exactly when the entry carries the
    movie-set tag. *)
Theorem movie_set_cardinality (path : jsstring) (hanziElement : Element)
  (out : list jsstring) (story : Story) :
  auditHanziElement toLowerCase path hanziElement = (out, Value (Some story)) ->
  pinyinAndTones story = pinyinTokens (elText hanziElement)
  /\ isMovieSetStory story = tagged (tags story) (utf16 "#🎬")
  /\ (1 < length (pinyinAndTones story) <-> isMovieSetStory story = true).
Proof.
  intros Hrun. pose proof (auditHanziElement_outcome path hanziElement) as H.
  rewrite Hrun in H. destruct H as ((_ & Htok & Hms & _ & Hiff) & _). auto.
Qed.

(** C8. For an entry that passes every rule: if it is tagged wheel, it has
    no breakdown ([story.hanziBreakdown] is [undefined] or empty); if it
    is not tagged wheel and its path is not "(no pronunciation)", it has
    a non-empty breakdown. *)
Theorem wheel_exclusivity (path : jsstring) (hanziElement : Element)
  (out : list jsstring) (story : Story) :
  auditHanziElement toLowerCase path hanziElement = (out, Value (Some story)) ->
  isWheelStory story = tagged (tags story) (utf16 "#🎡")
  /\ (isWheelStory story = true ->
      hanziBreakdown story = None \/ hanziBreakdown story = Some [])
  /\ (isWheelStory story = false -> path <> noPronunciation ->
      exists breakdown, hanziBreakdown story = Some breakdown /\ breakdown <> []).
Proof.
  intros Hrun. pose proof (auditHanziElement_outcome path hanziElement) as H.
  rewrite Hrun in H. destruct H as ((_ & _ & _ & Htag & _) & Hrules).
  unfold contentRules in Hrules.
  inversion Hrules as [|r1 l1 Hwheel Hrules1]; subst.
  inversion Hrules1 as [|r2 l2 Hbreak _]; subst.
  split; [exact Htag|]. split.
  - intros Hw. apply truthy_false. eapply wheelStoryValid_pass; eassumption.
  - intros Hw Hp. apply truthy_true. eapply hanziBreakdownValid_pass; try eassumption.
    destruct (streq path noPronunciation) eqn:E; [|reflexivity].
    apply streq_eq in E. contradiction.
Qed.

(** [holds_check], keeping what a failed check says. *)
Lemma holds_check_cases {A} (P : list jsstring -> result (option A) -> Prop)
  (m : Eff bool) (k : Eff (option A)) :
  ruleShape m ->
  (m = ([], Value true) -> holds P k) ->
  (forall line, m = ([line], Value false) -> P [line] (Value None)) ->
  P [] (Throw TypeError) ->
  holds P (check m ;; k).
Proof.
  intros [H | [[line H] | H]] Hk Hfail Hthrow; rewrite H; unfold orReturn, holds.
  - change ([], Value true) with (@ret bool true).
    rewrite bind_ret_l. apply Hk, H.
  - cbn. apply Hfail. exact H.
  - cbn. apply Hthrow.
Qed.

(** The console of [pinyinAndTonesValid]: one line for each malformed
    token, in the order of the tokens. *)
Lemma pinyinAndTonesValid_lines p s :
  pinyinAndTonesValid p s
  = (map (patternLine p (hanzi s))
         (filter malformedPinyinAndTone (pinyinAndTones s)),
     Value (negb (existsb malformedPinyinAndTone (pinyinAndTones s)))).
Proof.
  unfold pinyinAndTonesValid. cbv zeta.
  assert (H : forall tokens out valid,
    fold_left
      (fun acc pinyinAndTone =>
         valid <- acc ;;
         (if malformedPinyinAndTone pinyinAndTone then
            consoleError (p ++ utf16 "/" ++ hanzi s
                            ++ utf16 ": Pinyin and tone " ++ dquote ++ pinyinAndTone
                            ++ dquote ++ utf16 " does not match expected pattern") ;;
            ret false
          else ret valid))
      tokens (out, Value valid)
    = (out ++ map (patternLine p (hanzi s)) (filter malformedPinyinAndTone tokens),
       Value (valid && negb (existsb malformedPinyinAndTone tokens)))).
  { induction tokens as [|t l IH]; intros out valid; cbn [fold_left filter existsb map].
    - rewrite app_nil_r, andb_true_r. reflexivity.
    - destruct (malformedPinyinAndTone t) eqn:E.
      + cbn [bind consoleError ret app orb negb map]. rewrite IH.
        rewrite andb_false_r, ?app_nil_r, <- app_assoc. reflexivity.
      + cbn [bind ret app orb]. rewrite ?app_nil_r, IH. reflexivity. }
  exact (H (pinyinAndTones s) [] true).
Qed.

(** What the parsing half leaves on the console when it rejects. *)
Lemma parsedStory_rejection p el :
  holds (rejectionPost p (elText el)) (parsedStory p el).
Proof.
  unfold parsedStory. cbv zeta.
  apply holds_check_cases;
    [apply validateHeaderFormat_shape | intros Hheader | intros line Hfail | exact I].
  2:{ cbn [rejectionPost]. unfold rejectedByPattern.
      unfold validateHeaderFormat in Hfail. cbn [headerText newStory] in Hfail.
      destruct (test reHeader (elText el)); [discriminate Hfail | reflexivity]. }
  assert (Hh : test reHeader (elText el) = true).
  { unfold validateHeaderFormat in Hheader. cbn [headerText newStory] in Hheader.
    destruct (test reHeader (elText el)); [reflexivity | discriminate Hheader]. }
  apply holds_check_cases;
    [apply hanziIsSingleCharacter_shape | intros Hsingle | intros line Hfail | exact I].
  2:{ cbn [rejectionPost]. unfold rejectedByPattern.
      unfold hanziIsSingleCharacter in Hfail. cbn [hanzi setHanzi newStory] in Hfail.
      destruct (length (hd [] (split (unitOf ":") (elText el))) =? 1);
        [discriminate Hfail | rewrite andb_false_r; reflexivity]. }
  assert (Hs : (length (hd [] (split (unitOf ":") (elText el))) =? 1) = true).
  { unfold hanziIsSingleCharacter in Hsingle. cbn [hanzi setHanzi newStory] in Hsingle.
    destruct (length (hd [] (split (unitOf ":") (elText el))) =? 1);
      [reflexivity | discriminate Hsingle]. }
  apply holds_defined; [intros rest Hrest | exact I].
  assert (Htokens :
    pinyinTokens (elText el)
    = map trim (split (unitOf ",") (hd [] (map trim (split (unitOf "|") rest))))).
  { unfold pinyinTokens. rewrite Hrest. reflexivity. }
  unfold orReturn at 1. rewrite pinyinAndTonesValid_lines.
  cbn [pinyinAndTones hanzi setTags setTranslationStr setPinyinAndTones setHanzi newStory].
  rewrite <- Htokens.
  destruct (existsb malformedPinyinAndTone (pinyinTokens (elText el))) eqn:Hbad.
  - unfold holds. cbn [negb bind ret fst snd app rejectionPost].
    unfold rejectedByPattern. rewrite Hh, Hs, Hbad, app_nil_r. reflexivity.
  - assert (Hnone : filter malformedPinyinAndTone (pinyinTokens (elText el)) = []).
    { apply forallb_filter_nil. rewrite forallb_forall. intros t Ht.
      destruct (malformedPinyinAndTone t) eqn:E; [|reflexivity].
      exfalso.
      assert (Hex : existsb malformedPinyinAndTone (pinyinTokens (elText el)) = true)
        by (apply existsb_exists; eauto).
      congruence. }
    rewrite Hnone. cbn [map negb].
    change (@nil jsstring, Value true) with (@ret bool true). rewrite bind_ret_l.
    assert (Hone : forall line, rejectionPost p (elText el) [line] (Value None)).
    { intros line. cbn [rejectionPost]. unfold rejectedByPattern.
      rewrite Hbad, andb_false_r. reflexivity. }
    apply holds_defined; [intros translationStr _ | exact I].
    apply holds_check;
      [apply pinyinCountMatchesTranslationCount_shape | intros _ | exact Hone | exact I].
    apply holds_check;
      [apply matchingPinyinSyllable_shape | intros _ | exact Hone | exact I].
    apply holds_check;
      [apply multiplePinyinSyllablesWithMovieSetTag_shape | intros _ | exact Hone
      | exact I].
    match goal with
    | |- holds _ (bind (parseChildren p el ?s0) _) =>
      destruct (parseChildren_shape p el s0) as (s' & _ & [Hrun | [line Hrun]]);
        rewrite Hrun
    end.
    + unfold holds. cbn [bind ret fst snd app rejectionPost].
      unfold rejectedByPattern. rewrite Hbad, andb_false_r. reflexivity.
    + unfold holds. cbn. apply Hone.
Qed.

(** What the whole audit of an entry leaves on the console when it
    rejects. *)
Lemma auditHanziElement_rejection p el :
  holds (rejectionPost p (elText el)) (auditHanziElement toLowerCase p el).
Proof.
  rewrite auditHanziElement_split.
  pose proof (parsedStory_rejection p el) as Hreject.
  pose proof (parsedStory_outcome p el) as Hparse. unfold holds in Hparse, Hreject.
  unfold holds.
  destruct (parsedStory p el) as [out1 [[s1|]|e]]; cbn [fst snd] in Hparse, Hreject;
    unfold andThen; cbn [bind].
  - pose proof (firstFailure_outcome (contentRules_shape p s1)) as Hrules.
    destruct (firstFailure (contentRules toLowerCase) p s1) as [out2 [[s2|]|e]];
      cbn [fst snd rejectionPost]; try exact I.
    + exact Hreject.
    + destruct Hparse as (-> & _). cbn [app]. rewrite Hreject. exact Hrules.
  - cbn [ret app fst snd]. rewrite app_nil_r. exact Hreject.
  - exact I.
Qed.

(** C3, as amended. An entry that a rule rejects gets at least one line
    on the console. When the rejecting rule is the pronunciation pattern
    (the header format and the single-character rule pass and some token
    is malformed) the console holds one line for each malformed token, in
    the order of the tokens; in every other case it holds exactly one
    line. *)
Theorem rejected_entry_lines (path : jsstring) (hanziElement : Element)
  (out : list jsstring) :
  auditHanziElement toLowerCase path hanziElement = (out, Value None) ->
  1 <= length out
  /\ (length out = 1
      \/ length out
         = length (filter malformedPinyinAndTone (pinyinTokens (elText hanziElement))))
  /\ (rejectedByPattern (elText hanziElement) = true ->
      out = map (patternLine path
                   (hd [] (split (unitOf ":") (elText hanziElement))))
                (filter malformedPinyinAndTone
                        (pinyinTokens (elText hanziElement))))
  /\ (rejectedByPattern (elText hanziElement) = false -> length out = 1).
Proof.
  intros Hrun. pose proof (auditHanziElement_outcome path hanziElement) as H.
  pose proof (auditHanziElement_rejection path hanziElement) as Hreject.
  unfold holds in Hreject. rewrite Hrun in H, Hreject.
  cbn [fst snd rejectionPost] in Hreject.
  destruct H as (H1 & H2). split; [exact H1|]. split; [exact H2|].
  destruct (rejectedByPattern (elText hanziElement)).
  - split; [intros _; exact Hreject | discriminate].
  - split; [discriminate | intros _; exact Hreject].
Qed.


(** C1, as amended. Under the path "(no pronunciation)" the entry
    "的: de | of" without children is rejected by the first-syllable
    rule, which has no root exemption: the first token must equal the
    path with its slashes removed, here "(no pronunciation)". Written
    "的: (no pronunciation) | of", the entry is accepted. The root
    exemption there is covers the other three checks: under that path an
    element without children passes [parseChildren], a story without
    breakdown passes [hanziBreakdownValid], and every story passes
    [atLeastOneStoryLine]. *)
Theorem no_pronunciation_entry :
  auditHanziElement toLowerCase noPronunciation (leaf "的: de | of")
  = ([utf16 "(no pronunciation)/的: First pinyin syllable does not match expected value"],
     Value None)
  /\ accepted (auditHanziElement toLowerCase noPronunciation
                 (leaf "的: (no pronunciation) | of"))
  /\ (forall label story,
         exists story',
           parseChildren noPronunciation (mkElement label None) story
           = ([], Value (true, story')))
  /\ (forall story,
         hanziBreakdown story = None ->
         hanziBreakdownValid noPronunciation story = ([], Value true))
  /\ (forall story,
         atLeastOneStoryLine noPronunciation story = ([], Value true)).
Proof.
  split; [vm_compute; reflexivity|].
  split; [eexists; vm_compute; reflexivity|].
  split; [intros label story; eexists; reflexivity|].
  split.
  - intros story H. unfold hanziBreakdownValid. rewrite H.
    replace (streq noPronunciation noPronunciation) with true by reflexivity.
    cbn [truthy negb andb]. rewrite andb_false_r. reflexivity.
  - intros story. unfold atLeastOneStoryLine.
    replace (streq noPronunciation noPronunciation) with true by reflexivity.
    cbn [negb]. rewrite andb_false_r. reflexivity.
Qed.

(** C1, counterexample: the entry of scenario B is rejected. *)
Lemma no_pronunciation_entry_rejected :
  auditHanziElement asciiLower noPronunciation (leaf "的: de | of")
  = ([utf16 "(no pronunciation)/的: First pinyin syllable does not match expected value"],
     Value None).
Proof. vm_compute. reflexivity. Qed.

(** C9, at the failing input: the label "的: de" passes the header rule and
    the pronunciation rule, and the audit then throws a [TypeError] on
    the missing translation segment, with nothing written. *)
Theorem missing_translation_throws (path : jsstring) :
  auditHanziElement toLowerCase path (leaf "的: de")
  = ([], Throw TypeError).
Proof. vm_compute. reflexivity. Qed.

(** C10, at the failing input: an entry under "(no pronunciation)" tagged
    wheel and without story line passes [atLeastOneStoryLine], and
    [wheelStoryMentionsWheel] then throws a [TypeError] on the first
    story line. *)
Theorem wheel_without_story_line_throws :
  auditHanziElement toLowerCase noPronunciation
    (leaf "的: (no pronunciation) | of | #🎡")
  = ([], Throw TypeError).
Proof. vm_compute. reflexivity. Qed.

(** C2, at the failing input: a pouring-rain entry under "ju/2" whose
    first token is "ju2" is rejected by the eligible-syllable rule, the
    whitelist being tested on the token with its tone digit. *)
Theorem pouring_rain_ju2_rejected :
  auditHanziElement toLowerCase (utf16 "ju/2")
    (node "句: ju2 | sentence | #🌧️"
          [leaf "🧩 mouth + wrap"; leaf "A sentence shouted in the pouring rain."])
  = ([utf16 "ju/2/句: Pouring Rain story must have an eligible pinyin syllable"],
     Value None).
Proof. vm_compute. reflexivity. Qed.

(** Under a tone-level path the first token must carry the tone digit,
    so the whitelist test, made on the whole token, rejects every entry
    tagged pouring-rain there. *)
Lemma pouring_rain_tag_never_passes (syllable tone : jsstring) (story : Story) :
  test reTone tone = true ->
  matchingPinyinSyllable (syllable ++ utf16 "/" ++ tone) story = ([], Value true) ->
  isPouringRainStory story = true ->
  exists line,
    pouringRainStoryMustHaveEligibleSyllable (syllable ++ utf16 "/" ++ tone) story
    = ([line], Value false).
Proof.
  intros Htone Hmatch Hrain.
  apply reTone_spec in Htone as (d & -> & Hd).
  unfold matchingPinyinSyllable in Hmatch. cbv zeta in Hmatch.
  unfold pouringRainStoryMustHaveEligibleSyllable. rewrite Hrain.
  unfold firstDiffers in Hmatch.
  destruct (nth_error (pinyinAndTones story) 0) as [t|]; [|discriminate].
  destruct (streq t _) eqn:Eq; [|discriminate].
  apply streq_eq in Eq. rewrite !removeAll_app in Eq.
  assert (Hd' : removeAll (unitOf "/") [d] = [d]).
  { unfold removeAll. cbn [filter].
    destruct (d =? unitOf "/")%N eqn:E; [|reflexivity].
    apply N.eqb_eq in E. vm_compute in E. lia. }
  rewrite Hd' in Eq. change (removeAll (unitOf "/") (utf16 "/")) with (@nil N) in Eq.
  cbn [app] in Eq. cbn [toStringArg].
  destruct (test pouringRainSyllable t) eqn:Hw.
  - apply pouringRainSyllable_spec in Hw. subst t.
    exfalso. exact (whitelist_no_tone _ Hd Hw).
  - cbn [negb andb]. eexists. reflexivity.
Qed.

(** A wheel story without a story line makes the rule throw. *)
Lemma wheelStoryMentionsWheel_throws (path : jsstring) (story : Story) :
  isWheelStory story = true -> storyLines story = [] ->
  wheelStoryMentionsWheel toLowerCase path story = ([], Throw TypeError).
Proof.
  intros Hw Hl. unfold wheelStoryMentionsWheel. rewrite Hw, Hl. reflexivity.
Qed.

(** C5, as amended. On a root that has a child at index 2, the audit
    takes the early return of the structural error exactly when the
    label of that child does not contain the text "(no pronunciation)";
    the console then holds that one line and nothing else, whatever the
    rest of the document is. The children at indices 0 and 1 have no part
    in the run. *)
Theorem document_abort (pronunciations : Element) (level1 : list Element)
  (firstPronunciation : Element) :
  outline pronunciations = Some level1 ->
  nth_error level1 2 = Some firstPronunciation ->
  (snd (auditHanziStories toLowerCase pronunciations) = Value false <->
   includes noPronunciation (elText firstPronunciation) = false)
  /\ (includes noPronunciation (elText firstPronunciation) = false ->
      auditHanziStories toLowerCase pronunciations
      = ([structuralError], Value false))
  /\ (forall label first second first' second' others,
         auditHanziStories toLowerCase
           (mkElement label (Some (first :: second :: others)))
         = auditHanziStories toLowerCase
             (mkElement label (Some (first' :: second' :: others)))).
Proof.
  intros Hroot Hfirst.
  assert (Hcases :
    includes noPronunciation (elText firstPronunciation) = false
    /\ auditHanziStories toLowerCase pronunciations = ([structuralError], Value false)
    \/ includes noPronunciation (elText firstPronunciation) = true
       /\ endsTrue (auditHanziStories toLowerCase pronunciations)).
  { unfold auditHanziStories. rewrite Hroot. cbn [defined].
    rewrite bind_ret_l, Hfirst. cbn [defined].
    rewrite bind_ret_l. unfold reNoPronunciation. rewrite test_search_Lit.
    destruct (includes noPronunciation (elText firstPronunciation)) eqn:Hinc;
      cbn [negb].
    - right. split; [reflexivity|].
      apply endsTrue_bind; intros hs. apply endsTrue_bind; intros _.
      apply endsTrue_bind; intros _. discriminate.
    - left. split; reflexivity. }
  split; [|split].
  - destruct Hcases as [(Hinc & Hrun) | (Hinc & Hend)].
    + rewrite Hrun. split; auto.
    + split; [intros H; contradiction | intros H; congruence].
  - destruct Hcases as [(Hinc & Hrun) | (Hinc & Hend)].
    + intros _. exact Hrun.
    + intros H; congruence.
  - intros. reflexivity.
Qed.

(** C5, counterexample: a third child labelled "0 (no pronunciation)" does
    not carry the label "(no pronunciation)", and the audit goes
    through. *)
Lemma document_abort_counterexample :
  streq (utf16 "0 (no pronunciation)") noPronunciation = false
  /\ auditHanziStories asciiLower
       (node "字 HANZI"
          [leaf "a"; leaf "b";
           node "0 (no pronunciation)" [leaf "的: (no pronunciation) | of"]])
     = ([], Value true).
Proof. split; vm_compute; reflexivity. Qed.

End AuditFacts.

(** ** The results at concrete entries *)

(** C3, counterexample: an entry with two malformed pronunciation tokens
    is rejected with two lines, not one. *)
Lemma two_malformed_tokens_two_lines :
  auditHanziElement asciiLower (utf16 "hao/3") garbledEntry
  = ([utf16 "hao/3/好: Pinyin and tone " ++ dquote ++ utf16 "h@o" ++ dquote
        ++ utf16 " does not match expected pattern";
      utf16 "hao/3/好: Pinyin and tone " ++ dquote ++ utf16 "H3" ++ dquote
        ++ utf16 " does not match expected pattern"],
     Value None).
Proof. vm_compute. reflexivity. Qed.

(** C3, witness: the garbled entry is rejected by the pattern rule, with
    the lines of its two malformed tokens. *)
Lemma rejected_entry_lines_witness :
  exists out,
    auditHanziElement asciiLower (utf16 "hao/3") garbledEntry = (out, Value None)
    /\ 1 <= length out
    /\ (length out = 1
        \/ length out
           = length (filter malformedPinyinAndTone
                            (pinyinTokens (elText garbledEntry))))
    /\ (rejectedByPattern (elText garbledEntry) = true ->
        out = map (patternLine (utf16 "hao/3")
                     (hd [] (split (unitOf ":") (elText garbledEntry))))
                  (filter malformedPinyinAndTone
                          (pinyinTokens (elText garbledEntry))))
    /\ (rejectedByPattern (elText garbledEntry) = false -> length out = 1).
Proof.
  eexists. split; [vm_compute; reflexivity|].
  apply (@rejected_entry_lines asciiLower (utf16 "hao/3") garbledEntry).
  vm_compute. reflexivity.
Defined.

(** The pattern rule is the one that rejects the garbled entry; the
    entry without a breakdown is rejected by a later rule, with one
    line. *)
Example rejectedByPattern_runs :
  rejectedByPattern (elText garbledEntry) = true
  /\ rejectedByPattern (utf16 "嘿: hei1 | hey") = false.
Proof. split; vm_compute; reflexivity. Qed.

(** C5, witness: a document whose third child is labelled "ma" is
    stopped with the structural error. *)
Lemma document_abort_witness :
  (outline unanchoredDocument
   = Some [leaf "help"; leaf "legend"; node "ma" [node "1" [motherEntry]]]
   /\ nth_error [leaf "help"; leaf "legend"; node "ma" [node "1" [motherEntry]]] 2
      = Some (node "ma" [node "1" [motherEntry]]))
  /\ (snd (auditHanziStories asciiLower unanchoredDocument) = Value false <->
      includes noPronunciation (elText (node "ma" [node "1" [motherEntry]])) = false)
  /\ (includes noPronunciation (elText (node "ma" [node "1" [motherEntry]])) = false ->
      auditHanziStories asciiLower unanchoredDocument
      = ([structuralError], Value false))
  /\ (forall label first second first' second' others,
         auditHanziStories asciiLower
           (mkElement label (Some (first :: second :: others)))
         = auditHanziStories asciiLower
             (mkElement label (Some (first' :: second' :: others)))).
Proof.
  split; [split; reflexivity|].
  exact (@document_abort asciiLower unanchoredDocument _ _ eq_refl eq_refl).
Defined.

(** C7, witness: a movie-set entry with two pronunciation tokens is
    accepted. *)
Lemma movie_set_cardinality_witness :
  exists story,
    auditHanziElement asciiLower (utf16 "zhong/4") heavyEntry
    = ([], Value (Some story))
    /\ pinyinAndTones story = pinyinTokens (elText heavyEntry)
    /\ isMovieSetStory story = tagged (tags story) (utf16 "#🎬")
    /\ (1 < length (pinyinAndTones story) <-> isMovieSetStory story = true).
Proof.
  eexists. split; [vm_compute; reflexivity|].
  apply (@movie_set_cardinality asciiLower (utf16 "zhong/4") heavyEntry []).
  vm_compute. reflexivity.
Defined.

(** C8, witness: a plain entry with a breakdown is accepted. *)
Lemma wheel_exclusivity_witness :
  exists story,
    auditHanziElement asciiLower (utf16 "ma/1") motherEntry
    = ([], Value (Some story))
    /\ isWheelStory story = tagged (tags story) (utf16 "#🎡")
    /\ (isWheelStory story = true ->
        hanziBreakdown story = None \/ hanziBreakdown story = Some [])
    /\ (isWheelStory story = false -> utf16 "ma/1" <> noPronunciation ->
        exists breakdown,
          hanziBreakdown story = Some breakdown /\ breakdown <> []).
Proof.
  eexists. split; [vm_compute; reflexivity|].
  apply (@wheel_exclusivity asciiLower (utf16 "ma/1") motherEntry []).
  vm_compute. reflexivity.
Defined.

(** ** The scenarios of the specification, run through the embedding *)

Example scenario_A :
  accepted (auditHanziElement asciiLower (utf16 "ma/1") motherEntry).
Proof. eexists. vm_compute. reflexivity. Qed.

Example scenario_C :
  auditHanziElement asciiLower (utf16 "hei/1")
    (node "嘿: hei1 | hey" [leaf "Hey, says the mouth."])
  = ([utf16 "hei/1/嘿: Non-wheel story must have hanzi breakdown"], Value None).
Proof. vm_compute. reflexivity. Qed.

Example scenario_D :
  auditHanziElement asciiLower (utf16 "zhong/4")
    (node "重: zhong4,chong2 | heavy,repeat" [leaf "🧩 thousand + village"])
  = ([utf16 "zhong/4/重: Multiple pinyin syllables require the #🎬 tag"],
     Value None).
Proof. vm_compute. reflexivity. Qed.

Example scenario_E :
  auditHanziElement asciiLower (utf16 "ma/1")
    (node "妈: ma1 | mother | #🌧️"
          [leaf "🧩 female + horse"; leaf "Mother in the pouring rain."])
  = ([utf16 "ma/1/妈: Pouring Rain story must have an eligible pinyin syllable"],
     Value None).
Proof. vm_compute. reflexivity. Qed.

Example scenario_F :
  accepted (auditHanziElement asciiLower (utf16 "lun/2")
              (node "轮: lun2 | wheel | #🎡" [leaf "Wheel party!"])).
Proof. eexists. vm_compute. reflexivity. Qed.

(** A whole document: the entry without a colon is reported, the others
    pass, and the walk runs to its end. *)
Example audit_small_document :
  auditHanziStories asciiLower smallDocument
  = ([utf16 "(no pronunciation): Hanzi element must begin with character, colon, single space: no co..."],
     Value true).
Proof. vm_compute. reflexivity. Qed.

(** Without the anchor at index 2 the audit reports once and stops. *)
Example audit_missing_anchor :
  auditHanziStories asciiLower
    (node "字 HANZI" [leaf "help"; leaf "legend"; node "ma" [node "1" [motherEntry]]])
  = ([structuralError], Value false).
Proof. vm_compute. reflexivity. Qed.

(** The flattening script compares tone-level labels with its own
    spelling of the marker, so a childless node labelled "👅" is not
    skipped there and its missing [outline] throws. *)
Example roster_small_document :
  Flashcards.loadAllHanziChars smallDocument = ([], Throw TypeError).
Proof. vm_compute. reflexivity. Qed.

(** ** The flattening traversal *)

Section Flattening.

Import Flashcards.

(** The first two parts of [label.split(':')]. *)
Lemma split_colon_hd (label : jsstring) :
  hd [] (split (unitOf ":") label) = beforeColon label.
Proof.
  induction label as [|c r IH]; cbn [split beforeColon hd]; [reflexivity|].
  destruct (c =? unitOf ":")%N; [reflexivity|].
  destruct (split (unitOf ":") r) as [|h t] eqn:E.
  - exfalso. exact (split_nonempty _ _ E).
  - cbn [hd] in *. congruence.
Qed.

Lemma split_colon_second (label : jsstring) :
  nth_error (split (unitOf ":") label) 1
  = option_map beforeColon (afterColon label).
Proof.
  induction label as [|c r IH]; cbn [split afterColon]; [reflexivity|].
  destruct (c =? unitOf ":")%N.
  - cbn [nth_error option_map]. rewrite <- split_colon_hd.
    destruct (split (unitOf ":") r) as [|h t] eqn:E; [|reflexivity].
    exfalso. exact (split_nonempty _ _ E).
  - destruct (split (unitOf ":") r) as [|h t] eqn:E.
    + exfalso. exact (split_nonempty _ _ E).
    + cbn [nth_error] in *. exact IH.
Qed.

(** One object per element, in order, for any labels. *)
Lemma loadChildHanziChars_spec (hanziElements : list Element) (p : jsstring) :
  loadChildHanziChars (Some hanziElements) p
  = ret (map (tupleOf p) hanziElements).
Proof.
  unfold loadChildHanziChars. cbn [defined]. rewrite bind_ret_l. f_equal.
  assert (H : forall acc,
    fold_left
      (fun hanziChars hanziElement =>
         hanziChars
         ++ [mkHanziChar (hd [] (split (unitOf ":") (elText hanziElement))) p
               (nth_error (split (unitOf ":") (elText hanziElement)) 1)])
      hanziElements acc
    = acc ++ map (tupleOf p) hanziElements).
  { induction hanziElements as [|e l IH]; intros acc; cbn [fold_left map].
    - rewrite app_nil_r. reflexivity.
    - rewrite IH, <- app_assoc. cbn [app]. unfold tupleOf at 2.
      rewrite split_colon_hd, split_colon_second. reflexivity. }
  apply (H []).
Qed.

Lemma loadToneLevel_spec syllable acc toneElements :
  Forall (fun toneElement =>
            streq (elText toneElement) tongueLiteral = false ->
            outline toneElement <> None) toneElements ->
  fold_left (loadToneLevel syllable) toneElements (ret acc)
  = ret (acc ++ map tupleOfEntry (flat_map (toneEntries syllable) toneElements)).
Proof.
  intros Hshape. revert acc.
  induction Hshape as [|tone l Htone _ IH]; intros acc; cbn [fold_left flat_map].
  - cbn [map]. rewrite app_nil_r. reflexivity.
  - assert (Hstep : loadToneLevel syllable (ret acc) tone
                    = ret (acc ++ map tupleOfEntry (toneEntries syllable tone))).
    { unfold loadToneLevel, toneEntries. rewrite bind_ret_l.
      destruct (streq (elText tone) tongueLiteral) eqn:E; cbn [negb].
      - cbn [map]. rewrite app_nil_r. reflexivity.
      - destruct (outline tone) as [hs|] eqn:Ho; [|exfalso; apply Htone; auto].
        rewrite loadChildHanziChars_spec, bind_ret_l, map_map. reflexivity. }
    rewrite Hstep, IH, map_app, app_assoc. reflexivity.
Qed.

Lemma loadPronunciation_spec acc pronunciationElements :
  Forall
    (fun pronunciation =>
       exists toneElements,
         outline pronunciation = Some toneElements
         /\ Forall
              (fun toneElement =>
                 streq (elText toneElement) tongueLiteral = false ->
                 outline toneElement <> None)
              toneElements)
    pronunciationElements ->
  fold_left loadPronunciation pronunciationElements (ret acc)
  = ret (acc
         ++ map tupleOfEntry
              (flat_map
                 (fun pronunciation =>
                    match outline pronunciation with
                    | Some toneElements =>
                      flat_map (toneEntries (elText pronunciation)) toneElements
                    | None => []
                    end)
                 pronunciationElements)).
Proof.
  intros Hshape. revert acc.
  induction Hshape as [|pr l (tones & Ho & Htones) _ IH]; intros acc;
    cbn [fold_left flat_map].
  - cbn [map]. rewrite app_nil_r. reflexivity.
  - assert (Hstep : loadPronunciation (ret acc) pr
                    = ret (acc ++ map tupleOfEntry
                                    (flat_map (toneEntries (elText pr)) tones))).
    { unfold loadPronunciation. rewrite bind_ret_l, Ho. cbn [defined].
      rewrite bind_ret_l. apply loadToneLevel_spec, Htones. }
    rewrite Hstep, IH, Ho, map_app, app_assoc. reflexivity.
Qed.


(** C4, counterexample: for the label "妈: ma1 | mother" the traversal
    keeps " ma1 | mother", pronunciation and separator included, where the
    translation segment is "mother". *)
Lemma flattening_counterexample :
  loadChildHanziChars (Some [leaf "妈: ma1 | mother"]) (utf16 "ma/1")
  = ([], Value [mkHanziChar (utf16 "妈") (utf16 "ma/1") (Some (utf16 " ma1 | mother"))])
  /\ specTranslation (utf16 "妈: ma1 | mother") = Some (utf16 "mother")
  /\ includes (utf16 "|") (utf16 " ma1 | mother") = true
  /\ streq (utf16 " ma1 | mother") (utf16 "mother") = false.
Proof. repeat split; vm_compute; reflexivity. Qed.

End Flattening.

(** ** The flattening traversal on the nodes of the parser *)

Lemma raw_entries_thrown (path : jsstring) (e : Exn) (hanziElements : list Raw.Outline) :
  fold_left
    (fun hanziChars hanziElement =>
       hanziChars <- hanziChars ;;
       label <- Raw.text hanziElement ;;
       label <- defined label ;;
       ret (hanziChars
            ++ [Flashcards.mkHanziChar (hd [] (split (unitOf ":") label)) path
                  (nth_error (split (unitOf ":") label) 1)]))
    hanziElements ([], Throw e)
  = ([], Throw e).
Proof. induction hanziElements as [|h l IH]; [reflexivity | exact IH]. Qed.

Lemma raw_entries_fold (path : jsstring) (hanziElements : list Raw.Outline)
  (acc : list Flashcards.HanziChar) :
  fold_left
    (fun hanziChars hanziElement =>
       hanziChars <- hanziChars ;;
       label <- Raw.text hanziElement ;;
       label <- defined label ;;
       ret (hanziChars
            ++ [Flashcards.mkHanziChar (hd [] (split (unitOf ":") label)) path
                  (nth_error (split (unitOf ":") label) 1)]))
    hanziElements ([], Value acc)
  = if forallb Raw.labelled hanziElements
    then ([], Value (acc ++ map (Raw.hanziCharOf path) hanziElements))
    else ([], Throw TypeError).
Proof.
  revert acc. induction hanziElements as [|h l IH]; intros acc;
    cbn [fold_left forallb map].
  - rewrite app_nil_r. reflexivity.
  - destruct h as [[[label|]|] children];
      cbn [Raw.labelled Raw.text Raw.dollar defined bind ret throw app andb].
    + rewrite IH. unfold Raw.hanziCharOf at 2. cbn [Raw.labelOf Raw.dollar].
      rewrite <- split_colon_hd, <- split_colon_second, <- app_assoc.
      reflexivity.
    + apply raw_entries_thrown.
    + apply raw_entries_thrown.
Qed.

Lemma raw_loadChildHanziChars_spec (hanziElements : option (list Raw.Outline))
  (path : jsstring) :
  Raw.loadChildHanziChars hanziElements path
  = if Raw.entriesPresent hanziElements
    then ([], Value (map (Raw.hanziCharOf path)
                         (match hanziElements with Some l => l | None => [] end)))
    else ([], Throw TypeError).
Proof.
  unfold Raw.loadChildHanziChars, Raw.entriesPresent.
  destruct hanziElements as [l|]; [|reflexivity].
  cbn [defined]. rewrite bind_ret_l. apply (raw_entries_fold path l []).
Qed.

Lemma raw_loadToneLevel_thrown syllable e toneElements :
  fold_left (Raw.loadToneLevel syllable) toneElements ([], Throw e) = ([], Throw e).
Proof. induction toneElements as [|t l IH]; [reflexivity | exact IH]. Qed.

Lemma raw_loadPronunciation_thrown e pronunciationElements :
  fold_left Raw.loadPronunciation pronunciationElements ([], Throw e)
  = ([], Throw e).
Proof. induction pronunciationElements as [|t l IH]; [reflexivity | exact IH]. Qed.

Lemma raw_loadToneLevel_step syllable acc toneElement :
  Raw.loadToneLevel syllable ([], Value acc) toneElement
  = if Raw.toneLevelShaped toneElement
    then ([], Value (acc ++ Raw.toneLevelRoster syllable toneElement))
    else ([], Throw TypeError).
Proof.
  unfold Raw.loadToneLevel, Raw.toneLevelShaped, Raw.toneLevelRoster, Raw.text.
  destruct (Raw.dollar toneElement) as [label|]; [|reflexivity].
  cbn [defined bind ret app].
  destruct (Raw.strictEq label Flashcards.tongueLiteral); cbn [negb].
  - rewrite app_nil_r. reflexivity.
  - rewrite raw_loadChildHanziChars_spec. unfold Raw.childrenOf.
    destruct (Raw.entriesPresent (Raw.outline toneElement)); reflexivity.
Qed.

Lemma raw_loadToneLevel_fold syllable toneElements acc :
  fold_left (Raw.loadToneLevel syllable) toneElements ([], Value acc)
  = if forallb Raw.toneLevelShaped toneElements
    then ([], Value (acc ++ flat_map (Raw.toneLevelRoster syllable) toneElements))
    else ([], Throw TypeError).
Proof.
  revert acc. induction toneElements as [|tone l IH]; intros acc;
    cbn [fold_left forallb flat_map].
  - rewrite app_nil_r. reflexivity.
  - rewrite raw_loadToneLevel_step.
    destruct (Raw.toneLevelShaped tone); cbn [andb].
    + rewrite IH, app_assoc. reflexivity.
    + apply raw_loadToneLevel_thrown.
Qed.

Lemma raw_loadPronunciation_step acc pronunciation :
  Raw.loadPronunciation ([], Value acc) pronunciation
  = if Raw.pronunciationShaped pronunciation
    then ([], Value (acc ++ Raw.pronunciationRoster pronunciation))
    else ([], Throw TypeError).
Proof.
  unfold Raw.loadPronunciation, Raw.pronunciationShaped, Raw.pronunciationRoster,
    Raw.text, Raw.childrenOf.
  destruct (Raw.dollar pronunciation) as [syllable|]; [|reflexivity].
  destruct (Raw.outline pronunciation) as [tones|]; [|reflexivity].
  cbn [defined bind ret app]. unfold ret.
  rewrite raw_loadToneLevel_fold.
  destruct (forallb Raw.toneLevelShaped tones); reflexivity.
Qed.

Lemma raw_loadPronunciation_fold pronunciationElements acc :
  fold_left Raw.loadPronunciation pronunciationElements ([], Value acc)
  = if forallb Raw.pronunciationShaped pronunciationElements
    then ([], Value (acc ++ flat_map Raw.pronunciationRoster pronunciationElements))
    else ([], Throw TypeError).
Proof.
  revert acc. induction pronunciationElements as [|pr l IH]; intros acc;
    cbn [fold_left forallb flat_map].
  - rewrite app_nil_r. reflexivity.
  - rewrite raw_loadPronunciation_step.
    destruct (Raw.pronunciationShaped pr); cbn [andb].
    + rewrite IH, app_assoc. reflexivity.
    + apply raw_loadPronunciation_thrown.
Qed.

(** The traversal returns the roster on a well-shaped tree, and throws
    on any other, without a line on the console. *)
Lemma raw_loadAllHanziChars_outcome (pronunciations : Raw.Outline) :
  Raw.loadAllHanziChars pronunciations
  = if Raw.wellShaped pronunciations
    then ([], Value (Raw.roster pronunciations))
    else ([], Throw TypeError).
Proof.
  unfold Raw.loadAllHanziChars, Raw.wellShaped, Raw.roster, Raw.childrenOf.
  destruct (Raw.outline pronunciations) as [level1|]; [|reflexivity].
  cbn [defined]. rewrite bind_ret_l.
  destruct (nth_error level1 2) as [first|]; [|reflexivity].
  cbn [defined]. rewrite bind_ret_l. cbv zeta.
  rewrite raw_loadChildHanziChars_spec.
  destruct (Raw.entriesPresent (Raw.outline first)); cbn [andb bind]; [|reflexivity].
  unfold ret. rewrite raw_loadPronunciation_fold.
  destruct (forallb Raw.pronunciationShaped (skipn 3 level1)); reflexivity.
Qed.

(** C4, as amended. On a tree the traversal gets through (the root has
    a child at index 2 whose entries are there, every later child of the
    root has attributes and children, each of these children has
    attributes and, unless its label is the script's own spelling of the
    marker, entries that are there, and every entry has a text) the
    traversal returns one object for every story entry, in document
    order, whatever the labels are: its [hanzi] is the label text before
    the first colon, its [definition] the text between the first and the
    second colon ([undefined] without a colon), with no split on [|]. *)
Theorem flattening_roster (pronunciations : Raw.Outline) :
  Raw.wellShaped pronunciations = true ->
  Raw.loadAllHanziChars pronunciations
  = ([], Value (Raw.roster pronunciations)).
Proof.
  intros Hshape. rewrite raw_loadAllHanziChars_outcome, Hshape. reflexivity.
Qed.

(** C4, witness: the roster document as the parser hands it over, with
    an empty element where the traversal does not look and an entry
    without a colon. *)
Lemma flattening_roster_witness :
  Raw.wellShaped rawRosterDocument = true
  /\ Raw.loadAllHanziChars rawRosterDocument
     = ([], Value (Raw.roster rawRosterDocument)).
Proof.
  split; [vm_compute; reflexivity|].
  apply (@flattening_roster rawRosterDocument). vm_compute. reflexivity.
Defined.

(** The roster of that document. *)
Example raw_roster_document :
  Raw.roster rawRosterDocument
  = [Flashcards.mkHanziChar (utf16 "的") noPronunciation
       (Some (utf16 " (no pronunciation) | of"));
     Flashcards.mkHanziChar (utf16 "no colon here") noPronunciation None;
     Flashcards.mkHanziChar (utf16 "妈") (utf16 "ma/1")
       (Some (utf16 " ma1 | mother"));
     Flashcards.mkHanziChar (utf16 "重") (utf16 "zhong/4")
       (Some (utf16 " zhong4, zhong1 | heavy, again | #🎬"))].
Proof. vm_compute. reflexivity. Qed.

(** An empty element among the entries stops the traversal. *)
Example raw_roster_hole :
  Raw.wellShaped rawHoleDocument = false
  /\ Raw.loadAllHanziChars rawHoleDocument = ([], Throw TypeError).
Proof. split; vm_compute; reflexivity. Qed.


(** * Further properties

    What acceptance by the audit means for an entry, the console and the
    exceptions of a whole document, and the roster that the flashcard
    script and the frequency check build from the same tree. *)

(** ** Rules that pass, and the loop of [parseChildren] *)

(** ** What passing a rule means *)

Ltac rule_pass H :=
  repeat match type of H with
         | context [if ?c then _ else _] =>
           let E := fresh "Hcond" in
           destruct c eqn:E; cbn [bind ret defined throw consoleError app] in H
         end;
  try discriminate H.

Lemma validateHeaderFormat_pass p s :
  validateHeaderFormat p s = ([], Value true) -> test reHeader (headerText s) = true.
Proof.
  unfold validateHeaderFormat. intros H. rule_pass H.
  apply negb_false_iff. assumption.
Qed.

Lemma hanziIsSingleCharacter_pass p s :
  hanziIsSingleCharacter p s = ([], Value true) -> length (hanzi s) = 1.
Proof.
  unfold hanziIsSingleCharacter. intros H. rule_pass H.
  apply negb_false_iff, Nat.eqb_eq in Hcond. exact Hcond.
Qed.

Lemma pinyinCountMatchesTranslationCount_pass p s :
  pinyinCountMatchesTranslationCount p s = ([], Value true) ->
  length (pinyinAndTones s) = length (translations s).
Proof.
  unfold pinyinCountMatchesTranslationCount. intros H. rule_pass H.
  apply negb_false_iff, Nat.eqb_eq in Hcond. exact Hcond.
Qed.

Lemma matchingPinyinSyllable_pass p s :
  matchingPinyinSyllable p s = ([], Value true) ->
  firstDiffers (pinyinAndTones s) (removeAll (unitOf "/") p) = false.
Proof.
  unfold matchingPinyinSyllable. cbv zeta. intros H. rule_pass H. reflexivity.
Qed.

(** The parsing half, read backwards from a returned story. *)
Lemma parsedStory_facts p el : holds (parsedFacts p el) (parsedStory p el).
Proof.
  unfold parsedStory. cbv zeta.
  apply holds_check;
    [apply validateHeaderFormat_shape | intros Hheader | exact (fun _ => I) | exact I].
  apply validateHeaderFormat_pass in Hheader. cbn [headerText newStory] in Hheader.
  apply holds_check;
    [apply hanziIsSingleCharacter_shape | intros Hsingle | exact (fun _ => I) | exact I].
  apply hanziIsSingleCharacter_pass in Hsingle.
  apply holds_defined; [intros rest Hrest | exact I].
  apply holds_check_pinyin; [intros Htokens | intros; exact I].
  apply holds_defined; [intros translationStr Htr | exact I].
  rewrite Htr.
  apply holds_check;
    [apply pinyinCountMatchesTranslationCount_shape | intros Hcount
    | exact (fun _ => I) | exact I].
  apply pinyinCountMatchesTranslationCount_pass in Hcount.
  apply holds_check;
    [apply matchingPinyinSyllable_shape | intros Hmatch | exact (fun _ => I) | exact I].
  apply matchingPinyinSyllable_pass in Hmatch.
  apply holds_check;
    [apply multiplePinyinSyllablesWithMovieSetTag_shape | intros _
    | exact (fun _ => I) | exact I].
  match goal with
  | |- holds _ (bind (parseChildren p el ?s0) _) =>
    change s0 with (headerStory (elText el) rest translationStr);
    destruct (parseChildren_shape p el (headerStory (elText el) rest translationStr))
      as (s' & _ & [Hrun | [line Hrun]]);
    rewrite Hrun
  end.
  - unfold holds. cbn [fst snd bind ret app parsedFacts]. exists rest, translationStr.
    split; [exact Hrest|]. split; [exact Htr|]. split; [exact Hheader|].
    split; [exact Hsingle|]. split; [exact Htokens|]. split; [exact Hcount|].
    split; [exact Hmatch | exact Hrun].
  - unfold holds. cbn. exact I.
Qed.

(** ** [parseChildren], verdict and story *)

Lemma childrenParsed_refl first s : childrenParsed [] first s s.
Proof.
  unfold childrenParsed. cbn. rewrite !app_nil_r.
  destruct first; repeat split.
Qed.

Lemma loopVerdict_grandchild (first : bool) (child : Element) rest :
  hasChildNodes child = true -> loopVerdict first (child :: rest) = false.
Proof. intros H. unfold loopVerdict. cbn [forallb]. rewrite H. reflexivity. Qed.

Lemma loopVerdict_late_breakdown child rest :
  isBreakdownChild child = true -> loopVerdict false (child :: rest) = false.
Proof.
  intros H. unfold loopVerdict. cbn [forallb]. rewrite H.
  cbn [negb andb]. apply andb_false_r.
Qed.

Lemma loopVerdict_first_breakdown child rest :
  hasChildNodes child = false ->
  loopVerdict true (child :: rest) = loopVerdict false rest.
Proof. intros H. unfold loopVerdict. cbn [forallb tl]. rewrite H. reflexivity. Qed.

Lemma loopVerdict_other first child rest :
  hasChildNodes child = false -> isBreakdownChild child = false ->
  loopVerdict first (child :: rest) = loopVerdict false rest.
Proof.
  intros H Hb. unfold loopVerdict. cbn [forallb tl]. rewrite H.
  destruct first; [reflexivity|]. cbn [forallb]. rewrite Hb. reflexivity.
Qed.

Lemma childrenParsed_step (child : Element) (rest : list Element) (first : bool)
  (s s1 s' : Story) :
  childrenParsed rest false s1 s' ->
  sameHeader s s1 -> headerText s1 = headerText s ->
  translationStr s1 = translationStr s ->
  storyLines s1
  = storyLines s ++ (if isStoryLineChild child then [elText child] else []) ->
  notes s1
  = notes s ++ (if isNoteChild child then [trim (sliceFrom 2 (elText child))] else []) ->
  hanziBreakdown s1
  = match (if first then breakdownOf [child] else None) with
    | Some b => Some b
    | None => hanziBreakdown s
    end ->
  childrenParsed (child :: rest) first s s'.
Proof.
  intros (Hh & Hht & Htr & Hl & Hn & Hb) Hh1 Hht1 Htr1 Hl1 Hn1 Hb1.
  unfold childrenParsed. cbn [filter breakdownOf] in *.
  split; [eapply sameHeader_trans; eassumption|].
  split; [congruence|]. split; [congruence|].
  split; [rewrite Hl, Hl1, <- app_assoc; destruct (isStoryLineChild child); reflexivity|].
  split; [rewrite Hn, Hn1, <- app_assoc; destruct (isNoteChild child); reflexivity|].
  rewrite Hb, Hb1. reflexivity.
Qed.

Lemma parseChildrenFrom_spec p children : forall i enc s,
  exists out s',
    parseChildrenFrom p i children enc s
    = (out, Value (loopVerdict ((i =? 0) && negb enc) children, s'))
    /\ (loopVerdict ((i =? 0) && negb enc) children = true ->
        out = [] /\ childrenParsed children ((i =? 0) && negb enc) s s')
    /\ (loopVerdict ((i =? 0) && negb enc) children = false -> length out = 1).
Proof.
  induction children as [|child rest IH]; intros i enc s.
  - exists [], s. cbn [parseChildrenFrom].
    assert (Hv : loopVerdict ((i =? 0) && negb enc) [] = true)
      by (unfold loopVerdict; destruct ((i =? 0) && negb enc); reflexivity).
    rewrite Hv. split; [reflexivity|]. split; [|discriminate].
    intros _. split; [reflexivity | apply childrenParsed_refl].
  - cbn [parseChildrenFrom].
    destruct (hasChildNodes child) eqn:Hgrand.
    { rewrite loopVerdict_grandchild by assumption.
      eexists _, s. split; [reflexivity|]. split; [discriminate | reflexivity]. }
    cbv zeta.
    destruct (test reBreakdownMarker (elText child)) eqn:Hbd.
    + destruct enc.
      { rewrite andb_false_r, loopVerdict_late_breakdown by assumption.
        eexists _, s. split; [reflexivity|]. split; [discriminate | reflexivity]. }
      destruct (i =? 0) eqn:Hi; cbn [negb andb].
      * rewrite loopVerdict_first_breakdown by assumption.
        destruct (IH (S i) true
                     (setHanziBreakdown (Some (trim (sliceFrom 2 (elText child)))) s))
          as (out & s' & Hrun & Hok & Hko).
        cbn [Nat.eqb andb negb] in Hrun, Hok, Hko.
        exists out, s'. split; [exact Hrun|]. split; [|exact Hko].
        intros Hall. destruct (Hok Hall) as (-> & Hs). split; [reflexivity|].
        eapply childrenParsed_step; [exact Hs | apply sameHeader_setHanziBreakdown | ..];
          unfold isStoryLineChild, isNoteChild, breakdownOf, isBreakdownChild;
          rewrite ?Hbd; cbn [negb andb]; destruct s; cbn; rewrite ?app_nil_r; reflexivity.
      * rewrite loopVerdict_late_breakdown by assumption.
        eexists _, s. split; [reflexivity|]. split; [discriminate | reflexivity].
    + rewrite loopVerdict_other by assumption.
      destruct (test reNoteMarker (elText child)) eqn:Hnote.
      * destruct (IH (S i) enc
                     (setNotes (notes s ++ [trim (sliceFrom 2 (elText child))]) s))
          as (out & s' & Hrun & Hok & Hko).
        cbn [Nat.eqb andb] in Hrun, Hok, Hko.
        exists out, s'. split; [exact Hrun|]. split; [|exact Hko].
        intros Hall. destruct (Hok Hall) as (-> & Hs). split; [reflexivity|].
        eapply childrenParsed_step; [exact Hs | apply sameHeader_setNotes | ..];
          unfold isStoryLineChild, isNoteChild, breakdownOf, isBreakdownChild;
          rewrite ?Hbd, ?Hnote; cbn [negb andb]; destruct s; cbn; rewrite ?app_nil_r;
          try reflexivity; destruct ((i =? 0) && negb enc); reflexivity.
      * destruct (IH (S i) enc (setStoryLines (storyLines s ++ [elText child]) s))
          as (out & s' & Hrun & Hok & Hko).
        cbn [Nat.eqb andb] in Hrun, Hok, Hko.
        exists out, s'. split; [exact Hrun|]. split; [|exact Hko].
        intros Hall. destruct (Hok Hall) as (-> & Hs). split; [reflexivity|].
        eapply childrenParsed_step; [exact Hs | apply sameHeader_setStoryLines | ..];
          unfold isStoryLineChild, isNoteChild, breakdownOf, isBreakdownChild;
          rewrite ?Hbd, ?Hnote; cbn [negb andb]; destruct s; cbn; rewrite ?app_nil_r;
          try reflexivity; destruct ((i =? 0) && negb enc); reflexivity.
Qed.

(** ** What the patterns accept *)

(** ** Reading the patterns of the audit *)

Lemma lang_Cat_inv (a b : regex) (s : jsstring) :
  lang (Cat a b) s <-> exists s1 s2, s = s1 ++ s2 /\ lang a s1 /\ lang b s2.
Proof.
  split.
  - inversion 1; subst. eauto.
  - intros (s1 & s2 & -> & H1 & H2). constructor; assumption.
Qed.

Lemma lang_Class_inv (p : N -> bool) (s : jsstring) :
  lang (Class p) s <-> exists c, s = [c] /\ p c = true.
Proof.
  split.
  - inversion 1; subst. eauto.
  - intros (c & -> & H). constructor; assumption.
Qed.

Lemma lang_Alt_inv (a b : regex) (s : jsstring) :
  lang (Alt a b) s <-> lang a s \/ lang b s.
Proof.
  split.
  - inversion 1; subst; auto.
  - intros [H|H]; [apply LangAltL | apply LangAltR]; assumption.
Qed.

Lemma lang_Eps_inv (s : jsstring) : lang Eps s <-> s = [].
Proof. split; [inversion 1; reflexivity | intros ->; constructor]. Qed.

(** The star of a pattern that matches single units. *)
Lemma lang_Star_units (r : regex) (p : N -> bool) :
  (forall s, lang r s <-> exists c, s = [c] /\ p c = true) ->
  forall s, lang (Star r) s <-> forallb p s = true.
Proof.
  intros Hr s. split.
  - intros H. remember (Star r) as q eqn:Eq. induction H; try discriminate.
    + reflexivity.
    + injection Eq as ->. apply Hr in H as (c & -> & Hc).
      cbn [app forallb]. rewrite Hc. apply IHlang2. reflexivity.
  - induction s as [|c s IH]; cbn [forallb]; intros H; [constructor|].
    apply andb_true_iff in H as [Hc Hs].
    change (c :: s) with ([c] ++ s). constructor; [|apply IH, Hs].
    apply Hr. eauto.
Qed.

(** [/^.: \S/]: a unit that ends no line, a colon, a space, and a unit
    that is no white space. *)
Lemma reHeader_spec (label : jsstring) :
  test reHeader label = true <->
  exists c d tail,
    label = c :: unitOf ":" :: unitOf " " :: d :: tail
    /\ isLineTerminator c = false /\ isWhiteSpace d = false.
Proof.
  unfold reHeader. rewrite test_prefix. split.
  - intros (mid & post & -> & H).
    apply lang_Cat_inv in H as (s1 & s2 & -> & H1 & H2).
    apply lang_Cat_inv in H2 as (s3 & s4 & -> & H3 & H4).
    apply lang_Class_inv in H1 as (c & -> & Hc).
    apply lang_Class_inv in H4 as (d & -> & Hd).
    apply lang_Lit in H3. subst s3.
    exists c, d, post. split; [reflexivity|].
    split; apply negb_true_iff; assumption.
  - intros (c & d & tail & -> & Hc & Hd).
    exists [c; unitOf ":"; unitOf " "; d], tail. split; [reflexivity|].
    change [c; unitOf ":"; unitOf " "; d]
      with ([c] ++ (utf16 ": " ++ [d])).
    constructor; [constructor; apply negb_true_iff; exact Hc|].
    constructor; [apply lang_Lit; reflexivity|].
    constructor. apply negb_true_iff. exact Hd.
Qed.

Lemma pinyinLetter_lang (s : jsstring) :
  lang (Alt (Lit (utf16 "ü")) (Range (unitOf "a") (unitOf "z"))) s <->
  exists c, s = [c] /\ isPinyinLetter c = true.
Proof.
  rewrite lang_Alt_inv, lang_Lit. unfold Range. rewrite lang_Class_inv.
  unfold isPinyinLetter. split.
  - intros [-> | (c & -> & Hc)].
    + exists 252%N. split; reflexivity.
    + exists c. split; [reflexivity|]. rewrite orb_true_iff. right. exact Hc.
  - intros (c & -> & Hc). apply orb_true_iff in Hc as [Hc | Hc].
    + left. apply N.eqb_eq in Hc. subst. reflexivity.
    + right. exists c. split; [reflexivity | exact Hc].
Qed.

(** [/^(ü|[a-z])+[1-5]?$/]: one or more letters, then at most one tone
    digit. *)
Lemma rePinyinAndTone_spec (token : jsstring) :
  test rePinyinAndTone token = true <->
  exists letters digit,
    token = letters ++ digit
    /\ letters <> [] /\ forallb isPinyinLetter letters = true
    /\ (digit = [] \/ exists d, digit = [d] /\ isToneDigit d = true).
Proof.
  unfold rePinyinAndTone. rewrite test_anchored. unfold Plus, Opt.
  rewrite lang_Cat_inv. split.
  - intros (s1 & s2 & -> & H1 & H2).
    apply lang_Cat_inv in H1 as (l1 & l2 & -> & Hl1 & Hl2).
    apply pinyinLetter_lang in Hl1 as (c & -> & Hc).
    apply (@lang_Star_units _ _ pinyinLetter_lang) in Hl2.
    exists ([c] ++ l2), s2. split; [reflexivity|].
    split; [discriminate|]. split; [cbn; rewrite Hc; exact Hl2|].
    apply lang_Alt_inv in H2 as [H2 | H2].
    + right. unfold Range in H2. apply lang_Class_inv in H2 as (d & -> & Hd).
      exists d. split; [reflexivity | exact Hd].
    + left. apply lang_Eps_inv. exact H2.
  - intros (letters & digit & -> & Hne & Hl & Hd).
    exists letters, digit. split; [reflexivity|]. split.
    + destruct letters as [|c l]; [congruence|].
      cbn [forallb] in Hl. apply andb_true_iff in Hl as [Hc Hl].
      change (c :: l) with ([c] ++ l). constructor.
      * apply pinyinLetter_lang. eauto.
      * apply (@lang_Star_units _ _ pinyinLetter_lang). exact Hl.
    + apply lang_Alt_inv. destruct Hd as [-> | (d & -> & Hd)].
      * right. constructor.
      * left. constructor. exact Hd.
Qed.

Lemma split_plusFree (w : jsstring) :
  plusFree w = true -> split (unitOf "+") w = [w].
Proof.
  induction w as [|c w IH]; cbn [plusFree forallb split]; [reflexivity|].
  intros H. apply andb_true_iff in H as [Hc Hw].
  apply negb_true_iff in Hc. rewrite Hc, (IH Hw). reflexivity.
Qed.

Lemma split_plusFree_app (w t : jsstring) :
  plusFree w = true ->
  split (unitOf "+") (w ++ unitOf "+" :: t) = w :: split (unitOf "+") t.
Proof.
  induction w as [|c w IH]; cbn [plusFree forallb split app].
  - intros _. rewrite N.eqb_refl. reflexivity.
  - intros H. apply andb_true_iff in H as [Hc Hw].
    apply negb_true_iff in Hc. rewrite Hc, (IH Hw). reflexivity.
Qed.

Lemma plusFree_lang (s : jsstring) :
  lang (Plus (NotChr (unitOf "+"))) s <-> s <> [] /\ plusFree s = true.
Proof.
  unfold Plus, NotChr. rewrite lang_Cat_inv. split.
  - intros (s1 & s2 & -> & H1 & H2).
    apply lang_Class_inv in H1 as (c & -> & Hc).
    apply (@lang_Star_units _ _ (lang_Class_inv _)) in H2.
    split; [discriminate|]. unfold plusFree. cbn [app forallb].
    cbv beta in Hc. rewrite Hc. exact H2.
  - intros (Hne & Hs). destruct s as [|c s]; [congruence|].
    unfold plusFree in Hs. cbn [forallb] in Hs.
    apply andb_true_iff in Hs as [Hc Hs].
    exists [c], s. split; [reflexivity|]. split; [constructor; exact Hc|].
    apply (@lang_Star_units _ _ (lang_Class_inv _)). exact Hs.
Qed.

(** One more element of a breakdown: [+] and a non-empty string without
    [+]. *)
Lemma breakdownElement_lang (s : jsstring) :
  lang (Cat (Chr (unitOf "+")) (Plus (NotChr (unitOf "+")))) s <->
  exists w, s = unitOf "+" :: w /\ w <> [] /\ plusFree w = true.
Proof.
  rewrite lang_Cat_inv. split.
  - intros (s1 & s2 & -> & H1 & H2). unfold Chr in H1.
    apply lang_Class_inv in H1 as (c & -> & Hc). apply N.eqb_eq in Hc. subst c.
    apply plusFree_lang in H2. exists s2. split; [reflexivity | exact H2].
  - intros (w & -> & Hw). exists [unitOf "+"], w. split; [reflexivity|].
    split; [constructor; apply N.eqb_refl | apply plusFree_lang; exact Hw].
Qed.

Lemma breakdownTail_parts (rest : jsstring) :
  lang (Star (Cat (Chr (unitOf "+")) (Plus (NotChr (unitOf "+"))))) rest ->
  forall w, w <> [] -> plusFree w = true ->
  Forall (fun part => part <> []) (split (unitOf "+") (w ++ rest))
  /\ (rest <> [] -> 2 <= length (split (unitOf "+") (w ++ rest))).
Proof.
  intros H.
  remember (Star (Cat (Chr (unitOf "+")) (Plus (NotChr (unitOf "+"))))) as q eqn:Eq.
  induction H; try discriminate; intros w Hne Hw.
  - rewrite app_nil_r, split_plusFree by exact Hw.
    split; [constructor; [exact Hne | constructor] | congruence].
  - injection Eq as ->. apply breakdownElement_lang in H as (w' & -> & Hne' & Hw').
    cbn [app]. rewrite split_plusFree_app by exact Hw.
    destruct (IHlang2 eq_refl w' Hne' Hw') as (Hall & _).
    split; [constructor; assumption|].
    intros _. cbn [length].
    destruct (split (unitOf "+") (w' ++ t)) eqn:E; [|cbn; lia].
    exfalso. exact (split_nonempty _ _ E).
Qed.

Lemma breakdown_parts_back (r : jsstring) :
  Forall (fun part => part <> []) (tl (split (unitOf "+") r)) ->
  exists w rest,
    r = w ++ rest /\ plusFree w = true
    /\ lang (Star (Cat (Chr (unitOf "+")) (Plus (NotChr (unitOf "+"))))) rest
    /\ hd [] (split (unitOf "+") r) = w
    /\ (rest = [] -> tl (split (unitOf "+") r) = []).
Proof.
  induction r as [|c r IH]; cbn [split].
  - intros _. exists [], []. repeat split. constructor.
  - destruct (c =? unitOf "+")%N eqn:Hc.
    + cbn [tl hd]. intros Hall. apply N.eqb_eq in Hc. subst c.
      destruct (split (unitOf "+") r) as [|h t] eqn:E;
        [exfalso; exact (split_nonempty _ _ E)|].
      inversion Hall as [|x l Hh Ht]; subst.
      destruct (IH Ht) as (w & rest & -> & Hw & Hrest & Hhd & _).
      cbn [hd] in Hhd. subst h.
      exists [], (unitOf "+" :: w ++ rest). split; [reflexivity|].
      split; [reflexivity|]. split; [|split; [reflexivity | discriminate]].
      change (unitOf "+" :: w ++ rest) with ((unitOf "+" :: w) ++ rest).
      constructor; [|exact Hrest]. apply breakdownElement_lang. eauto.
    + destruct (split (unitOf "+") r) as [|h t] eqn:E;
        [exfalso; exact (split_nonempty _ _ E)|].
      cbn [tl hd] in *. intros Hall.
      destruct (IH Hall) as (w & rest & -> & Hw & Hrest & Hhd & Htl).
      exists (c :: w), rest. split; [reflexivity|].
      split; [unfold plusFree; cbn [forallb]; rewrite Hc; exact Hw|].
      split; [exact Hrest|]. split; [congruence | exact Htl].
Qed.

(** [/^[^+]+(\+[^+]+)+$/]: split on [+], the string has at least two
    parts and no part is empty. *)
Lemma reBreakdown_spec (breakdown : jsstring) :
  test reBreakdown breakdown = true <->
  2 <= length (split (unitOf "+") breakdown)
  /\ Forall (fun part => part <> []) (split (unitOf "+") breakdown).
Proof.
  unfold reBreakdown. rewrite test_anchored, lang_Cat_inv. split.
  - intros (w & rest & -> & Hw & Hrest).
    apply plusFree_lang in Hw as (Hne & Hw).
    unfold Plus in Hrest at 1. apply lang_Cat_inv in Hrest as (s1 & s2 & -> & H1 & H2).
    assert (Hstar : lang (Star (Cat (Chr (unitOf "+")) (Plus (NotChr (unitOf "+")))))
                         (s1 ++ s2)) by (constructor; assumption).
    destruct (breakdownTail_parts Hstar Hne Hw) as (Hall & Hlen).
    split; [apply Hlen | exact Hall].
    apply breakdownElement_lang in H1 as (w' & -> & _). discriminate.
  - intros (Hlen & Hall).
    assert (Htl : Forall (fun part => part <> []) (tl (split (unitOf "+") breakdown))).
    { destruct (split (unitOf "+") breakdown); [constructor|].
      inversion Hall; assumption. }
    destruct (breakdown_parts_back _ Htl) as (w & rest & -> & Hw & Hrest & Hhd & Hnil).
    exists w, rest. split; [reflexivity|]. split.
    + apply plusFree_lang. split; [|exact Hw].
      destruct (split (unitOf "+") (w ++ rest)) as [|h t]; [cbn in Hlen; lia|].
      cbn [hd] in Hhd. subst h. inversion Hall; assumption.
    + destruct rest as [|c rest].
      * pose proof (Hnil eq_refl) as Ht.
        destruct (split (unitOf "+") (w ++ [])) as [|h t];
          cbn [tl length] in Ht, Hlen; [lia|].
        rewrite Ht in Hlen. cbn [length] in Hlen. lia.
      * apply lang_star_cons in Hrest as (s1 & s2 & -> & H1 & H2).
        unfold Plus at 1. change (c :: s1 ++ s2) with ((c :: s1) ++ s2).
        constructor; assumption.
Qed.

(** ** What an accepted entry has been through *)

Lemma parseChildren_spec p el s :
  exists out s',
    parseChildren p el s = (out, Value (childrenAccepted p el, s'))
    /\ (childrenAccepted p el = true ->
        out = []
        /\ childrenParsed (childrenOf el) true (setNotes [] (setStoryLines [] s)) s')
    /\ (childrenAccepted p el = false -> length out = 1).
Proof.
  unfold parseChildren, childrenAccepted, childrenOf. cbv zeta.
  destruct (noChildren (outline el) && negb (streq p noPronunciation)) eqn:Hnone;
    cbn [negb andb].
  { eexists _, s. split; [reflexivity|]. split; [discriminate | reflexivity]. }
  destruct (outline el) as [children|].
  - destruct (parseChildrenFrom_spec p children 0 false
                (setNotes [] (setStoryLines [] s))) as (out & s' & Hrun & Hok & Hko).
    cbn [Nat.eqb negb andb] in Hrun, Hok, Hko. unfold loopVerdict in Hrun, Hok, Hko.
    exists out, s'. split; [exact Hrun|]. split; assumption.
  - eexists [], _. cbn [forallb tl andb]. split; [reflexivity|].
    split; [|discriminate]. intros _. split; [reflexivity|].
    apply childrenParsed_refl.
Qed.

Section MoreAuditFacts.
Variable toLowerCase : jsstring -> jsstring.

(** An accepted entry wrote nothing, went through the parsing half, and
    passed every content rule on the story it returns. *)
Lemma accepted_inv p el out s :
  auditHanziElement toLowerCase p el = (out, Value (Some s)) ->
  out = []
  /\ parsedFacts p el [] (Value (Some s))
  /\ Forall (fun rule : Rule => rule p s = ([], Value true))
            (contentRules toLowerCase).
Proof.
  intros Hrun. pose proof (auditHanziElement_outcome toLowerCase p el) as Hout.
  rewrite Hrun in Hout. destruct Hout as ((-> & _) & Hrules).
  split; [reflexivity|]. split; [|exact Hrules].
  rewrite auditHanziElement_split in Hrun.
  pose proof (parsedStory_facts p el) as Hfacts.
  unfold holds in Hfacts.
  destruct (parsedStory p el) as [out1 [[s1|]|e]]; cbn [fst snd] in Hfacts;
    unfold andThen in Hrun; cbn [bind ret] in Hrun; try discriminate.
  pose proof (firstFailure_outcome (contentRules_shape toLowerCase p s1)) as Hff.
  destruct (firstFailure (contentRules toLowerCase) p s1) as [out2 [[s2|]|e]];
    try discriminate.
  destruct Hff as (_ & -> & _). injection Hrun as _ <-. exact Hfacts.
Qed.

(** The story an accepted entry returns, field by field: the header
    fields are those of [headerStory], the rest comes from the
    children. *)
Lemma accepted_story p el out s :
  auditHanziElement toLowerCase p el = (out, Value (Some s)) ->
  exists rest translationStr,
    nth_error (split (unitOf ":") (elText el)) 1 = Some rest
    /\ nth_error (map trim (split (unitOf "|") rest)) 1 = Some translationStr
    /\ test reHeader (elText el) = true
    /\ length (hd [] (split (unitOf ":") (elText el))) = 1
    /\ filter malformedPinyinAndTone (pinyinAndTones s) = []
    /\ length (pinyinAndTones s) = length (translations s)
    /\ firstDiffers (pinyinAndTones s) (removeAll (unitOf "/") p) = false
    /\ sameHeader (headerStory (elText el) rest translationStr) s
    /\ childrenAccepted p el = true
    /\ storyLines s = map elText (filter isStoryLineChild (childrenOf el))
    /\ notes s
       = map (fun child => trim (sliceFrom 2 (elText child)))
             (filter isNoteChild (childrenOf el))
    /\ hanziBreakdown s = breakdownOf (childrenOf el).
Proof.
  intros Hrun. apply accepted_inv in Hrun as (_ & Hfacts & _).
  cbn [parsedFacts] in Hfacts.
  destruct Hfacts as (rest & tr & Hrest & Htr & Hheader & Hsingle & Htok & Hcount
                      & Hmatch & Hchildren).
  exists rest, tr.
  destruct (parseChildren_spec p el (headerStory (elText el) rest tr))
    as (out' & s' & Hspec & Hok & _).
  rewrite Hchildren in Hspec. injection Hspec as Hout Hacc Hs'. subst s' out'.
  destruct (Hok (eq_sym Hacc)) as (_ & Hsame & _ & _ & Hl & Hn & Hb).
  assert (Hsame' : sameHeader (headerStory (elText el) rest tr) s).
  { eapply sameHeader_trans; [|exact Hsame].
    eapply sameHeader_trans; [apply sameHeader_setStoryLines | apply sameHeader_setNotes]. }
  destruct Hsame' as (Hhz & Hpt & Htg & Htl & Hflags).
  split; [exact Hrest|]. split; [exact Htr|]. split; [exact Hheader|].
  split; [exact Hsingle|]. split; [rewrite Hpt; exact Htok|].
  split; [rewrite Hpt, Htl; exact Hcount|]. split; [rewrite Hpt; exact Hmatch|].
  split; [repeat split; tauto|]. split; [symmetry; exact Hacc|].
  split; [exact Hl|]. split; [exact Hn|].
  rewrite Hb. destruct (breakdownOf (childrenOf el)); reflexivity.
Qed.

Lemma contentRules_pass p s :
  Forall (fun rule : Rule => rule p s = ([], Value true)) (contentRules toLowerCase) ->
  wheelStoryValid p s = ([], Value true)
  /\ hanziBreakdownValid p s = ([], Value true)
  /\ storyTypeValid p s = ([], Value true)
  /\ atLeastOneStoryLine p s = ([], Value true)
  /\ wheelStoryMentionsWheel toLowerCase p s = ([], Value true)
  /\ movieSetStoryHasAtLeastFourStoryLines p s = ([], Value true)
  /\ oldWestStoryMustBeginWithCorrectPattern p s = ([], Value true)
  /\ sciFiStoryMustBeginWithCorrectPattern p s = ([], Value true)
  /\ policeDramaStoryMustBeginWithCorrectPattern p s = ([], Value true)
  /\ pouringRainStoryMustHaveEligibleSyllable p s = ([], Value true)
  /\ storyWithPouringRainSyllableMustBePouringRainStory p s = ([], Value true)
  /\ pouringRainStoryMustMentionPouringRainInStoryText toLowerCase p s
     = ([], Value true).
Proof.
  unfold contentRules. intros H.
  repeat match goal with
         | H : Forall _ (_ :: _) |- _ =>
           let H1 := fresh "Hrule" in
           let H2 := fresh "Hrest" in
           inversion H as [|? ? H1 H2]; subst; clear H
         end.
  repeat split; assumption.
Qed.
End MoreAuditFacts.

(** ** Invariants of accepted entries *)

Lemma hd_split_header (c d : N) (tail : jsstring) :
  hd [] (split (unitOf ":") (c :: unitOf ":" :: unitOf " " :: d :: tail))
  = if (c =? unitOf ":")%N then [] else [c].
Proof.
  cbn [split]. destruct (c =? unitOf ":")%N; [reflexivity|].
  rewrite N.eqb_refl. reflexivity.
Qed.

Lemma filter_nil_Forall {A} (f : A -> bool) (l : list A) :
  filter f l = [] -> Forall (fun x => f x = false) l.
Proof.
  induction l as [|x l IH]; cbn [filter]; [constructor|].
  destruct (f x) eqn:E; [discriminate|]. intros H. constructor; auto.
Qed.

Lemma storyTypeValid_pass p s :
  storyTypeValid p s = ([], Value true) ->
  (if isMovieSetStory s then 1 else 0) + (if isOldWestStory s then 1 else 0)
  + (if isSciFiStory s then 1 else 0) + (if isPoliceDramaStory s then 1 else 0)
  <= 1.
Proof.
  unfold storyTypeValid. cbv zeta. cbn [fold_left].
  destruct (isMovieSetStory s), (isOldWestStory s), (isSciFiStory s),
    (isPoliceDramaStory s); cbn; intros H; try discriminate H; lia.
Qed.

Lemma atLeastOneStoryLine_pass p s :
  atLeastOneStoryLine p s = ([], Value true) ->
  p <> noPronunciation -> storyLines s <> [].
Proof.
  unfold atLeastOneStoryLine. intros H Hp Hl. rewrite Hl in H. cbn [length Nat.eqb andb] in H.
  destruct (streq p noPronunciation) eqn:E; [apply streq_eq in E; contradiction|].
  discriminate H.
Qed.

Lemma movieSetStoryHasAtLeastFourStoryLines_pass p s :
  movieSetStoryHasAtLeastFourStoryLines p s = ([], Value true) ->
  isMovieSetStory s = true -> 4 <= length (storyLines s).
Proof.
  unfold movieSetStoryHasAtLeastFourStoryLines. intros H Hm. rewrite Hm in H.
  cbn [andb] in H. destruct (length (storyLines s) <? 4) eqn:E; [discriminate H|].
  apply Nat.ltb_ge in E. exact E.
Qed.

Lemma wheelStoryMentionsWheel_pass (toLowerCase : jsstring -> jsstring) p s :
  wheelStoryMentionsWheel toLowerCase p s = ([], Value true) ->
  isWheelStory s = true ->
  exists line others,
    storyLines s = line :: others
    /\ includes (utf16 "wheel") (toLowerCase line) = true.
Proof.
  unfold wheelStoryMentionsWheel. intros H Hw. rewrite Hw in H.
  destruct (storyLines s) as [|line others]; cbn [nth_error defined] in H;
    [discriminate H|].
  rewrite bind_ret_l in H.
  destruct (includes (utf16 "wheel") (toLowerCase line)) eqn:E;
    [eauto | discriminate H].
Qed.

(** A rule that tests an opening of the first story line passes, for a
    story of that genre, only when there is a first line with that
    opening. *)
Lemma opening_pass (flag : bool) (opening : string) (lines : list jsstring)
  (line : jsstring) :
  startsWith (utf16 opening) (utf16 "undefined") = false ->
  (if flag && negb (test (mkRegExp true (Lit (utf16 opening)) false)
                         (toStringArg (nth_error lines 0)))
   then (consoleError line ;; ret false) else ret true)
  = ([], Value true) ->
  flag = true ->
  exists first others,
    lines = first :: others /\ startsWith (utf16 opening) first = true.
Proof.
  intros Hundef H ->. rewrite test_prefix_Lit in H. cbn [andb] in H.
  destruct lines as [|first others]; cbn [nth_error toStringArg] in H.
  - rewrite Hundef in H. discriminate H.
  - destruct (startsWith (utf16 opening) first) eqn:E; [eauto | discriminate H].
Qed.

Lemma pouringRainStoryMustHaveEligibleSyllable_pass p s :
  pouringRainStoryMustHaveEligibleSyllable p s = ([], Value true) ->
  isPouringRainStory s = true ->
  In (toStringArg (nth_error (pinyinAndTones s) 0)) pouringRainSyllables.
Proof.
  unfold pouringRainStoryMustHaveEligibleSyllable. intros H Hr. rewrite Hr in H.
  cbn [andb] in H.
  destruct (test pouringRainSyllable _) eqn:E; [|discriminate H].
  apply pouringRainSyllable_spec. exact E.
Qed.

Lemma pouringRainStoryMustMentionPouringRainInStoryText_pass
  (toLowerCase : jsstring -> jsstring) p s :
  pouringRainStoryMustMentionPouringRainInStoryText toLowerCase p s
  = ([], Value true) ->
  isPouringRainStory s = true ->
  exists line,
    In line (storyLines s)
    /\ includes (utf16 "pouring rain") (toLowerCase line) = true.
Proof.
  unfold pouringRainStoryMustMentionPouringRainInStoryText. intros H Hr.
  rewrite Hr in H. cbn [andb] in H.
  destruct (existsb _ _) eqn:E; [|discriminate H].
  apply existsb_exists in E. exact E.
Qed.

Section EntryInvariants.
Variable toLowerCase : jsstring -> jsstring.

(** X1. An entry the audit accepts has a label that starts with one code
    unit, a colon, a space and a character that is not white space; that
    first code unit, neither a colon nor a line terminator, is the
    story's [hanzi]. *)
Theorem accepted_entry_header (path : jsstring) (hanziElement : Element)
  (out : list jsstring) (story : Story) :
  auditHanziElement toLowerCase path hanziElement = (out, Value (Some story)) ->
  exists c d tail,
    elText hanziElement = c :: unitOf ":" :: unitOf " " :: d :: tail
    /\ hanzi story = [c]
    /\ c <> unitOf ":"
    /\ isLineTerminator c = false
    /\ isWhiteSpace d = false.
Proof.
  intros Hrun. apply accepted_story in Hrun
    as (rest & tr & _ & _ & Hheader & Hsingle & _ & _ & _ & (Hhanzi & _) & _).
  apply reHeader_spec in Hheader as (c & d & tail & Hlabel & Hc & Hd).
  exists c, d, tail. split; [exact Hlabel|].
  cbn [hanzi headerStory] in Hhanzi. rewrite Hlabel in Hsingle, Hhanzi.
  rewrite hd_split_header in Hsingle, Hhanzi.
  destruct (c =? unitOf ":")%N eqn:E; [cbn in Hsingle; discriminate|].
  apply N.eqb_neq in E. auto.
Qed.

(** X2. In an accepted entry the pronunciation tokens of the story are
    the label's; each is "(no pronunciation)" or one or more letters
    ([a] to [z], [ü]) followed by at most one tone digit [1] to [5]; and
    there are as many translations as tokens. *)
Theorem accepted_entry_tokens (path : jsstring) (hanziElement : Element)
  (out : list jsstring) (story : Story) :
  auditHanziElement toLowerCase path hanziElement = (out, Value (Some story)) ->
  pinyinAndTones story = pinyinTokens (elText hanziElement)
  /\ Forall
       (fun token =>
          token = noPronunciation
          \/ exists letters digit,
               token = letters ++ digit
               /\ letters <> [] /\ forallb isPinyinLetter letters = true
               /\ (digit = [] \/ exists d, digit = [d] /\ isToneDigit d = true))
       (pinyinAndTones story)
  /\ length (translations story) = length (pinyinAndTones story).
Proof.
  intros Hrun. apply accepted_story in Hrun
    as (rest & tr & Hrest & _ & _ & _ & Htok & Hcount & _ & (_ & Hpt & _) & _).
  split; [|split; [|symmetry; exact Hcount]].
  - rewrite Hpt. unfold pinyinTokens. rewrite Hrest. reflexivity.
  - apply filter_nil_Forall in Htok.
    eapply Forall_impl; [|exact Htok].
    intros token Hm. unfold malformedPinyinAndTone in Hm.
    apply andb_false_iff in Hm as [Hm | Hm]; apply negb_false_iff in Hm.
    + left. apply streq_eq. exact Hm.
    + right. apply rePinyinAndTone_spec. exact Hm.
Qed.

(** X3. In an accepted entry the first pronunciation token is the
    entry's path with its slashes removed. *)
Theorem accepted_entry_path (path : jsstring) (hanziElement : Element)
  (out : list jsstring) (story : Story) :
  auditHanziElement toLowerCase path hanziElement = (out, Value (Some story)) ->
  nth_error (pinyinAndTones story) 0 = Some (removeAll (unitOf "/") path).
Proof.
  intros Hrun. apply accepted_story in Hrun
    as (rest & tr & _ & _ & _ & _ & _ & _ & Hmatch & _).
  unfold firstDiffers in Hmatch.
  destruct (nth_error (pinyinAndTones story) 0) as [t|]; [|discriminate].
  apply negb_false_iff, streq_eq in Hmatch. congruence.
Qed.

(** X4. An accepted entry carries at most one of the four setting tags:
    movie set, Old West, sci-fi, police drama. *)
Theorem accepted_entry_setting (path : jsstring) (hanziElement : Element)
  (out : list jsstring) (story : Story) :
  auditHanziElement toLowerCase path hanziElement = (out, Value (Some story)) ->
  (if isMovieSetStory story then 1 else 0)
  + (if isOldWestStory story then 1 else 0)
  + (if isSciFiStory story then 1 else 0)
  + (if isPoliceDramaStory story then 1 else 0) <= 1.
Proof.
  intros Hrun. apply accepted_inv in Hrun as (_ & _ & Hrules).
  apply contentRules_pass in Hrules as (_ & _ & Htype & _).
  eapply storyTypeValid_pass. exact Htype.
Qed.

(** X5. The story lines of an accepted entry are the labels of its
    children that are neither breakdown nor note, in order, and its notes
    are the note children with the marker cut off and trimmed; outside
    the root group there is at least one story line, and a movie-set
    story has at least four. *)
Theorem accepted_entry_story_lines (path : jsstring) (hanziElement : Element)
  (out : list jsstring) (story : Story) :
  auditHanziElement toLowerCase path hanziElement = (out, Value (Some story)) ->
  storyLines story
  = map elText (filter isStoryLineChild (childrenOf hanziElement))
  /\ notes story
     = map (fun child => trim (sliceFrom 2 (elText child)))
           (filter isNoteChild (childrenOf hanziElement))
  /\ (path <> noPronunciation -> storyLines story <> [])
  /\ (isMovieSetStory story = true -> 4 <= length (storyLines story)).
Proof.
  intros Hrun. pose proof Hrun as Hrun'.
  apply accepted_story in Hrun
    as (rest & tr & _ & _ & _ & _ & _ & _ & _ & _ & _ & Hl & Hn & _).
  apply accepted_inv in Hrun' as (_ & _ & Hrules).
  apply contentRules_pass in Hrules as (_ & _ & _ & Hone & _ & Hfour & _).
  split; [exact Hl|]. split; [exact Hn|]. split.
  - eapply atLeastOneStoryLine_pass. exact Hone.
  - eapply movieSetStoryHasAtLeastFourStoryLines_pass. exact Hfour.
Qed.

(** X6. In an accepted entry a story tagged Old West, sci-fi or police
    drama opens its first line with "(Old West", "(Sci-fi" or
    "(Police drama"; a wheel story mentions "wheel" in its first line and
    a pouring-rain story "pouring rain" in some line, both after
    lower-casing. *)
Theorem accepted_entry_opening (path : jsstring) (hanziElement : Element)
  (out : list jsstring) (story : Story) :
  auditHanziElement toLowerCase path hanziElement = (out, Value (Some story)) ->
  (isOldWestStory story = true ->
   exists first others,
     storyLines story = first :: others
     /\ startsWith (utf16 "(Old West") first = true)
  /\ (isSciFiStory story = true ->
      exists first others,
        storyLines story = first :: others
        /\ startsWith (utf16 "(Sci-fi") first = true)
  /\ (isPoliceDramaStory story = true ->
      exists first others,
        storyLines story = first :: others
        /\ startsWith (utf16 "(Police drama") first = true)
  /\ (isWheelStory story = true ->
      exists first others,
        storyLines story = first :: others
        /\ includes (utf16 "wheel") (toLowerCase first) = true)
  /\ (isPouringRainStory story = true ->
      exists line,
        In line (storyLines story)
        /\ includes (utf16 "pouring rain") (toLowerCase line) = true).
Proof.
  intros Hrun. apply accepted_inv in Hrun as (_ & _ & Hrules).
  apply contentRules_pass in Hrules
    as (_ & _ & _ & _ & Hwheel & _ & Hwest & Hsci & Hpol & _ & _ & Hrain).
  split; [|split; [|split; [|split]]].
  - apply (@opening_pass _ "(Old West" _ _ eq_refl Hwest).
  - apply (@opening_pass _ "(Sci-fi" _ _ eq_refl Hsci).
  - apply (@opening_pass _ "(Police drama" _ _ eq_refl Hpol).
  - eapply wheelStoryMentionsWheel_pass. exact Hwheel.
  - eapply pouringRainStoryMustMentionPouringRainInStoryText_pass. exact Hrain.
Qed.

(** X7. The breakdown of an accepted entry is the text of its first
    child when that child carries the breakdown marker, and a breakdown
    that is not empty has at least two parts between [+] signs, none of
    them empty. *)
Theorem accepted_entry_breakdown (path : jsstring) (hanziElement : Element)
  (out : list jsstring) (story : Story) :
  auditHanziElement toLowerCase path hanziElement = (out, Value (Some story)) ->
  hanziBreakdown story = breakdownOf (childrenOf hanziElement)
  /\ (forall breakdown,
         hanziBreakdown story = Some breakdown -> breakdown <> [] ->
         2 <= length (split (unitOf "+") breakdown)
         /\ Forall (fun part => part <> []) (split (unitOf "+") breakdown)).
Proof.
  intros Hrun. pose proof Hrun as Hrun'.
  apply accepted_story in Hrun
    as (rest & tr & _ & _ & _ & _ & _ & _ & _ & _ & _ & _ & _ & Hb).
  apply accepted_inv in Hrun' as (_ & _ & Hrules).
  apply contentRules_pass in Hrules as (_ & Hvalid & _).
  split; [exact Hb|]. intros breakdown Hsome Hne.
  apply reBreakdown_spec.
  unfold hanziBreakdownValid in Hvalid. rewrite Hsome in Hvalid.
  destruct breakdown as [|c b]; [congruence|]. cbn [truthy negb andb toStringArg] in Hvalid.
  rewrite andb_false_r in Hvalid.
  destruct (test reBreakdown (c :: b)); [reflexivity | discriminate Hvalid].
Qed.
End EntryInvariants.


(** ** The pouring-rain rules under the paths of the walk *)

(** ** The pouring-rain rules on the paths of the audit *)

Lemma removeAll_noPronunciation :
  removeAll (unitOf "/") noPronunciation = noPronunciation.
Proof. reflexivity. Qed.

Lemma noPronunciation_not_whitelisted : ~ In noPronunciation pouringRainSyllables.
Proof.
  intros H. vm_compute in H.
  repeat (destruct H as [H | H]; [discriminate H|]). exact H.
Qed.

(** On a path of the audit, a first token that matches the path is not
    on the whitelist: it is the sentinel, or it ends in the tone digit. *)
Lemma auditPath_token_not_whitelisted (path : jsstring) (tokens : list jsstring) :
  auditPath path ->
  firstDiffers tokens (removeAll (unitOf "/") path) = false ->
  test pouringRainSyllable (toStringArg (nth_error tokens 0)) = false.
Proof.
  intros Hpath Hmatch. unfold firstDiffers in Hmatch.
  destruct (nth_error tokens 0) as [t|]; [|discriminate].
  apply negb_false_iff, streq_eq in Hmatch. subst t. cbn [toStringArg].
  destruct (test pouringRainSyllable _) eqn:E; [|reflexivity].
  apply pouringRainSyllable_spec in E. exfalso.
  destruct Hpath as [-> | (syllable & tone & -> & Htone)].
  - rewrite removeAll_noPronunciation in E.
    exact (noPronunciation_not_whitelisted E).
  - apply reTone_spec in Htone as (d & -> & Hd).
    rewrite !removeAll_app in E.
    assert (Hd' : removeAll (unitOf "/") [d] = [d]).
    { unfold removeAll. cbn [filter].
      destruct (d =? unitOf "/")%N eqn:E'; [|reflexivity].
      apply N.eqb_eq in E'. vm_compute in E'. lia. }
    rewrite Hd' in E.
    change (removeAll (unitOf "/") (utf16 "/")) with (@nil N) in E.
    cbn [app] in E. exact (whitelist_no_tone _ Hd E).
Qed.

Section PouringRain.
Variable toLowerCase : jsstring -> jsstring.

(** X9. Under every path the document walk uses, no accepted entry
    carries the pouring-rain tag. *)
Theorem pouring_rain_tag_never_accepted (path : jsstring)
  (hanziElement : Element) (out : list jsstring) (story : Story) :
  auditPath path ->
  auditHanziElement toLowerCase path hanziElement = (out, Value (Some story)) ->
  isPouringRainStory story = tagged (tags story) (utf16 "#🌧️")
  /\ isPouringRainStory story = false.
Proof.
  intros Hpath Hrun. pose proof Hrun as Hrun'.
  apply accepted_story in Hrun
    as (rest & tr & _ & _ & _ & _ & _ & _ & Hmatch & Hsame & _).
  apply accepted_inv in Hrun' as (_ & _ & Hrules).
  apply contentRules_pass in Hrules
    as (_ & _ & _ & _ & _ & _ & _ & _ & _ & Heligible & _).
  destruct Hsame as (_ & _ & Htags & _ & _ & _ & Hrain & _).
  split; [rewrite Hrain, Htags; reflexivity|].
  destruct (isPouringRainStory story) eqn:E; [|reflexivity].
  apply pouringRainStoryMustHaveEligibleSyllable_pass in Heligible; [|exact E].
  apply pouringRainSyllable_spec in Heligible.
  rewrite (@auditPath_token_not_whitelisted path _ Hpath Hmatch) in Heligible.
  discriminate.
Qed.

(** X10. Under every path the document walk uses, a first token that
    agrees with the path is never one of the pouring-rain syllables, so
    the rule that such a syllable needs the pouring-rain tag passes
    whatever the tags are. *)
Theorem pouring_rain_closure_never_fires (path : jsstring) (story : Story) :
  auditPath path ->
  matchingPinyinSyllable path story = ([], Value true) ->
  storyWithPouringRainSyllableMustBePouringRainStory path story
  = ([], Value true).
Proof.
  intros Hpath Hmatch. apply matchingPinyinSyllable_pass in Hmatch.
  unfold storyWithPouringRainSyllableMustBePouringRainStory.
  rewrite (@auditPath_token_not_whitelisted path _ Hpath Hmatch). reflexivity.
Qed.

(** X11. An entry is rejected exactly when its audit has written to the
    console: [auditHanziElement] returns [null] if and only if it printed
    at least one line. *)
Theorem console_line_means_rejected (path : jsstring) (hanziElement : Element) :
  snd (auditHanziElement toLowerCase path hanziElement) = Value None
  <-> fst (auditHanziElement toLowerCase path hanziElement) <> [].
Proof.
  pose proof (auditHanziElement_outcome toLowerCase path hanziElement) as H.
  destruct (auditHanziElement toLowerCase path hanziElement) as [out [[s|]|e]];
    cbn [fst snd parsedPost] in *.
  - destruct H as ((-> & _) & _). split; [discriminate | congruence].
  - destruct H as (Hpos & _). split; [|reflexivity].
    intros _ ->. cbn in Hpos. lia.
  - subst out. split; [discriminate | congruence].
Qed.
End PouringRain.

(** ** Rules that never throw *)

(** ** Where [auditHanziElement] can throw *)

Ltac never_throws :=
  intros; unfold neverThrows;
  repeat (cbn [bind ret defined throw consoleError app];
          match goal with
          | |- context [if ?c then _ else _] => destruct c
          end);
  cbn [bind ret defined throw consoleError app]; eauto.

Lemma validateHeaderFormat_quiet p s : neverThrows (validateHeaderFormat p s).
Proof. unfold validateHeaderFormat; never_throws. Qed.
Lemma hanziIsSingleCharacter_quiet p s : neverThrows (hanziIsSingleCharacter p s).
Proof. unfold hanziIsSingleCharacter; never_throws. Qed.
Lemma pinyinCountMatchesTranslationCount_quiet p s :
  neverThrows (pinyinCountMatchesTranslationCount p s).
Proof. unfold pinyinCountMatchesTranslationCount; never_throws. Qed.
Lemma matchingPinyinSyllable_quiet p s : neverThrows (matchingPinyinSyllable p s).
Proof. unfold matchingPinyinSyllable; never_throws. Qed.
Lemma multiplePinyinSyllablesWithMovieSetTag_quiet p s :
  neverThrows (multiplePinyinSyllablesWithMovieSetTag p s).
Proof. unfold multiplePinyinSyllablesWithMovieSetTag; never_throws. Qed.
Lemma wheelStoryValid_quiet p s : neverThrows (wheelStoryValid p s).
Proof. unfold wheelStoryValid; never_throws. Qed.
Lemma hanziBreakdownValid_quiet p s : neverThrows (hanziBreakdownValid p s).
Proof. unfold hanziBreakdownValid; never_throws. Qed.
Lemma storyTypeValid_quiet p s : neverThrows (storyTypeValid p s).
Proof. unfold storyTypeValid; cbv zeta; never_throws. Qed.
Lemma atLeastOneStoryLine_quiet p s : neverThrows (atLeastOneStoryLine p s).
Proof. unfold atLeastOneStoryLine; never_throws. Qed.
Lemma movieSetStoryHasAtLeastFourStoryLines_quiet p s :
  neverThrows (movieSetStoryHasAtLeastFourStoryLines p s).
Proof. unfold movieSetStoryHasAtLeastFourStoryLines; never_throws. Qed.
Lemma oldWestStoryMustBeginWithCorrectPattern_quiet p s :
  neverThrows (oldWestStoryMustBeginWithCorrectPattern p s).
Proof. unfold oldWestStoryMustBeginWithCorrectPattern; never_throws. Qed.
Lemma sciFiStoryMustBeginWithCorrectPattern_quiet p s :
  neverThrows (sciFiStoryMustBeginWithCorrectPattern p s).
Proof. unfold sciFiStoryMustBeginWithCorrectPattern; never_throws. Qed.
Lemma policeDramaStoryMustBeginWithCorrectPattern_quiet p s :
  neverThrows (policeDramaStoryMustBeginWithCorrectPattern p s).
Proof. unfold policeDramaStoryMustBeginWithCorrectPattern; never_throws. Qed.
Lemma pouringRainStoryMustHaveEligibleSyllable_quiet p s :
  neverThrows (pouringRainStoryMustHaveEligibleSyllable p s).
Proof. unfold pouringRainStoryMustHaveEligibleSyllable; never_throws. Qed.
Lemma storyWithPouringRainSyllableMustBePouringRainStory_quiet p s :
  neverThrows (storyWithPouringRainSyllableMustBePouringRainStory p s).
Proof. unfold storyWithPouringRainSyllableMustBePouringRainStory; never_throws. Qed.
Lemma pouringRainStoryMustMentionPouringRainInStoryText_quiet
  (toLowerCase : jsstring -> jsstring) p s :
  neverThrows (pouringRainStoryMustMentionPouringRainInStoryText toLowerCase p s).
Proof. unfold pouringRainStoryMustMentionPouringRainInStoryText; never_throws. Qed.

Lemma holds_check_quiet {A} (P : list jsstring -> result (option A) -> Prop)
  (m : Eff bool) (k : Eff (option A)) :
  neverThrows m ->
  (m = ([], Value true) -> holds P k) ->
  (forall line, P [line] (Value None)) ->
  holds P (check m ;; k).
Proof.
  intros [H | [line H]] Hk Hfail; rewrite H; unfold orReturn, holds.
  - change ([], Value true) with (@ret bool true).
    rewrite bind_ret_l. apply Hk, H.
  - cbn. apply Hfail.
Qed.

(** After a label that passed the header rule, [rest] is defined. *)
Lemma second_part_exists (c : N) (tail : jsstring) :
  exists rest,
    nth_error (split (unitOf ":") (c :: unitOf ":" :: tail)) 1 = Some rest.
Proof.
  cbn [split]. rewrite N.eqb_refl.
  destruct (split (unitOf ":") tail) as [|h t] eqn:E;
    [exfalso; exact (split_nonempty _ _ E)|].
  destruct (c =? unitOf ":")%N; cbn [nth_error]; eauto.
Qed.

Lemma holds_defined_cases {A B} (P : list jsstring -> result B -> Prop)
  (o : option A) (k : A -> Eff B) :
  (forall a, o = Some a -> holds P (k a)) ->
  (o = None -> P [] (Throw TypeError)) ->
  holds P (x <- defined o ;; k x).
Proof.
  intros Hk Hthrow. destruct o as [a|]; unfold defined.
  - rewrite bind_ret_l. apply Hk. reflexivity.
  - apply Hthrow. reflexivity.
Qed.

Lemma parsedStory_throw p el : holds (parseThrowFacts el) (parsedStory p el).
Proof.
  unfold parsedStory. cbv zeta.
  apply holds_check_quiet;
    [apply validateHeaderFormat_quiet | intros Hheader | exact (fun _ => I)].
  apply validateHeaderFormat_pass in Hheader. cbn [headerText newStory] in Hheader.
  apply reHeader_spec in Hheader as (c & d & tail & Hlabel & _).
  apply holds_check_quiet;
    [apply hanziIsSingleCharacter_quiet | intros _ | exact (fun _ => I)].
  destruct (second_part_exists c (unitOf " " :: d :: tail)) as (rest & Hrest).
  rewrite <- Hlabel in Hrest. rewrite Hrest. cbn [defined]. rewrite bind_ret_l.
  apply holds_check_pinyin; [intros Htokens | intros; exact I].
  apply holds_defined_cases.
  2:{ intros Hnone. cbn [parseThrowFacts]. exists rest. split; [exact Hrest|].
      split; [exact Hnone|]. unfold pinyinTokens. rewrite Hrest. exact Htokens. }
  intros translationStr Htr.
  apply holds_check_quiet;
    [apply pinyinCountMatchesTranslationCount_quiet | intros _ | exact (fun _ => I)].
  apply holds_check_quiet;
    [apply matchingPinyinSyllable_quiet | intros _ | exact (fun _ => I)].
  apply holds_check_quiet;
    [apply multiplePinyinSyllablesWithMovieSetTag_quiet | intros _
    | exact (fun _ => I)].
  match goal with
  | |- holds _ (bind (parseChildren p el ?s0) _) =>
    destruct (parseChildren_shape p el s0) as (s' & _ & [Hrun | [line Hrun]]);
      rewrite Hrun
  end; unfold holds; cbn; exact I.
Qed.

(** Among the content rules only [wheelStoryMentionsWheel] can throw,
    and only on a wheel story without story line that
    [atLeastOneStoryLine] let through. *)
Lemma contentRules_throw (toLowerCase : jsstring -> jsstring) p s out e :
  firstFailure (contentRules toLowerCase) p s = (out, Throw e) ->
  isWheelStory s = true /\ storyLines s = [] /\ p = noPronunciation.
Proof.
  unfold contentRules. cbn [firstFailure].
  assert (Hstep : forall (m : Eff bool) (k : Eff (option Story)) (Q : Prop),
             neverThrows m ->
             (m = ([], Value true) -> k = (out, Throw e) -> Q) ->
             (ok <- m ;; (if ok then k else ret None)) = (out, Throw e) -> Q).
  { intros m k Q [H | [line H]] Hk; rewrite H.
    - change ([], Value true) with (@ret bool true). rewrite bind_ret_l.
      apply Hk, H.
    - cbn. discriminate. }
  apply Hstep; [apply wheelStoryValid_quiet | intros _].
  apply Hstep; [apply hanziBreakdownValid_quiet | intros _].
  apply Hstep; [apply storyTypeValid_quiet | intros _].
  apply Hstep; [apply atLeastOneStoryLine_quiet | intros Hone].
  unfold wheelStoryMentionsWheel at 1.
  destruct (isWheelStory s) eqn:Hwheel.
  - destruct (storyLines s) as [|line others] eqn:Hlines.
    + intros _. split; [reflexivity|]. split; [reflexivity|].
      unfold atLeastOneStoryLine in Hone. rewrite Hlines in Hone.
      cbn [length Nat.eqb andb] in Hone.
      destruct (streq p noPronunciation) eqn:E; [|discriminate Hone].
      apply streq_eq. exact E.
    + cbn [nth_error defined]. rewrite bind_ret_l.
      assert (Hq : neverThrows
                (if negb (includes (utf16 "wheel") (toLowerCase line))
                 then
                   consoleError
                     (p ++ utf16 "/" ++ hanzi s ++ utf16 ": Wheel story must mention "
                        ++ dquote ++ utf16 "wheel" ++ dquote
                        ++ utf16 " in the first line") ;; ret false
                 else ret true)) by never_throws.
      revert Hq. generalize (if negb (includes (utf16 "wheel") (toLowerCase line))
                 then
                   consoleError
                     (p ++ utf16 "/" ++ hanzi s ++ utf16 ": Wheel story must mention "
                        ++ dquote ++ utf16 "wheel" ++ dquote
                        ++ utf16 " in the first line") ;; ret false
                 else ret true).
      intros m Hq. apply Hstep; [exact Hq | intros _].
      apply Hstep; [apply movieSetStoryHasAtLeastFourStoryLines_quiet | intros _].
      apply Hstep; [apply oldWestStoryMustBeginWithCorrectPattern_quiet | intros _].
      apply Hstep; [apply sciFiStoryMustBeginWithCorrectPattern_quiet | intros _].
      apply Hstep; [apply policeDramaStoryMustBeginWithCorrectPattern_quiet | intros _].
      apply Hstep; [apply pouringRainStoryMustHaveEligibleSyllable_quiet | intros _].
      apply Hstep;
        [apply storyWithPouringRainSyllableMustBePouringRainStory_quiet | intros _].
      apply Hstep;
        [apply pouringRainStoryMustMentionPouringRainInStoryText_quiet | intros _].
      discriminate.
  - apply Hstep; [left; reflexivity | intros _].
    apply Hstep; [apply movieSetStoryHasAtLeastFourStoryLines_quiet | intros _].
    apply Hstep; [apply oldWestStoryMustBeginWithCorrectPattern_quiet | intros _].
    apply Hstep; [apply sciFiStoryMustBeginWithCorrectPattern_quiet | intros _].
    apply Hstep; [apply policeDramaStoryMustBeginWithCorrectPattern_quiet | intros _].
    apply Hstep; [apply pouringRainStoryMustHaveEligibleSyllable_quiet | intros _].
    apply Hstep;
      [apply storyWithPouringRainSyllableMustBePouringRainStory_quiet | intros _].
    apply Hstep;
      [apply pouringRainStoryMustMentionPouringRainInStoryText_quiet | intros _].
    discriminate.
Qed.

(** ** Where the audit of an entry throws *)

Lemma map_eq_nil_inv {A B} (f : A -> B) (l : list A) : map f l = [] -> l = [].
Proof. destruct l; [reflexivity | discriminate]. Qed.

Section Throws.
Variable toLowerCase : jsstring -> jsstring.

End Throws.

(** ** The console of a whole document *)

(** ** The console of a whole document *)




Section Document.
Variable toLowerCase : jsstring -> jsstring.





End Document.

(** ** Clean documents *)


Section CleanDocument.
Variable toLowerCase : jsstring -> jsstring.





(** X15. A root without children, with fewer than three children, or
    whose anchor has no children makes [auditHanziStories] throw before
    anything is written. *)
Theorem audit_throws_before_first_entry (pronunciations : Element) :
  (forall level1 firstPronunciation,
      outline pronunciations = Some level1 ->
      nth_error level1 2 = Some firstPronunciation ->
      includes noPronunciation (elText firstPronunciation) = true
      /\ outline firstPronunciation = None) ->
  auditHanziStories toLowerCase pronunciations = ([], Throw TypeError).
Proof.
  intros H. unfold auditHanziStories.
  destruct (outline pronunciations) as [level1|]; [|reflexivity].
  cbn [defined]. rewrite bind_ret_l.
  destruct (nth_error level1 2) as [first|] eqn:Hfirst; [|reflexivity].
  cbn [defined]. rewrite bind_ret_l.
  destruct (H level1 first eq_refl Hfirst) as (Hanchor & Hnone).
  unfold reNoPronunciation. rewrite test_search_Lit, Hanchor, Hnone. reflexivity.
Qed.
End CleanDocument.

(** ** The roster and the audit *)

(** The parts of [split] hold no separator. *)
Lemma split_parts_free (sep : N) (s : jsstring) :
  Forall (fun part => ~ In sep part) (split sep s).
Proof.
  induction s as [|c r IH]; cbn [split].
  - constructor; [intros [] | constructor].
  - destruct (c =? sep)%N eqn:E.
    + constructor; [intros [] | exact IH].
    + destruct (split sep r) as [|h t]; [constructor; [|constructor]|].
      * intros [-> | []]. rewrite N.eqb_refl in E. discriminate.
      * inversion IH as [|? ? Hh Ht]; subst. constructor; [|exact Ht].
        intros [-> | Hin]; [rewrite N.eqb_refl in E; discriminate | exact (Hh Hin)].
Qed.

(** A second part means the separator occurs. *)
Lemma split_second_In (sep : N) (s part : jsstring) :
  nth_error (split sep s) 1 = Some part -> In sep s.
Proof.
  induction s as [|c r IH]; cbn [split]; [discriminate|].
  destruct (c =? sep)%N eqn:E.
  - intros _. left. apply N.eqb_eq in E. exact E.
  - destruct (split sep r) as [|h t] eqn:Er; [discriminate|].
    cbn [nth_error] in *. intros H. right. exact (IH H).
Qed.

Lemma trimStart_In (c : N) (s : jsstring) : In c (trimStart s) -> In c s.
Proof.
  induction s as [|x s IH]; cbn [trimStart]; [auto|].
  destruct (isWhiteSpace x); [intros H; right; exact (IH H) | auto].
Qed.

Lemma trim_In (c : N) (s : jsstring) : In c (trim s) -> In c s.
Proof.
  unfold trim, trimEnd. intros H.
  apply in_rev, trimStart_In, in_rev in H. apply trimStart_In. exact H.
Qed.


Section FlatteningOutcome.
Import Flashcards.

Lemma loadToneLevel_thrown syllable e toneElements :
  fold_left (loadToneLevel syllable) toneElements ([], Throw e) = ([], Throw e).
Proof. induction toneElements as [|t l IH]; [reflexivity | exact IH]. Qed.

Lemma loadPronunciation_thrown e pronunciationElements :
  fold_left loadPronunciation pronunciationElements ([], Throw e) = ([], Throw e).
Proof. induction pronunciationElements as [|t l IH]; [reflexivity | exact IH]. Qed.

Lemma loadToneLevel_throws syllable acc toneElements :
  ~ Forall (fun toneElement =>
              streq (elText toneElement) tongueLiteral = false ->
              outline toneElement <> None) toneElements ->
  fold_left (loadToneLevel syllable) toneElements (ret acc) = ([], Throw TypeError).
Proof.
  revert acc. induction toneElements as [|tone l IH]; intros acc Hbad.
  - exfalso. apply Hbad. constructor.
  - cbn [fold_left].
    destruct (streq (elText tone) tongueLiteral) eqn:E.
    + replace (loadToneLevel syllable (ret acc) tone) with (ret acc).
      * apply IH. intros Hl. apply Hbad. constructor; [congruence | exact Hl].
      * unfold loadToneLevel. rewrite bind_ret_l, E. reflexivity.
    + destruct (outline tone) as [hs|] eqn:Ho.
      * replace (loadToneLevel syllable (ret acc) tone)
          with (ret (acc ++ map (tupleOf (syllable ++ utf16 "/" ++ elText tone)) hs)).
        -- apply IH. intros Hl. apply Hbad. constructor; [congruence | exact Hl].
        -- unfold loadToneLevel. rewrite bind_ret_l, E, Ho. cbn [negb].
           rewrite loadChildHanziChars_spec, bind_ret_l. reflexivity.
      * replace (loadToneLevel syllable (ret acc) tone) with (@throw (list HanziChar) TypeError).
        -- apply loadToneLevel_thrown.
        -- unfold loadToneLevel. rewrite bind_ret_l, E, Ho. reflexivity.
Qed.

Lemma toneShape_dec (toneElements : list Element) :
  {Forall (fun toneElement =>
             streq (elText toneElement) tongueLiteral = false ->
             outline toneElement <> None) toneElements}
  + {~ Forall (fun toneElement =>
                 streq (elText toneElement) tongueLiteral = false ->
                 outline toneElement <> None) toneElements}.
Proof.
  apply Forall_dec. intros tone.
  destruct (streq (elText tone) tongueLiteral); [left; discriminate|].
  destruct (outline tone); [left; discriminate | right; intros H; exact (H eq_refl eq_refl)].
Qed.

Lemma loadPronunciation_throws acc pronunciationElements :
  ~ Forall
      (fun pronunciation =>
         exists toneElements,
           outline pronunciation = Some toneElements
           /\ Forall
                (fun toneElement =>
                   streq (elText toneElement) tongueLiteral = false ->
                   outline toneElement <> None)
                toneElements)
      pronunciationElements ->
  fold_left loadPronunciation pronunciationElements (ret acc) = ([], Throw TypeError).
Proof.
  revert acc. induction pronunciationElements as [|pr l IH]; intros acc Hbad.
  - exfalso. apply Hbad. constructor.
  - cbn [fold_left]. unfold loadPronunciation at 2. rewrite bind_ret_l. cbv zeta.
    destruct (outline pr) as [tones|] eqn:Ho.
    + cbn [defined]. rewrite bind_ret_l.
      destruct (toneShape_dec tones) as [Hok | Hno].
      * rewrite (loadToneLevel_spec _ _ Hok). apply IH.
        intros Hl. apply Hbad. constructor; [|exact Hl].
        exists tones. split; [exact Ho | exact Hok].
      * rewrite (loadToneLevel_throws _ _ Hno). apply loadPronunciation_thrown.
    + apply loadPronunciation_thrown.
Qed.

Lemma pronunciationShape_dec (pronunciationElements : list Element) :
  {Forall
     (fun pronunciation =>
        exists toneElements,
          outline pronunciation = Some toneElements
          /\ Forall
               (fun toneElement =>
                  streq (elText toneElement) tongueLiteral = false ->
                  outline toneElement <> None)
               toneElements)
     pronunciationElements}
  + {~ Forall
         (fun pronunciation =>
            exists toneElements,
              outline pronunciation = Some toneElements
              /\ Forall
                   (fun toneElement =>
                      streq (elText toneElement) tongueLiteral = false ->
                      outline toneElement <> None)
                   toneElements)
         pronunciationElements}.
Proof.
  apply Forall_dec. intros pr.
  destruct (outline pr) as [tones|]; [|right; intros (t & H & _); discriminate].
  destruct (toneShape_dec tones) as [Hok | Hno].
  - left. exists tones. split; [reflexivity | exact Hok].
  - right. intros (t & Ht & H). injection Ht as <-. exact (Hno H).
Qed.

Lemma loadAllHanziChars_cases (pronunciations : Element) :
  (wellShaped pronunciations
   /\ loadAllHanziChars pronunciations
      = ([], Value (map tupleOfEntry (storyEntries pronunciations))))
  \/ (~ wellShaped pronunciations
      /\ loadAllHanziChars pronunciations = ([], Throw TypeError)).
Proof.
  destruct (outline pronunciations) as [level1|] eqn:Hroot.
  2: { right. split.
       - intros (l & f & hs & H & _). congruence.
       - unfold loadAllHanziChars. rewrite Hroot. reflexivity. }
  destruct (nth_error level1 2) as [first|] eqn:Hfirst.
  2: { right. split.
       - intros (l & f & hs & H & H' & _). congruence.
       - unfold loadAllHanziChars. rewrite Hroot. cbn [defined].
         rewrite bind_ret_l, Hfirst. reflexivity. }
  destruct (outline first) as [hs|] eqn:Hhs.
  2: { right. split.
       - intros (l & f & hs & H & H' & H'' & _). congruence.
       - unfold loadAllHanziChars. rewrite Hroot. cbn [defined].
         rewrite bind_ret_l, Hfirst. cbn [defined]. rewrite bind_ret_l.
         cbv zeta. rewrite Hhs. reflexivity. }
  destruct (pronunciationShape_dec (skipn 3 level1)) as [Hok | Hno].
  - assert (Hshape : wellShaped pronunciations).
    { exists level1, first, hs. auto. }
    left. split; [exact Hshape|].
    unfold loadAllHanziChars, storyEntries. rewrite Hroot. cbn [defined].
    rewrite bind_ret_l, Hfirst. cbn [defined]. rewrite bind_ret_l.
    cbv zeta. rewrite Hhs, loadChildHanziChars_spec, bind_ret_l.
    rewrite (loadPronunciation_spec _ Hok), map_app, map_map. reflexivity.
  - right. split.
    + intros (l & f & hs' & H & _ & _ & Hrest).
      rewrite Hroot in H. injection H as <-. exact (Hno Hrest).
    + unfold loadAllHanziChars. rewrite Hroot. cbn [defined].
      rewrite bind_ret_l, Hfirst. cbn [defined]. rewrite bind_ret_l.
      cbv zeta. rewrite Hhs, loadChildHanziChars_spec, bind_ret_l.
      apply loadPronunciation_throws. exact Hno.
Qed.


Lemma tongue_not_literal : streq tongue tongueLiteral = false.
Proof. reflexivity. Qed.

Lemma toneLevelEntries_toneEntries syllable toneElement :
  incl (toneLevelEntries syllable toneElement) (toneEntries syllable toneElement).
Proof.
  unfold toneLevelEntries, toneEntries, childrenOf.
  destruct (test reTone (elText toneElement)) eqn:Htone; [|intros x []].
  apply reTone_spec in Htone as (d & -> & _).
  assert (Hlit : exists a b r, tongueLiteral = a :: b :: r)
    by (vm_compute; eauto).
  destruct Hlit as (a & b & r & ->).
  replace (streq [d] (a :: b :: r)) with false
    by (symmetry; cbn [streq]; apply andb_false_r).
  destruct (outline toneElement); [apply incl_refl | intros x []].
Qed.

Lemma auditedEntries_storyEntries (pronunciations : Element) :
  incl (auditedEntries pronunciations) (storyEntries pronunciations).
Proof.
  unfold auditedEntries, storyEntries, childrenOf.
  destruct (outline pronunciations) as [level1|]; [|intros x []].
  apply incl_app_app.
  - destruct (nth_error level1 2) as [first|]; [|intros x []].
    destruct (outline first); [apply incl_refl | intros x []].
  - intros x Hx. apply in_flat_map in Hx as (pr & Hpr & Hx).
    apply in_flat_map. exists pr. split; [exact Hpr|].
    destruct (outline pr) as [tones|]; [|destruct Hx].
    apply in_flat_map in Hx as (tone & Htone & Hx).
    apply in_flat_map. exists tone. split; [exact Htone|].
    exact (toneLevelEntries_toneEntries _ _ _ Hx).
Qed.
End FlatteningOutcome.

Section RosterAndAudit.
Variable toLowerCase : jsstring -> jsstring.

(** X16. For an entry the audit accepts, the roster object holds the
    story's character, but its [definition] is the whole label part
    between the first colon and the next: it contains the [|] separator,
    which the translation segment never does. *)
Theorem accepted_entry_in_roster (path path' : jsstring) (hanziElement : Element)
  (out : list jsstring) (story : Story) :
  auditHanziElement toLowerCase path hanziElement = (out, Value (Some story)) ->
  Flashcards.hanzi (Flashcards.tupleOf path' hanziElement) = hanzi story
  /\ exists rest translation,
       Flashcards.definition (Flashcards.tupleOf path' hanziElement) = Some rest
       /\ Flashcards.specTranslation (elText hanziElement) = Some translation
       /\ translations story = map trim (split (unitOf ",") translation)
       /\ In (unitOf "|") rest
       /\ ~ In (unitOf "|") translation.
Proof.
  intros Hrun. apply accepted_story in Hrun
    as (rest & tr & Hrest & Htr & _ & _ & _ & _ & _ & (Hhanzi & _ & _ & Htl & _) & _).
  cbn [hanzi translations headerStory] in Hhanzi, Htl.
  unfold Flashcards.tupleOf. cbn [Flashcards.hanzi Flashcards.definition].
  rewrite <- split_colon_hd, <- split_colon_second.
  split; [symmetry; exact Hhanzi|].
  exists rest, tr. split; [exact Hrest|].
  split; [unfold Flashcards.specTranslation; rewrite Hrest; exact Htr|].
  split; [exact Htl|].
  rewrite nth_error_map in Htr.
  destruct (nth_error (split (unitOf "|") rest) 1) as [part|] eqn:Hpart;
    [|discriminate].
  cbn [option_map] in Htr. injection Htr as <-.
  split; [exact (split_second_In _ _ Hpart)|].
  intros Hin. apply trim_In in Hin.
  pose proof (split_parts_free (unitOf "|") rest) as Hfree.
  rewrite Forall_forall in Hfree.
  exact (Hfree part (nth_error_In _ _ Hpart) Hin).
Qed.


(** X18. A childless tone-level node labelled with the marker "👅",
    which the audit skips in silence, makes the flattening traversal
    throw. *)
Theorem marker_leaf_breaks_roster (pronunciations pronunciation toneElement : Element)
  (level1 toneElements : list Element) :
  outline pronunciations = Some level1 ->
  In pronunciation (skipn 3 level1) ->
  outline pronunciation = Some toneElements ->
  In toneElement toneElements ->
  elText toneElement = tongue ->
  outline toneElement = None ->
  Flashcards.loadAllHanziChars pronunciations = ([], Throw TypeError)
  /\ forall syllable,
       auditToneLevel toLowerCase syllable toneElement = ([], Value tt).
Proof.
  intros Hroot Hpr Htones Htone Htext Hleaf. split.
  - destruct (loadAllHanziChars_cases pronunciations)
      as [((l & f & hs & Hl & _ & _ & Hrest) & _) | (_ & Hthrow)];
      [exfalso | exact Hthrow].
    rewrite Hroot in Hl. injection Hl as <-.
    rewrite Forall_forall in Hrest.
    destruct (Hrest pronunciation Hpr) as (tones & Ho & Hshape).
    rewrite Htones in Ho. injection Ho as <-.
    rewrite Forall_forall in Hshape.
    apply (Hshape toneElement Htone); [|exact Hleaf].
    rewrite Htext. exact tongue_not_literal.
  - intros syllable. unfold auditToneLevel. rewrite Htext.
    replace (streq tongue tongue) with true by reflexivity. reflexivity.
Qed.

(** X19. When the flattening traversal returns, every entry the audit
    examines and accepts has an object in the roster with the story's
    character and the entry's path. *)
Theorem audited_entry_in_roster (pronunciations : Element)
  (hanziChars : list Flashcards.HanziChar) (path : jsstring) (hanziElement : Element)
  (out : list jsstring) (story : Story) :
  Flashcards.loadAllHanziChars pronunciations = ([], Value hanziChars) ->
  In (path, hanziElement) (auditedEntries pronunciations) ->
  auditHanziElement toLowerCase path hanziElement = (out, Value (Some story)) ->
  exists hanziChar,
    In hanziChar hanziChars
    /\ Flashcards.hanzi hanziChar = hanzi story
    /\ Flashcards.path hanziChar = path.
Proof.
  intros Hload Hentry Hrun.
  destruct (loadAllHanziChars_cases pronunciations)
    as [(_ & Hroster) | (_ & Hthrow)]; [|rewrite Hthrow in Hload; discriminate].
  rewrite Hroster in Hload. injection Hload as <-.
  exists (Flashcards.tupleOf path hanziElement). split.
  - apply auditedEntries_storyEntries in Hentry.
    exact (in_map Flashcards.tupleOfEntry _ _ Hentry).
  - split; [|reflexivity].
    apply accepted_story in Hrun
      as (rest & tr & _ & _ & _ & _ & _ & _ & _ & (Hhanzi & _) & _).
    cbn [hanzi headerStory] in Hhanzi.
    unfold Flashcards.tupleOf. cbn [Flashcards.hanzi].
    rewrite <- split_colon_hd. symmetry. exact Hhanzi.
Qed.
End RosterAndAudit.

(** ** Looking the characters up *)

(** [/\s|\[/] finds a match exactly in the strings that hold a white
    space character or a bracket. *)
Lemma reSeparator_spec (s : jsstring) :
  test Lookup.reSeparator s = existsb Lookup.isSeparator s.
Proof.
  apply eq_true_iff_eq. unfold Lookup.reSeparator.
  rewrite test_search, existsb_exists. split.
  - intros (pre & mid & post & -> & Hmid).
    apply lang_Alt_inv in Hmid as [Hmid | Hmid];
      apply lang_Class_inv in Hmid as (c & -> & Hc);
      exists c; (split; [apply in_or_app; right; left; reflexivity|]);
      unfold Lookup.isSeparator; rewrite Hc; auto using orb_true_r.
  - intros (c & Hin & Hc). apply in_split in Hin as (pre & post & ->).
    exists pre, [c], post. split; [reflexivity|].
    unfold Lookup.isSeparator in Hc. apply orb_true_iff in Hc as [Hc | Hc].
    + apply LangAltL. constructor. exact Hc.
    + apply LangAltR. constructor. exact Hc.
Qed.

Lemma anyStandsAlone_from (cards : list (option jsstring)) (found : bool) :
  fold_left
    (fun found question =>
       if test Lookup.reSeparator (toStringArg question) then true else found)
    cards found
  = found
    || existsb (fun question => existsb Lookup.isSeparator (toStringArg question))
               cards.
Proof.
  revert found. induction cards as [|q l IH]; intros found; cbn [fold_left existsb].
  - rewrite orb_false_r. reflexivity.
  - rewrite IH, reSeparator_spec.
    destruct (existsb Lookup.isSeparator (toStringArg q)), found; reflexivity.
Qed.

Lemma anyStandsAlone_spec (cards : list (option jsstring)) :
  Lookup.anyStandsAlone cards
  = existsb (fun question => existsb Lookup.isSeparator (toStringArg question))
            cards.
Proof. unfold Lookup.anyStandsAlone. apply anyStandsAlone_from. Qed.

Section LookupFacts.
Variable findCards : jsstring -> option (list N).
Variable cardsInfo : list N -> option (list (option jsstring)).

(** X20. When the deck has cards for a character, the lookup goes on,
    and it reports the character as not standing by itself exactly when
    no card's question holds a white space character or an opening
    square bracket. *)
Theorem lookup_report (hanziChar : Flashcards.HanziChar) (cardIds : list N)
  (cards : list (option jsstring)) :
  findCards (Lookup.query hanziChar) = Some cardIds ->
  cardIds <> [] ->
  cardsInfo cardIds = Some cards ->
  Lookup.findHanziFlashcard findCards cardsInfo hanziChar
  = (if existsb
          (fun question => existsb Lookup.isSeparator (toStringArg question))
          cards
     then []
     else [Lookup.describe hanziChar ++ utf16 " in Anki does not stand by itself."],
     Lookup.Resumed).
Proof.
  intros Hids Hsome Hcards. unfold Lookup.findHanziFlashcard.
  rewrite Hids. destruct cardIds as [|id ids]; [contradiction|].
  cbn [length Nat.eqb]. rewrite Hcards. cbv zeta.
  rewrite anyStandsAlone_spec.
  destruct (existsb _ cards); reflexivity.
Qed.

(** X21. A character whose cards all show the bare character, which
    holds neither white space nor a bracket, is reported as not standing
    by itself. *)
Theorem bare_card_reported (hanziChar : Flashcards.HanziChar) (cardIds : list N)
  (cards : list (option jsstring)) :
  findCards (Lookup.query hanziChar) = Some cardIds ->
  cardIds <> [] ->
  cardsInfo cardIds = Some cards ->
  Forall (fun question => question = Some (Flashcards.hanzi hanziChar)) cards ->
  existsb Lookup.isSeparator (Flashcards.hanzi hanziChar) = false ->
  Lookup.findHanziFlashcard findCards cardsInfo hanziChar
  = ([Lookup.describe hanziChar ++ utf16 " in Anki does not stand by itself."],
     Lookup.Resumed).
Proof.
  intros Hids Hsome Hcards Hbare Hplain. unfold Lookup.findHanziFlashcard.
  rewrite Hids. destruct cardIds as [|id ids]; [contradiction|].
  cbn [length Nat.eqb]. rewrite Hcards. cbv zeta.
  rewrite anyStandsAlone_spec.
  replace (existsb _ cards) with false; [reflexivity|].
  symmetry. clear Hcards. induction Hbare as [|q l Hq _ IH]; [reflexivity|].
  cbn [existsb]. rewrite Hq. cbn [toStringArg]. rewrite Hplain. exact IH.
Qed.

Lemma findHanziFlashcards_resumed (hanziChars : list Flashcards.HanziChar) :
  Forall
    (fun hanziChar =>
       snd (Lookup.findHanziFlashcard findCards cardsInfo hanziChar)
       = Lookup.Resumed)
    hanziChars ->
  Lookup.findHanziFlashcards findCards cardsInfo hanziChars
  = (flat_map
       (fun hanziChar => fst (Lookup.findHanziFlashcard findCards cardsInfo hanziChar))
       hanziChars,
     Lookup.Resumed).
Proof.
  induction 1 as [|h l Hh _ IH]; cbn [Lookup.findHanziFlashcards flat_map];
    [reflexivity|].
  destruct (Lookup.findHanziFlashcard findCards cardsInfo h) as (out, r).
  cbn [fst snd] in *. subst r. rewrite IH. reflexivity.
Qed.

Lemma findHanziFlashcard_exit (hanziChar : Flashcards.HanziChar)
  (error : Lookup.Failure) :
  snd (Lookup.findHanziFlashcard findCards cardsInfo hanziChar)
  = Lookup.Exited error ->
  fst (Lookup.findHanziFlashcard findCards cardsInfo hanziChar) = []
  /\ (findCards (Lookup.query hanziChar) = None
      /\ error = Lookup.FindCardsFailed (Lookup.query hanziChar)
      \/ exists cardIds,
           findCards (Lookup.query hanziChar) = Some cardIds
           /\ cardsInfo cardIds = None
           /\ error = Lookup.CardsInfoFailed cardIds).
Proof.
  unfold Lookup.findHanziFlashcard, Lookup.logErrorAndExit.
  destruct (findCards (Lookup.query hanziChar)) as [ids|].
  - destruct (length ids =? 0)%nat; [cbn [fst snd]; discriminate|].
    destruct (cardsInfo ids) as [cards|] eqn:Hinfo.
    + cbv zeta. destruct (negb _); cbn [fst snd]; discriminate.
    + cbn [fst snd]. intros H. injection H as <-.
      split; [reflexivity|]. right. exists ids. auto.
  - cbn [fst snd]. intros H. injection H as <-.
    split; [reflexivity|]. left. auto.
Qed.

(** X22. The lookups run in roster order and stop at the first request
    that fails: the lines of the characters before it are logged; the
    failing lookup logs no line, its error (that of the search for the
    character, or of the request for the cards found) is printed on the
    error stream and the process ends; no later character is looked
    up. *)
Theorem lookups_stop_at_failure (before after : list Flashcards.HanziChar)
  (failing : Flashcards.HanziChar) (error : Lookup.Failure) :
  Forall
    (fun hanziChar =>
       snd (Lookup.findHanziFlashcard findCards cardsInfo hanziChar)
       = Lookup.Resumed)
    before ->
  snd (Lookup.findHanziFlashcard findCards cardsInfo failing)
  = Lookup.Exited error ->
  Lookup.findHanziFlashcards findCards cardsInfo (before ++ failing :: after)
  = (flat_map
       (fun hanziChar => fst (Lookup.findHanziFlashcard findCards cardsInfo hanziChar))
       before,
     Lookup.Exited error)
  /\ Lookup.findHanziFlashcard findCards cardsInfo failing
     = Lookup.logErrorAndExit error
  /\ (findCards (Lookup.query failing) = None
      /\ error = Lookup.FindCardsFailed (Lookup.query failing)
      \/ exists cardIds,
           findCards (Lookup.query failing) = Some cardIds
           /\ cardsInfo cardIds = None
           /\ error = Lookup.CardsInfoFailed cardIds).
Proof.
  intros Hbefore Hfail.
  destruct (findHanziFlashcard_exit _ Hfail) as (Hsilent & Hwhich).
  split; [|split; [|exact Hwhich]].
  - induction Hbefore as [|h l Hh _ IH];
      cbn [app Lookup.findHanziFlashcards flat_map].
    + destruct (Lookup.findHanziFlashcard findCards cardsInfo failing) as (out, r).
      cbn [fst snd] in *. subst. reflexivity.
    + destruct (Lookup.findHanziFlashcard findCards cardsInfo h) as (out, r).
      cbn [fst snd] in *. subst r. rewrite IH. reflexivity.
  - unfold Lookup.logErrorAndExit.
    destruct (Lookup.findHanziFlashcard findCards cardsInfo failing) as (out, r).
    cbn [fst snd] in *. subst. reflexivity.
Qed.
End LookupFacts.


(** ** The characters the frequency check loads *)

Lemma keys_app (a b : list Element) :
  Frequency.keys (a ++ b) = Frequency.keys a ++ Frequency.keys b.
Proof. unfold Frequency.keys. rewrite map_app, filter_app. reflexivity. Qed.

Lemma complaints_app (a b : list Element) :
  Frequency.complaints (a ++ b)
  = Frequency.complaints a ++ Frequency.complaints b.
Proof. unfold Frequency.complaints. rewrite filter_app, map_app. reflexivity. Qed.

Lemma loadHanziElement_thrown out e hanziElements :
  fold_left Frequency.loadHanziElement hanziElements (out, Throw e)
  = (out, Throw e).
Proof. induction hanziElements as [|h l IH]; [reflexivity | exact IH]. Qed.

Lemma loadChild_thrown out e children :
  fold_left Frequency.loadChild children (out, Throw e) = (out, Throw e).
Proof. induction children as [|h l IH]; [reflexivity | exact IH]. Qed.

Lemma loadFrequencyPronunciation_thrown out e pronunciationElements :
  fold_left Frequency.loadPronunciation pronunciationElements (out, Throw e)
  = (out, Throw e).
Proof. induction pronunciationElements as [|h l IH]; [reflexivity | exact IH]. Qed.

(** The keys and complaints of a run of entries. *)
Lemma loadHanziElement_fold hanziElements out chars :
  fold_left Frequency.loadHanziElement hanziElements (out, Value chars)
  = (out ++ Frequency.complaints hanziElements,
     Value (chars ++ Frequency.keys hanziElements)).
Proof.
  revert out chars.
  induction hanziElements as [|h l IH]; intros out chars; cbn [fold_left].
  - unfold Frequency.complaints, Frequency.keys. cbn [map filter].
    rewrite !app_nil_r. reflexivity.
  - assert (Hstep : Frequency.loadHanziElement (out, Value chars) h
                    = (out ++ Frequency.complaints [h],
                       Value (chars ++ Frequency.keys [h]))).
    { unfold Frequency.loadHanziElement, Frequency.complaints, Frequency.keys,
        Frequency.keyOf.
      cbn [map filter bind]. cbv zeta.
      destruct (length (hd [] (split (unitOf ":") (elText h))) =? 0)%nat;
        cbn [negb map bind consoleError ret app];
        rewrite ?app_nil_r; reflexivity. }
    rewrite Hstep, IH.
    change (h :: l) with ([h] ++ l).
    rewrite keys_app, complaints_app, !app_assoc. reflexivity.
Qed.

Lemma toneEntries_elements syllable child :
  map snd (Flashcards.toneEntries syllable child)
  = if streq (elText child) Flashcards.tongueLiteral then []
    else childrenOf child.
Proof.
  unfold Flashcards.toneEntries, childrenOf.
  destruct (streq (elText child) Flashcards.tongueLiteral); [reflexivity|].
  destruct (outline child) as [hs|]; [|reflexivity].
  rewrite map_map. cbn [snd]. apply map_id.
Qed.

Lemma loadChild_fold syllable children out chars :
  Forall (fun toneElement =>
            streq (elText toneElement) Flashcards.tongueLiteral = false ->
            outline toneElement <> None) children ->
  fold_left Frequency.loadChild children (out, Value chars)
  = (out
     ++ Frequency.complaints
          (map snd (flat_map (Flashcards.toneEntries syllable) children)),
     Value (chars
            ++ Frequency.keys
                 (map snd (flat_map (Flashcards.toneEntries syllable) children)))).
Proof.
  intros Hshape. revert out chars.
  induction Hshape as [|child l Hchild _ IH]; intros out chars;
    cbn [fold_left flat_map].
  - unfold Frequency.complaints, Frequency.keys. cbn [map filter].
    rewrite !app_nil_r. reflexivity.
  - assert (Hstep : Frequency.loadChild (out, Value chars) child
                    = (out ++ Frequency.complaints
                                (map snd (Flashcards.toneEntries syllable child)),
                       Value (chars ++ Frequency.keys
                                (map snd (Flashcards.toneEntries syllable child))))).
    { rewrite toneEntries_elements. unfold Frequency.loadChild, childrenOf.
      destruct (streq (elText child) Flashcards.tongueLiteral) eqn:E.
      - cbn. rewrite !app_nil_r. reflexivity.
      - destruct (outline child) as [hs|] eqn:Ho; [|exfalso; apply Hchild; auto].
        cbn [negb bind defined ret app]. unfold ret.
        rewrite loadHanziElement_fold. cbn [app].
        reflexivity. }
    rewrite Hstep, IH, map_app, keys_app, complaints_app, !app_assoc.
    reflexivity.
Qed.

Lemma loadFrequencyPronunciation_fold pronunciationElements out chars :
  Forall
    (fun pronunciation =>
       exists toneElements,
         outline pronunciation = Some toneElements
         /\ Forall
              (fun toneElement =>
                 streq (elText toneElement) Flashcards.tongueLiteral = false ->
                 outline toneElement <> None)
              toneElements)
    pronunciationElements ->
  fold_left Frequency.loadPronunciation pronunciationElements (out, Value chars)
  = (out
     ++ Frequency.complaints
          (map snd
             (flat_map
                (fun pronunciation =>
                   match outline pronunciation with
                   | Some toneElements =>
                     flat_map (Flashcards.toneEntries (elText pronunciation))
                              toneElements
                   | None => []
                   end)
                pronunciationElements)),
     Value (chars
            ++ Frequency.keys
                 (map snd
                    (flat_map
                       (fun pronunciation =>
                          match outline pronunciation with
                          | Some toneElements =>
                            flat_map (Flashcards.toneEntries (elText pronunciation))
                                     toneElements
                          | None => []
                          end)
                       pronunciationElements)))).
Proof.
  intros Hshape. revert out chars.
  induction Hshape as [|pr l (tones & Ho & Htones) _ IH]; intros out chars;
    cbn [fold_left flat_map].
  - unfold Frequency.complaints, Frequency.keys. cbn [map filter].
    rewrite !app_nil_r. reflexivity.
  - assert (Hstep : Frequency.loadPronunciation (out, Value chars) pr
                    = (out ++ Frequency.complaints
                                (map snd (flat_map (Flashcards.toneEntries (elText pr)) tones)),
                       Value (chars ++ Frequency.keys
                                (map snd (flat_map (Flashcards.toneEntries (elText pr)) tones))))).
    { unfold Frequency.loadPronunciation. rewrite Ho.
      cbn [bind defined ret app]. unfold ret.
      rewrite (loadChild_fold (elText pr) [] chars Htones). cbn [app].
      reflexivity. }
    rewrite Hstep, IH, Ho, map_app, keys_app, complaints_app, !app_assoc.
    reflexivity.
Qed.

Lemma roster_keys (entries : list (jsstring * Element)) :
  map Flashcards.hanzi (map Flashcards.tupleOfEntry entries)
  = map Frequency.keyOf (map snd entries).
Proof.
  rewrite !map_map. apply map_ext. intros (p, e).
  unfold Flashcards.tupleOfEntry, Flashcards.tupleOf, Frequency.keyOf.
  cbn [fst snd Flashcards.hanzi]. symmetry. apply split_colon_hd.
Qed.

Lemma roster_complaints (entries : list (jsstring * Element)) :
  map (fun _ : Flashcards.HanziChar => Frequency.notFound)
      (filter (fun hanziChar => (length (Flashcards.hanzi hanziChar) =? 0)%nat)
              (map Flashcards.tupleOfEntry entries))
  = Frequency.complaints (map snd entries).
Proof.
  unfold Frequency.complaints.
  induction entries as [|(p, e) l IH]; [reflexivity|].
  cbn [map filter]. 
  unfold Flashcards.tupleOfEntry at 1, Flashcards.tupleOf at 1, Frequency.keyOf at 1.
  cbn [fst snd Flashcards.hanzi]. rewrite <- split_colon_hd.
  destruct (length (hd [] (split (unitOf ":") (elText e))) =? 0)%nat;
    cbn [map]; rewrite IH; reflexivity.
Qed.

(** X23. The frequency check walks the tree as the flashcard script
    does. When the roster exists and the anchor is found, the keys it
    sets are the characters of the roster that are not empty, in roster
    order, and it complains once for every entry whose label starts
    with the colon. *)
Theorem frequency_loader_agrees (pronunciations : Element)
  (hanziChars : list Flashcards.HanziChar) :
  Flashcards.loadAllHanziChars pronunciations = ([], Value hanziChars) ->
  (forall level1 firstPronunciation,
      outline pronunciations = Some level1 ->
      nth_error level1 2 = Some firstPronunciation ->
      includes noPronunciation (elText firstPronunciation) = true) ->
  Frequency.loadHanziChars pronunciations
  = (map (fun _ => Frequency.notFound)
         (filter (fun hanziChar => (length (Flashcards.hanzi hanziChar) =? 0)%nat)
                 hanziChars),
     Value (filter (fun key => negb (length key =? 0)%nat)
                   (map Flashcards.hanzi hanziChars))).
Proof.
  intros Hload Hanchor.
  destruct (loadAllHanziChars_cases pronunciations)
    as [(Hshape & Hroster) | (_ & Hthrow)]; [|rewrite Hthrow in Hload; discriminate].
  rewrite Hroster in Hload. injection Hload as <-.
  rewrite roster_keys, roster_complaints.
  fold (Frequency.keys (map snd (Flashcards.storyEntries pronunciations))).
  destruct Hshape as (level1 & first & hs & Hroot & Hfirst & Hhs & Hrest).
  specialize (Hanchor level1 first Hroot Hfirst).
  unfold Frequency.loadHanziChars, Flashcards.storyEntries.
  rewrite Hroot. cbn [defined]. rewrite bind_ret_l, Hfirst.
  cbn [defined]. rewrite bind_ret_l.
  unfold reNoPronunciation. rewrite test_search_Lit, Hanchor, Hhs.
  cbn [negb defined]. rewrite bind_ret_l.
  change (@ret (list jsstring) []) with (@nil jsstring, Value (@nil jsstring)).
  rewrite loadHanziElement_fold. cbn [app bind]. cbv zeta.
  change (ret (Frequency.keys hs)) with (@nil jsstring, Value (Frequency.keys hs)).
  rewrite (loadFrequencyPronunciation_fold [] (Frequency.keys hs) Hrest).
  cbn [app]. rewrite map_app, map_map. cbn [snd]. rewrite map_id.
  rewrite keys_app, complaints_app. reflexivity.
Qed.

(** ** Concrete runs of the further properties *)

(** X1, witness: the entry for "妈" under ma/1. *)
Lemma accepted_entry_header_witness :
  exists story,
    auditHanziElement asciiLower (utf16 "ma/1") motherEntry
    = ([], Value (Some story))
    /\ exists c d tail,
         elText motherEntry = c :: unitOf ":" :: unitOf " " :: d :: tail
         /\ hanzi story = [c]
         /\ c <> unitOf ":"
         /\ isLineTerminator c = false
         /\ isWhiteSpace d = false.
Proof.
  eexists. split; [vm_compute; reflexivity|].
  apply (@accepted_entry_header asciiLower (utf16 "ma/1") motherEntry []).
  vm_compute. reflexivity.
Defined.

(** X2, witness: the movie-set entry for "重", with two tokens. *)
Lemma accepted_entry_tokens_witness :
  exists story,
    auditHanziElement asciiLower (utf16 "zhong/4") heavyEntry
    = ([], Value (Some story))
    /\ pinyinAndTones story = pinyinTokens (elText heavyEntry)
    /\ Forall
         (fun token =>
            token = noPronunciation
            \/ exists letters digit,
                 token = letters ++ digit
                 /\ letters <> [] /\ forallb isPinyinLetter letters = true
                 /\ (digit = [] \/ exists d, digit = [d] /\ isToneDigit d = true))
         (pinyinAndTones story)
    /\ length (translations story) = length (pinyinAndTones story).
Proof.
  eexists. split; [vm_compute; reflexivity|].
  apply (@accepted_entry_tokens asciiLower (utf16 "zhong/4") heavyEntry []).
  vm_compute. reflexivity.
Defined.

(** X3, witness: "重" under zhong/4 starts with zhong4. *)
Lemma accepted_entry_path_witness :
  exists story,
    auditHanziElement asciiLower (utf16 "zhong/4") heavyEntry
    = ([], Value (Some story))
    /\ nth_error (pinyinAndTones story) 0
       = Some (removeAll (unitOf "/") (utf16 "zhong/4")).
Proof.
  eexists. split; [vm_compute; reflexivity|].
  apply (@accepted_entry_path asciiLower (utf16 "zhong/4") heavyEntry []).
  vm_compute. reflexivity.
Defined.

(** X4, witness: the Old West entry for "牛". *)
Lemma accepted_entry_setting_witness :
  exists story,
    auditHanziElement asciiLower (utf16 "niu/2") cowEntry
    = ([], Value (Some story))
    /\ (if isMovieSetStory story then 1 else 0)
       + (if isOldWestStory story then 1 else 0)
       + (if isSciFiStory story then 1 else 0)
       + (if isPoliceDramaStory story then 1 else 0) <= 1.
Proof.
  eexists. split; [vm_compute; reflexivity|].
  apply (@accepted_entry_setting asciiLower (utf16 "niu/2") cowEntry []).
  vm_compute. reflexivity.
Defined.

(** X5, witness: the movie-set entry, with its four story lines. *)
Lemma accepted_entry_story_lines_witness :
  exists story,
    auditHanziElement asciiLower (utf16 "zhong/4") heavyEntry
    = ([], Value (Some story))
    /\ storyLines story
       = map elText (filter isStoryLineChild (childrenOf heavyEntry))
    /\ notes story
       = map (fun child => trim (sliceFrom 2 (elText child)))
             (filter isNoteChild (childrenOf heavyEntry))
    /\ (utf16 "zhong/4" <> noPronunciation -> storyLines story <> [])
    /\ (isMovieSetStory story = true -> 4 <= length (storyLines story)).
Proof.
  eexists. split; [vm_compute; reflexivity|].
  apply (@accepted_entry_story_lines asciiLower (utf16 "zhong/4") heavyEntry []).
  vm_compute. reflexivity.
Defined.

(** X6, witness: the Old West entry opens with "(Old West". *)
Lemma accepted_entry_opening_witness :
  exists story,
    auditHanziElement asciiLower (utf16 "niu/2") cowEntry
    = ([], Value (Some story))
    /\ (isOldWestStory story = true ->
        exists first others,
          storyLines story = first :: others
          /\ startsWith (utf16 "(Old West") first = true)
    /\ (isSciFiStory story = true ->
        exists first others,
          storyLines story = first :: others
          /\ startsWith (utf16 "(Sci-fi") first = true)
    /\ (isPoliceDramaStory story = true ->
        exists first others,
          storyLines story = first :: others
          /\ startsWith (utf16 "(Police drama") first = true)
    /\ (isWheelStory story = true ->
        exists first others,
          storyLines story = first :: others
          /\ includes (utf16 "wheel") (asciiLower first) = true)
    /\ (isPouringRainStory story = true ->
        exists line,
          In line (storyLines story)
          /\ includes (utf16 "pouring rain") (asciiLower line) = true).
Proof.
  eexists. split; [vm_compute; reflexivity|].
  apply (@accepted_entry_opening asciiLower (utf16 "niu/2") cowEntry []).
  vm_compute. reflexivity.
Defined.

(** X7, witness: the breakdown "female + horse". *)
Lemma accepted_entry_breakdown_witness :
  exists story,
    auditHanziElement asciiLower (utf16 "ma/1") motherEntry
    = ([], Value (Some story))
    /\ hanziBreakdown story = breakdownOf (childrenOf motherEntry)
    /\ (forall breakdown,
           hanziBreakdown story = Some breakdown -> breakdown <> [] ->
           2 <= length (split (unitOf "+") breakdown)
           /\ Forall (fun part => part <> []) (split (unitOf "+") breakdown)).
Proof.
  eexists. split; [vm_compute; reflexivity|].
  apply (@accepted_entry_breakdown asciiLower (utf16 "ma/1") motherEntry []).
  vm_compute. reflexivity.
Defined.

Lemma auditPath_ma1 : auditPath (utf16 "ma/1").
Proof.
  right. exists (utf16 "ma"), (utf16 "1"). split; vm_compute; reflexivity.
Qed.

Lemma auditPath_ju2 : auditPath (utf16 "ju/2").
Proof.
  right. exists (utf16 "ju"), (utf16 "2"). split; vm_compute; reflexivity.
Qed.

(** X9, witness: the entry for "妈" under ma/1. *)
Lemma pouring_rain_tag_never_accepted_witness :
  exists story,
    (auditPath (utf16 "ma/1")
     /\ auditHanziElement asciiLower (utf16 "ma/1") motherEntry
        = ([], Value (Some story)))
    /\ isPouringRainStory story = tagged (tags story) (utf16 "#🌧️")
    /\ isPouringRainStory story = false.
Proof.
  eexists. split; [split; [exact auditPath_ma1 | vm_compute; reflexivity]|].
  apply (@pouring_rain_tag_never_accepted asciiLower (utf16 "ma/1") motherEntry []);
    [exact auditPath_ma1 | vm_compute; reflexivity].
Defined.

(** X10, witness: the story of "句" under ju/2, whose first token is ju2. *)
Lemma pouring_rain_closure_never_fires_witness :
  (auditPath (utf16 "ju/2")
   /\ matchingPinyinSyllable (utf16 "ju/2") sentenceStory = ([], Value true))
  /\ storyWithPouringRainSyllableMustBePouringRainStory (utf16 "ju/2") sentenceStory
     = ([], Value true).
Proof.
  split; [split; [exact auditPath_ju2 | vm_compute; reflexivity]|].
  apply (@pouring_rain_closure_never_fires (utf16 "ju/2") sentenceStory);
    [exact auditPath_ju2 | vm_compute; reflexivity].
Defined.





(** X15, witness: a document whose anchor is a leaf. *)
Lemma audit_throws_before_first_entry_witness :
  (forall level1 firstPronunciation,
      outline anchorOnlyDocument = Some level1 ->
      nth_error level1 2 = Some firstPronunciation ->
      includes noPronunciation (elText firstPronunciation) = true
      /\ outline firstPronunciation = None)
  /\ auditHanziStories asciiLower anchorOnlyDocument = ([], Throw TypeError).
Proof.
  assert (H : forall level1 firstPronunciation,
             outline anchorOnlyDocument = Some level1 ->
             nth_error level1 2 = Some firstPronunciation ->
             includes noPronunciation (elText firstPronunciation) = true
             /\ outline firstPronunciation = None).
  { intros level1 first Hroot Hfirst.
    unfold anchorOnlyDocument, node, leaf in Hroot. cbn [outline] in Hroot.
    injection Hroot as <-. cbn [nth_error] in Hfirst. injection Hfirst as <-.
    split; vm_compute; reflexivity. }
  split; [exact H | exact (@audit_throws_before_first_entry asciiLower anchorOnlyDocument H)].
Defined.

(** X16, witness: for "妈" the roster keeps " ma1 | mother". *)
Lemma accepted_entry_in_roster_witness :
  exists story,
    auditHanziElement asciiLower (utf16 "ma/1") motherEntry
    = ([], Value (Some story))
    /\ Flashcards.hanzi (Flashcards.tupleOf (utf16 "ma/1") motherEntry) = hanzi story
    /\ exists rest translation,
         Flashcards.definition (Flashcards.tupleOf (utf16 "ma/1") motherEntry)
         = Some rest
         /\ Flashcards.specTranslation (elText motherEntry) = Some translation
         /\ translations story = map trim (split (unitOf ",") translation)
         /\ In (unitOf "|") rest
         /\ ~ In (unitOf "|") translation.
Proof.
  eexists. split; [vm_compute; reflexivity|].
  apply (@accepted_entry_in_roster asciiLower (utf16 "ma/1") (utf16 "ma/1")
           motherEntry []).
  vm_compute. reflexivity.
Defined.

(** X18, witness: the marker leaf of the small document. *)
Lemma marker_leaf_breaks_roster_witness :
  (outline smallDocument
   = Some [leaf "help"; leaf "legend";
           node "(no pronunciation)"
                [leaf "的: (no pronunciation) | of"; leaf "no colon here"];
           node "ma" [node "1" [motherEntry]; leaf "👅"];
           node "zhong" [node "4" [heavyEntry]]]
   /\ In (node "ma" [node "1" [motherEntry]; leaf "👅"])
         (skipn 3 [leaf "help"; leaf "legend";
                   node "(no pronunciation)"
                        [leaf "的: (no pronunciation) | of"; leaf "no colon here"];
                   node "ma" [node "1" [motherEntry]; leaf "👅"];
                   node "zhong" [node "4" [heavyEntry]]])
   /\ outline (node "ma" [node "1" [motherEntry]; leaf "👅"])
      = Some [node "1" [motherEntry]; leaf "👅"]
   /\ In (leaf "👅") [node "1" [motherEntry]; leaf "👅"]
   /\ elText (leaf "👅") = tongue
   /\ outline (leaf "👅") = None)
  /\ Flashcards.loadAllHanziChars smallDocument = ([], Throw TypeError)
  /\ forall syllable,
       auditToneLevel asciiLower syllable (leaf "👅") = ([], Value tt).
Proof.
  assert (H1 : In (node "ma" [node "1" [motherEntry]; leaf "👅"])
                 (skipn 3 [leaf "help"; leaf "legend";
                   node "(no pronunciation)"
                        [leaf "的: (no pronunciation) | of"; leaf "no colon here"];
                   node "ma" [node "1" [motherEntry]; leaf "👅"];
                   node "zhong" [node "4" [heavyEntry]]]))
    by (left; reflexivity).
  assert (H2 : In (leaf "👅") [node "1" [motherEntry]; leaf "👅"])
    by (right; left; reflexivity).
  split; [repeat (split; [first [reflexivity | assumption]|]); reflexivity|].
  exact (@marker_leaf_breaks_roster asciiLower smallDocument _ (leaf "👅") _ _
           eq_refl H1 eq_refl H2 eq_refl eq_refl).
Defined.

Lemma rosterDocument_entry :
  In (utf16 "ma/1", motherEntry) (auditedEntries rosterDocument).
Proof. vm_compute. right. right. left. reflexivity. Qed.

(** X19, witness: "妈" in the roster document. *)
Lemma audited_entry_in_roster_witness :
  exists hanziChars story,
    (Flashcards.loadAllHanziChars rosterDocument = ([], Value hanziChars)
     /\ In (utf16 "ma/1", motherEntry) (auditedEntries rosterDocument)
     /\ auditHanziElement asciiLower (utf16 "ma/1") motherEntry
        = ([], Value (Some story)))
    /\ exists hanziChar,
         In hanziChar hanziChars
         /\ Flashcards.hanzi hanziChar = hanzi story
         /\ Flashcards.path hanziChar = utf16 "ma/1".
Proof.
  do 2 eexists.
  split; [split; [vm_compute; reflexivity
                 | split; [exact rosterDocument_entry | vm_compute; reflexivity]]|].
  apply (@audited_entry_in_roster asciiLower rosterDocument _ (utf16 "ma/1")
           motherEntry []);
    [vm_compute; reflexivity | exact rosterDocument_entry | vm_compute; reflexivity].
Defined.

(** X20, witness: the card "的 [de]" of the small deck. *)
Lemma lookup_report_witness :
  (Deck.findCards (Lookup.query Deck.ofChar) = Some [1%N]
   /\ [1%N] <> []
   /\ Deck.cardsInfo [1%N] = Some [Some (utf16 "的 [de]")])
  /\ Lookup.findHanziFlashcard Deck.findCards Deck.cardsInfo Deck.ofChar
     = (if existsb
             (fun question => existsb Lookup.isSeparator (toStringArg question))
             [Some (utf16 "的 [de]")]
        then []
        else [Lookup.describe Deck.ofChar
              ++ utf16 " in Anki does not stand by itself."],
        Lookup.Resumed).
Proof.
  split; [split; [vm_compute; reflexivity
                 | split; [discriminate | vm_compute; reflexivity]]|].
  apply (@lookup_report Deck.findCards Deck.cardsInfo Deck.ofChar [1%N]);
    [vm_compute; reflexivity | discriminate | vm_compute; reflexivity].
Defined.

(** X21, witness: the card "妈" of the small deck. *)
Lemma bare_card_reported_witness :
  (Deck.findCards (Lookup.query Deck.motherChar) = Some [2%N]
   /\ [2%N] <> []
   /\ Deck.cardsInfo [2%N] = Some [Some (utf16 "妈")]
   /\ Forall (fun question => question = Some (Flashcards.hanzi Deck.motherChar))
             [Some (utf16 "妈")]
   /\ existsb Lookup.isSeparator (Flashcards.hanzi Deck.motherChar) = false)
  /\ Lookup.findHanziFlashcard Deck.findCards Deck.cardsInfo Deck.motherChar
     = ([Lookup.describe Deck.motherChar
         ++ utf16 " in Anki does not stand by itself."],
        Lookup.Resumed).
Proof.
  assert (H : Forall (fun question => question = Some (Flashcards.hanzi Deck.motherChar))
                     [Some (utf16 "妈")]).
  { constructor; [vm_compute; reflexivity | constructor]. }
  split; [split; [vm_compute; reflexivity
                 | split; [discriminate
                          | split; [vm_compute; reflexivity
                                   | split; [exact H | vm_compute; reflexivity]]]]|].
  apply (@bare_card_reported Deck.findCards Deck.cardsInfo Deck.motherChar [2%N]
           [Some (utf16 "妈")]);
    [vm_compute; reflexivity | discriminate | vm_compute; reflexivity | exact H
     | vm_compute; reflexivity].
Defined.


(** X22, witness: the small deck gives no answer for the fourth
    character. *)
Lemma lookups_stop_at_failure_witness :
  (Forall
     (fun hanziChar =>
        snd (Lookup.findHanziFlashcard Deck.findCards Deck.cardsInfo hanziChar)
        = Lookup.Resumed)
     [Deck.ofChar; Deck.strayChar; Deck.motherChar]
   /\ snd (Lookup.findHanziFlashcard Deck.findCards Deck.cardsInfo Deck.heavyChar)
      = Lookup.Exited (Lookup.FindCardsFailed (Lookup.query Deck.heavyChar)))
  /\ Lookup.findHanziFlashcards Deck.findCards Deck.cardsInfo
       ([Deck.ofChar; Deck.strayChar; Deck.motherChar]
        ++ Deck.heavyChar :: [Deck.motherChar])
     = (flat_map
          (fun hanziChar =>
             fst (Lookup.findHanziFlashcard Deck.findCards Deck.cardsInfo hanziChar))
          [Deck.ofChar; Deck.strayChar; Deck.motherChar],
        Lookup.Exited (Lookup.FindCardsFailed (Lookup.query Deck.heavyChar)))
  /\ Lookup.findHanziFlashcard Deck.findCards Deck.cardsInfo Deck.heavyChar
     = Lookup.logErrorAndExit (Lookup.FindCardsFailed (Lookup.query Deck.heavyChar))
  /\ (Deck.findCards (Lookup.query Deck.heavyChar) = None
      /\ Lookup.FindCardsFailed (Lookup.query Deck.heavyChar)
         = Lookup.FindCardsFailed (Lookup.query Deck.heavyChar)
      \/ exists cardIds,
           Deck.findCards (Lookup.query Deck.heavyChar) = Some cardIds
           /\ Deck.cardsInfo cardIds = None
           /\ Lookup.FindCardsFailed (Lookup.query Deck.heavyChar)
              = Lookup.CardsInfoFailed cardIds).
Proof.
  assert (H : Forall
     (fun hanziChar =>
        snd (Lookup.findHanziFlashcard Deck.findCards Deck.cardsInfo hanziChar)
        = Lookup.Resumed)
     [Deck.ofChar; Deck.strayChar; Deck.motherChar]).
  { repeat (constructor; [vm_compute; reflexivity|]). constructor. }
  split; [split; [exact H | vm_compute; reflexivity]|].
  apply (@lookups_stop_at_failure Deck.findCards Deck.cardsInfo
           [Deck.ofChar; Deck.strayChar; Deck.motherChar] [Deck.motherChar]
           Deck.heavyChar);
    [exact H | vm_compute; reflexivity].
Defined.

(** The lines the small deck gives, in roster order: the bare card and
    the missing one are reported, the one with a bracket is not. *)
Example lookups_small_deck :
  Lookup.findHanziFlashcards Deck.findCards Deck.cardsInfo
    [Deck.ofChar; Deck.strayChar; Deck.motherChar]
  = ([utf16 "(no pronunciation): Hanzi char no colon here (undefined) not found in Anki.";
      utf16 "ma/1: Hanzi char 妈 ( ma1 | mother) in Anki does not stand by itself."],
     Lookup.Resumed).
Proof. vm_compute. reflexivity. Qed.

Lemma strayDocument_anchor :
  forall level1 firstPronunciation,
    outline strayDocument = Some level1 ->
    nth_error level1 2 = Some firstPronunciation ->
    includes noPronunciation (elText firstPronunciation) = true.
Proof.
  intros level1 first Hroot Hfirst.
  unfold strayDocument, node, leaf in Hroot. cbn [outline] in Hroot.
  injection Hroot as <-. cbn [nth_error] in Hfirst. injection Hfirst as <-.
  vm_compute. reflexivity.
Qed.

(** X23, witness: a document with one entry that has no character. *)
Lemma frequency_loader_agrees_witness :
  exists hanziChars,
    (Flashcards.loadAllHanziChars strayDocument = ([], Value hanziChars)
     /\ (forall level1 firstPronunciation,
            outline strayDocument = Some level1 ->
            nth_error level1 2 = Some firstPronunciation ->
            includes noPronunciation (elText firstPronunciation) = true))
    /\ Frequency.loadHanziChars strayDocument
       = (map (fun _ => Frequency.notFound)
              (filter (fun hanziChar =>
                         (length (Flashcards.hanzi hanziChar) =? 0)%nat)
                      hanziChars),
          Value (filter (fun key => negb (length key =? 0)%nat)
                        (map Flashcards.hanzi hanziChars))).
Proof.
  eexists.
  split; [split; [vm_compute; reflexivity | exact strayDocument_anchor]|].
  apply (@frequency_loader_agrees strayDocument);
    [vm_compute; reflexivity | exact strayDocument_anchor].
Defined.

(** The entry without a character is complained about and the two
    others are loaded. *)
Example frequency_stray_document :
  Frequency.loadHanziChars strayDocument
  = ([Frequency.notFound], Value [utf16 "的"; utf16 "妈"]).
Proof. vm_compute. reflexivity. Qed.

(** * The nodes of the parser

    The flattening traversal and the audit of one entry on nodes that
    may lack their attributes. *)

(** ** The traversal on labelled trees *)

Lemma raw_dollar_embed (e : Element) :
  Raw.dollar (Raw.embed e) = Some (Some (elText e)).
Proof. destruct e; reflexivity. Qed.

Lemma raw_outline_embed (e : Element) :
  Raw.outline (Raw.embed e) = option_map (map Raw.embed) (outline e).
Proof. destruct e as [t [c|]]; reflexivity. Qed.

Lemma raw_text_embed (e : Element) :
  Raw.text (Raw.embed e) = ret (Some (elText e)).
Proof. unfold Raw.text. rewrite raw_dollar_embed. reflexivity. Qed.

Lemma raw_hanziCharOf_embed (path : jsstring) (e : Element) :
  Raw.hanziCharOf path (Raw.embed e) = Flashcards.tupleOf path e.
Proof.
  unfold Raw.hanziCharOf, Raw.labelOf, Flashcards.tupleOf.
  rewrite raw_dollar_embed. reflexivity.
Qed.

Lemma raw_labelled_embed (l : list Element) :
  forallb Raw.labelled (map Raw.embed l) = true.
Proof.
  induction l as [|e l IH]; [reflexivity|].
  cbn [map forallb]. unfold Raw.labelled at 1. rewrite raw_dollar_embed. exact IH.
Qed.

Lemma raw_loadChildHanziChars_embed (hanziElements : option (list Element))
  (path : jsstring) :
  Raw.loadChildHanziChars (option_map (map Raw.embed) hanziElements) path
  = Flashcards.loadChildHanziChars hanziElements path.
Proof.
  rewrite raw_loadChildHanziChars_spec.
  destruct hanziElements as [l|]; cbn [option_map Raw.entriesPresent]; [|reflexivity].
  rewrite raw_labelled_embed, loadChildHanziChars_spec, map_map.
  unfold ret. do 2 f_equal. apply map_ext. intros e. apply raw_hanziCharOf_embed.
Qed.

Lemma raw_loadToneLevel_embed syllable acc toneElement :
  Raw.loadToneLevel (Some syllable) acc (Raw.embed toneElement)
  = Flashcards.loadToneLevel syllable acc toneElement.
Proof.
  unfold Raw.loadToneLevel, Flashcards.loadToneLevel.
  refine (bind_ext _ _ _ _). intros hanziChars.
  rewrite raw_text_embed, bind_ret_l. cbn [Raw.strictEq toStringArg].
  rewrite raw_outline_embed, raw_loadChildHanziChars_embed. reflexivity.
Qed.

Lemma raw_loadToneLevel_fold_embed syllable toneElements acc :
  fold_left (Raw.loadToneLevel (Some syllable)) (map Raw.embed toneElements) acc
  = fold_left (Flashcards.loadToneLevel syllable) toneElements acc.
Proof.
  revert acc. induction toneElements as [|t l IH]; intros acc; [reflexivity|].
  cbn [map fold_left]. rewrite raw_loadToneLevel_embed. apply IH.
Qed.

Lemma raw_loadPronunciation_embed acc pronunciation :
  Raw.loadPronunciation acc (Raw.embed pronunciation)
  = Flashcards.loadPronunciation acc pronunciation.
Proof.
  unfold Raw.loadPronunciation, Flashcards.loadPronunciation.
  refine (bind_ext _ _ _ _). intros hanziChars.
  rewrite raw_text_embed, bind_ret_l, raw_outline_embed. cbv zeta.
  destruct (outline pronunciation) as [tones|]; cbn [option_map defined];
    [|reflexivity].
  rewrite !bind_ret_l. apply raw_loadToneLevel_fold_embed.
Qed.

Lemma raw_loadPronunciation_fold_embed pronunciationElements acc :
  fold_left Raw.loadPronunciation (map Raw.embed pronunciationElements) acc
  = fold_left Flashcards.loadPronunciation pronunciationElements acc.
Proof.
  revert acc. induction pronunciationElements as [|t l IH]; intros acc;
    [reflexivity|].
  cbn [map fold_left]. rewrite raw_loadPronunciation_embed. apply IH.
Qed.

Lemma skipn_map_embed (n : nat) (l : list Element) :
  skipn n (map Raw.embed l) = map Raw.embed (skipn n l).
Proof.
  revert l. induction n as [|n IH]; intros [|x l]; cbn [skipn map];
    [reflexivity | reflexivity | reflexivity | apply IH].
Qed.

(** On a tree whose nodes all carry their label the traversal over the
    nodes of the parser is the traversal over [Element]. *)
Lemma raw_loadAllHanziChars_embed (pronunciations : Element) :
  Raw.loadAllHanziChars (Raw.embed pronunciations)
  = Flashcards.loadAllHanziChars pronunciations.
Proof.
  unfold Raw.loadAllHanziChars, Flashcards.loadAllHanziChars.
  rewrite raw_outline_embed.
  destruct (outline pronunciations) as [level1|]; cbn [option_map defined];
    [|reflexivity].
  rewrite !bind_ret_l, nth_error_map.
  destruct (nth_error level1 2) as [first|]; cbn [option_map defined];
    [|reflexivity].
  rewrite !bind_ret_l. cbv zeta.
  rewrite raw_outline_embed, raw_loadChildHanziChars_embed.
  refine (bind_ext _ _ _ _). intros hanziChars.
  rewrite skipn_map_embed. apply raw_loadPronunciation_fold_embed.
Qed.

(** X17. The flattening traversal writes nothing to the console; on a
    tree it gets through it returns one object per story entry, in
    document order, and on every other tree (a tier that is missing, a
    node without attributes, an entry without text) it throws. *)
Theorem flattening_outcome (pronunciations : Raw.Outline) :
  Raw.loadAllHanziChars pronunciations
  = if Raw.wellShaped pronunciations
    then ([], Value (Raw.roster pronunciations))
    else ([], Throw TypeError).
Proof. apply raw_loadAllHanziChars_outcome. Qed.

(** X24. On a tree whose nodes all carry their label, the traversal over
    the nodes of the parser is the traversal over [Element]. *)
Theorem flattening_on_labelled_trees (pronunciations : Element) :
  Raw.loadAllHanziChars (Raw.embed pronunciations)
  = Flashcards.loadAllHanziChars pronunciations.
Proof. apply raw_loadAllHanziChars_embed. Qed.

(** ** [parseChildren] on the nodes of the parser *)

Lemma undefined_no_marker :
  test reBreakdownMarker (toStringArg None) = false
  /\ test reNoteMarker (toStringArg None) = false.
Proof. split; vm_compute; reflexivity. Qed.

Lemma notes_setNotes v s : notes (setNotes v s) = v.
Proof. destruct s; reflexivity. Qed.

Lemma hanziBreakdown_setNotes v s : hanziBreakdown (setNotes v s) = hanziBreakdown s.
Proof. destruct s; reflexivity. Qed.

Lemma notes_setHanziBreakdown v s : notes (setHanziBreakdown v s) = notes s.
Proof. destruct s; reflexivity. Qed.

Lemma hanziBreakdown_setHanziBreakdown v s :
  hanziBreakdown (setHanziBreakdown v s) = v.
Proof. destruct s; reflexivity. Qed.

(** The loop of [parseChildren], from any index on. *)
Lemma raw_parseChildrenFrom_spec (path : jsstring) (children : list Raw.Outline) :
  forall (i : nat) (first encountered : bool) (s : Raw.RawStory),
    first = (i =? 0) ->
    (encountered = true -> first = false) ->
    match Raw.loopVerdict first children with
    | Raw.Throws =>
      Raw.parseChildrenFrom path i children encountered s = ([], Throw TypeError)
    | Raw.Refuses =>
      exists line s',
        Raw.parseChildrenFrom path i children encountered s
        = ([line], Value (false, s'))
    | Raw.Accepts =>
      exists s',
        Raw.parseChildrenFrom path i children encountered s
        = ([], Value (true, s'))
        /\ sameHeader (Raw.story s) (Raw.story s')
        /\ Raw.rawLines s'
           = Raw.rawLines s
             ++ map Raw.textOf (filter Raw.isStoryLineChild children)
        /\ notes (Raw.story s')
           = notes (Raw.story s)
             ++ map (fun child => trim (sliceFrom 2 (toStringArg (Raw.textOf child))))
                    (filter Raw.isNoteChild children)
        /\ hanziBreakdown (Raw.story s')
           = match (if first then Raw.breakdownOf children else None) with
             | Some breakdown => Some breakdown
             | None => hanziBreakdown (Raw.story s)
             end
    end.
Proof.
  induction children as [|child rest IH]; intros i first encountered s Hfirst Henc.
  - cbn [Raw.loopVerdict Raw.parseChildrenFrom filter map Raw.breakdownOf].
    exists s. rewrite !app_nil_r.
    split; [reflexivity|]. split; [apply sameHeader_refl|].
    split; [reflexivity|]. split; [reflexivity|].
    destruct first; reflexivity.
  - cbn [Raw.loopVerdict Raw.parseChildrenFrom].
    destruct (Raw.hasChildNodes child); [cbn; eauto|].
    unfold Raw.text.
    destruct (Raw.dollar child) as [text|] eqn:Hdollar; [|reflexivity].
    cbn [defined]. rewrite !bind_ret_l.
    assert (Htext : Raw.textOf child = text)
      by (unfold Raw.textOf; rewrite Hdollar; reflexivity).
    unfold Raw.isBreakdownChild. rewrite Htext.
    destruct (test reBreakdownMarker (toStringArg text)) eqn:Hb.
    + (* a breakdown child *)
      destruct text as [t|];
        [|exfalso; destruct undefined_no_marker as (Hu & _); congruence].
      cbn [toStringArg] in Hb.
      destruct first; cbn [negb andb].
      * (* at index 0 *)
        assert (Hi : i = 0) by (symmetry in Hfirst; apply Nat.eqb_eq in Hfirst; exact Hfirst).
        subst i. destruct encountered; [specialize (Henc eq_refl); discriminate|].
        cbn [Nat.eqb negb defined]. rewrite bind_ret_l.
        specialize (IH 1 false true
          (Raw.mkRawStory (setHanziBreakdown (Some (trim (sliceFrom 2 t))) (Raw.story s))
                          (Raw.rawLines s)) eq_refl (fun _ => eq_refl)).
        destruct (Raw.loopVerdict false rest); [|exact IH|exact IH].
        destruct IH as (s' & Hrun & Hsame & Hlines & Hnotes & Hbreak).
        exists s'. split; [exact Hrun|].
        cbn [Raw.story Raw.rawLines] in Hsame, Hlines, Hnotes, Hbreak.
        split; [eapply sameHeader_trans; [apply sameHeader_setHanziBreakdown | exact Hsame]|].
        cbn [filter]. unfold Raw.isStoryLineChild at 1, Raw.isNoteChild at 1.
        rewrite Htext. cbn [toStringArg]. rewrite Hb. cbn [negb andb].
        split; [exact Hlines|].
        split; [rewrite Hnotes, notes_setHanziBreakdown; reflexivity|].
        rewrite Hbreak, hanziBreakdown_setHanziBreakdown.
        cbn [Raw.breakdownOf]. unfold Raw.isBreakdownChild.
        rewrite Htext. cbn [toStringArg]. rewrite Hb. reflexivity.
      * (* later *)
        destruct encountered; [cbn; eauto|].
        rewrite <- Hfirst. cbn [negb]. cbn. eauto.
    + (* not a breakdown child *)
      cbn [andb].
      destruct (test reNoteMarker (toStringArg text)) eqn:Hn.
      * destruct text as [t|];
          [|exfalso; destruct undefined_no_marker as (_ & Hu); congruence].
        cbn [toStringArg] in Hb, Hn.
        cbn [defined]. rewrite bind_ret_l.
        specialize (IH (S i) false encountered
          (Raw.mkRawStory
             (setNotes (notes (Raw.story s) ++ [trim (sliceFrom 2 t)]) (Raw.story s))
             (Raw.rawLines s)) eq_refl (fun _ => eq_refl)).
        destruct (Raw.loopVerdict false rest); [|exact IH|exact IH].
        destruct IH as (s' & Hrun & Hsame & Hlines & Hnotes & Hbreak).
        exists s'. split; [exact Hrun|].
        cbn [Raw.story Raw.rawLines] in Hsame, Hlines, Hnotes, Hbreak.
        split; [eapply sameHeader_trans; [apply sameHeader_setNotes | exact Hsame]|].
        cbn [filter]. unfold Raw.isStoryLineChild at 1, Raw.isNoteChild at 1.
        rewrite Htext. cbn [toStringArg]. rewrite Hb, Hn. cbn [negb andb map].
        split; [exact Hlines|].
        split; [rewrite Hnotes, notes_setNotes, <- app_assoc, Htext; reflexivity|].
        rewrite Hbreak, hanziBreakdown_setNotes. cbn [Raw.breakdownOf].
        unfold Raw.isBreakdownChild.
        rewrite Htext. cbn [toStringArg]. rewrite Hb.
        destruct first; reflexivity.
      * specialize (IH (S i) false encountered
          (Raw.mkRawStory (Raw.story s) (Raw.rawLines s ++ [text]))
          eq_refl (fun _ => eq_refl)).
        destruct (Raw.loopVerdict false rest); [|exact IH|exact IH].
        destruct IH as (s' & Hrun & Hsame & Hlines & Hnotes & Hbreak).
        exists s'. split; [exact Hrun|].
        cbn [Raw.story Raw.rawLines] in Hsame, Hlines, Hnotes, Hbreak.
        split; [exact Hsame|].
        cbn [filter]. unfold Raw.isStoryLineChild at 1, Raw.isNoteChild at 1.
        rewrite Htext, Hb, Hn. cbn [negb andb map].
        split; [rewrite Hlines, Htext, <- app_assoc; reflexivity|].
        split; [exact Hnotes|].
        rewrite Hbreak. cbn [Raw.breakdownOf]. unfold Raw.isBreakdownChild.
        rewrite Htext, Hb. destruct first; reflexivity.
Qed.

(** What [parseChildren] does, whatever the entry and the story. *)
Lemma raw_parseChildren_spec (path : jsstring) (hanziElement : Raw.Outline)
  (s : Raw.RawStory) :
  match Raw.verdict path hanziElement with
  | Raw.Throws =>
    Raw.parseChildren path hanziElement s = ([], Throw TypeError)
  | Raw.Refuses =>
    exists line s',
      Raw.parseChildren path hanziElement s = ([line], Value (false, s'))
  | Raw.Accepts =>
    exists s',
      Raw.parseChildren path hanziElement s = ([], Value (true, s'))
      /\ sameHeader (Raw.story s) (Raw.story s')
      /\ Raw.rawLines s'
         = map Raw.textOf
               (filter Raw.isStoryLineChild (Raw.childrenOf hanziElement))
      /\ notes (Raw.story s')
         = map (fun child => trim (sliceFrom 2 (toStringArg (Raw.textOf child))))
               (filter Raw.isNoteChild (Raw.childrenOf hanziElement))
      /\ hanziBreakdown (Raw.story s')
         = match Raw.breakdownOf (Raw.childrenOf hanziElement) with
           | Some breakdown => Some breakdown
           | None => hanziBreakdown (Raw.story s)
           end
  end.
Proof.
  unfold Raw.verdict, Raw.parseChildren, Raw.childrenOf. cbv zeta.
  destruct (Raw.noChildren (Raw.outline hanziElement)
            && negb (streq path noPronunciation)); [cbn; eauto|].
  destruct (Raw.outline hanziElement) as [children|].
  - pose proof (@raw_parseChildrenFrom_spec path children 0 true false
                  (Raw.mkRawStory (setNotes [] (Raw.story s)) [])
                  eq_refl (fun H => ltac:(discriminate H))) as H.
    destruct (Raw.loopVerdict true children); [|exact H|exact H].
    destruct H as (s' & Hrun & Hsame & Hlines & Hnotes & Hbreak).
    exists s'. split; [exact Hrun|].
    cbn [Raw.story Raw.rawLines app] in Hsame, Hlines, Hnotes, Hbreak.
    split; [eapply sameHeader_trans; [apply sameHeader_setNotes | exact Hsame]|].
    split; [exact Hlines|].
    split; [rewrite Hnotes, notes_setNotes; reflexivity|].
    rewrite Hbreak, hanziBreakdown_setNotes. reflexivity.
  - cbn [Raw.loopVerdict].
    exists (Raw.mkRawStory (setNotes [] (Raw.story s)) []).
    split; [reflexivity|]. cbn [Raw.story Raw.rawLines filter map Raw.breakdownOf].
    split; [apply sameHeader_setNotes|]. split; [reflexivity|].
    split; [apply notes_setNotes | apply hanziBreakdown_setNotes].
Qed.

(** X8. [parseChildren] ends in one of three ways, which the children
    decide. It throws, with nothing written, when its loop meets a child
    without attributes before it meets a reason to refuse. It refuses,
    with exactly one line, when the entry has no child outside the root
    group, when a child has children of its own, or when a breakdown
    child comes after the first position. Otherwise it accepts, writes
    nothing, and files every child as breakdown, note or story line (a
    child with attributes but no text is a story line without text). *)
Theorem parseChildren_verdict (path : jsstring) (hanziElement : Raw.Outline)
  (s : Raw.RawStory) :
  match Raw.verdict path hanziElement with
  | Raw.Throws =>
    Raw.parseChildren path hanziElement s = ([], Throw TypeError)
  | Raw.Refuses =>
    exists line s',
      Raw.parseChildren path hanziElement s = ([line], Value (false, s'))
  | Raw.Accepts =>
    exists s',
      Raw.parseChildren path hanziElement s = ([], Value (true, s'))
      /\ Raw.rawLines s' = Raw.storyLinesOf hanziElement
      /\ notes (Raw.story s')
         = map (fun child => trim (sliceFrom 2 (toStringArg (Raw.textOf child))))
               (filter Raw.isNoteChild (Raw.childrenOf hanziElement))
      /\ hanziBreakdown (Raw.story s')
         = match Raw.breakdownOf (Raw.childrenOf hanziElement) with
           | Some breakdown => Some breakdown
           | None => hanziBreakdown (Raw.story s)
           end
  end.
Proof.
  pose proof (raw_parseChildren_spec path hanziElement s) as H.
  destruct (Raw.verdict path hanziElement); [|exact H|exact H].
  destruct H as (s' & Hrun & _ & Hlines & Hnotes & Hbreak).
  exists s'. auto.
Qed.

(** The three verdicts, and an accepted entry whose child has no
    text. *)
Example raw_verdicts :
  Raw.verdict (utf16 "ma/1") (Raw.embed motherEntry) = Raw.Accepts
  /\ Raw.verdict (utf16 "ma/1") (Raw.embed (leaf "妈: ma1 | mother")) = Raw.Refuses
  /\ Raw.verdict (utf16 "ma/1") orphanedEntry = Raw.Throws
  /\ Raw.verdict (utf16 "lun/2") muteWheelEntry = Raw.Accepts.
Proof. repeat split; vm_compute; reflexivity. Qed.

(** ** The audit of an entry whose nodes all carry their label *)

Lemma raise_setHanziBreakdown v s :
  Raw.raise (setHanziBreakdown v s)
  = Raw.mkRawStory (setHanziBreakdown v (Raw.story (Raw.raise s)))
                   (Raw.rawLines (Raw.raise s)).
Proof. destruct s; reflexivity. Qed.

Lemma raise_setNotes v s :
  Raw.raise (setNotes v s)
  = Raw.mkRawStory (setNotes v (Raw.story (Raw.raise s)))
                   (Raw.rawLines (Raw.raise s)).
Proof. destruct s; reflexivity. Qed.

Lemma raise_setStoryLines v s :
  Raw.raise (setStoryLines v s)
  = Raw.mkRawStory (Raw.story (Raw.raise s)) (map Some v).
Proof. destruct s; reflexivity. Qed.

Lemma raise_hanzi s : hanzi (Raw.story (Raw.raise s)) = hanzi s.
Proof. destruct s; reflexivity. Qed.

Lemma raise_notes s : notes (Raw.story (Raw.raise s)) = notes s.
Proof. destruct s; reflexivity. Qed.

Lemma raise_rawLines s : Raw.rawLines (Raw.raise s) = map Some (storyLines s).
Proof. reflexivity. Qed.

Lemma raw_hasChildNodes_embed (e : Element) :
  Raw.hasChildNodes (Raw.embed e) = hasChildNodes e.
Proof.
  unfold Raw.hasChildNodes, hasChildNodes. rewrite raw_outline_embed.
  destruct (outline e) as [[|c l]|]; reflexivity.
Qed.

Lemma raw_parseChildrenFrom_embed (path : jsstring) (children : list Element) :
  forall (i : nat) (encountered : bool) (s : Story),
    Raw.parseChildrenFrom path i (map Raw.embed children) encountered (Raw.raise s)
    = (parsed <- parseChildrenFrom path i children encountered s ;;
       ret (fst parsed, Raw.raise (snd parsed))).
Proof.
  induction children as [|child rest IH]; intros i encountered s;
    cbn [map Raw.parseChildrenFrom parseChildrenFrom].
  - rewrite bind_ret_l. reflexivity.
  - rewrite raw_hasChildNodes_embed, raise_hanzi.
    destruct (hasChildNodes child); [reflexivity|].
    rewrite raw_text_embed, bind_ret_l. cbn [toStringArg defined]. cbv zeta.
    destruct (test reBreakdownMarker (elText child)).
    + destruct encountered; [reflexivity|].
      destruct (negb (i =? 0)); [reflexivity|].
      rewrite bind_ret_l, <- raise_setHanziBreakdown. apply IH.
    + destruct (test reNoteMarker (elText child)).
      * rewrite bind_ret_l, raise_notes, <- raise_setNotes. apply IH.
      * rewrite raise_rawLines.
        change [Some (elText child)] with (map Some [elText child]).
        rewrite <- map_app, <- raise_setStoryLines. apply IH.
Qed.

Lemma raw_noChildren_embed (children : option (list Element)) :
  Raw.noChildren (option_map (map Raw.embed) children) = noChildren children.
Proof. destruct children as [[|c l]|]; reflexivity. Qed.

Lemma raw_parseChildren_embed (path : jsstring) (hanziElement : Element)
  (s : Story) :
  Raw.parseChildren path (Raw.embed hanziElement) (Raw.raise s)
  = (parsed <- parseChildren path hanziElement s ;;
     ret (fst parsed, Raw.raise (snd parsed))).
Proof.
  unfold Raw.parseChildren, parseChildren. cbv zeta.
  rewrite raw_outline_embed, raw_noChildren_embed, raise_hanzi.
  destruct (noChildren (outline hanziElement) && negb (streq path noPronunciation));
    [reflexivity|].
  assert (Hs : Raw.mkRawStory (setNotes [] (Raw.story (Raw.raise s))) []
               = Raw.raise (setNotes [] (setStoryLines [] s)))
    by (destruct s; reflexivity).
  rewrite Hs.
  destruct (outline hanziElement) as [children|]; cbn [option_map].
  - apply raw_parseChildrenFrom_embed.
  - rewrite bind_ret_l. reflexivity.
Qed.

(** The rules agree on a story and the same story with its lines put
    beside it. *)
Lemma wheelStoryValid_raise p s :
  wheelStoryValid p (Raw.story (Raw.raise s)) = wheelStoryValid p s.
Proof. destruct s; reflexivity. Qed.

Lemma hanziBreakdownValid_raise p s :
  hanziBreakdownValid p (Raw.story (Raw.raise s)) = hanziBreakdownValid p s.
Proof. destruct s; reflexivity. Qed.

Lemma storyTypeValid_raise p s :
  storyTypeValid p (Raw.story (Raw.raise s)) = storyTypeValid p s.
Proof. destruct s; reflexivity. Qed.

Lemma pouringRainStoryMustHaveEligibleSyllable_raise p s :
  pouringRainStoryMustHaveEligibleSyllable p (Raw.story (Raw.raise s))
  = pouringRainStoryMustHaveEligibleSyllable p s.
Proof. destruct s; reflexivity. Qed.

Lemma storyWithPouringRainSyllableMustBePouringRainStory_raise p s :
  storyWithPouringRainSyllableMustBePouringRainStory p (Raw.story (Raw.raise s))
  = storyWithPouringRainSyllableMustBePouringRainStory p s.
Proof. destruct s; reflexivity. Qed.

Lemma firstLine_raise s :
  Raw.firstLine (Raw.raise s) = nth_error (storyLines s) 0.
Proof.
  unfold Raw.firstLine. rewrite raise_rawLines.
  destruct (storyLines s); reflexivity.
Qed.

Lemma atLeastOneStoryLine_raise p s :
  Raw.atLeastOneStoryLine p (Raw.raise s) = atLeastOneStoryLine p s.
Proof.
  unfold Raw.atLeastOneStoryLine, atLeastOneStoryLine.
  rewrite raise_rawLines, length_map, raise_hanzi. reflexivity.
Qed.

Lemma movieSetStoryHasAtLeastFourStoryLines_raise p s :
  Raw.movieSetStoryHasAtLeastFourStoryLines p (Raw.raise s)
  = movieSetStoryHasAtLeastFourStoryLines p s.
Proof.
  unfold Raw.movieSetStoryHasAtLeastFourStoryLines,
    movieSetStoryHasAtLeastFourStoryLines.
  rewrite raise_rawLines, length_map, raise_hanzi. destruct s; reflexivity.
Qed.

Lemma oldWestStoryMustBeginWithCorrectPattern_raise p s :
  Raw.oldWestStoryMustBeginWithCorrectPattern p (Raw.raise s)
  = oldWestStoryMustBeginWithCorrectPattern p s.
Proof.
  unfold Raw.oldWestStoryMustBeginWithCorrectPattern,
    oldWestStoryMustBeginWithCorrectPattern.
  rewrite firstLine_raise, raise_hanzi. destruct s; reflexivity.
Qed.

Lemma sciFiStoryMustBeginWithCorrectPattern_raise p s :
  Raw.sciFiStoryMustBeginWithCorrectPattern p (Raw.raise s)
  = sciFiStoryMustBeginWithCorrectPattern p s.
Proof.
  unfold Raw.sciFiStoryMustBeginWithCorrectPattern,
    sciFiStoryMustBeginWithCorrectPattern.
  rewrite firstLine_raise, raise_hanzi. destruct s; reflexivity.
Qed.

Lemma policeDramaStoryMustBeginWithCorrectPattern_raise p s :
  Raw.policeDramaStoryMustBeginWithCorrectPattern p (Raw.raise s)
  = policeDramaStoryMustBeginWithCorrectPattern p s.
Proof.
  unfold Raw.policeDramaStoryMustBeginWithCorrectPattern,
    policeDramaStoryMustBeginWithCorrectPattern.
  rewrite firstLine_raise, raise_hanzi. destruct s; reflexivity.
Qed.

Section RawAuditRefines.
Variable toLowerCase : jsstring -> jsstring.

Lemma wheelStoryMentionsWheel_raise p s :
  Raw.wheelStoryMentionsWheel toLowerCase p (Raw.raise s)
  = wheelStoryMentionsWheel toLowerCase p s.
Proof.
  unfold Raw.wheelStoryMentionsWheel, wheelStoryMentionsWheel.
  rewrite firstLine_raise, raise_hanzi. destruct s; reflexivity.
Qed.

Lemma someMentionPouringRain_defined (storyLines : list jsstring) :
  Raw.someMentionPouringRain toLowerCase (map Some storyLines)
  = ret (existsb (fun line => includes (utf16 "pouring rain") (toLowerCase line))
                 storyLines).
Proof.
  induction storyLines as [|line rest IH]; cbn [map Raw.someMentionPouringRain existsb];
    [reflexivity|].
  cbn [defined]. rewrite bind_ret_l.
  destruct (includes (utf16 "pouring rain") (toLowerCase line)); [reflexivity|].
  exact IH.
Qed.

Lemma pouringRainStoryMustMentionPouringRainInStoryText_raise p s :
  Raw.pouringRainStoryMustMentionPouringRainInStoryText toLowerCase p (Raw.raise s)
  = pouringRainStoryMustMentionPouringRainInStoryText toLowerCase p s.
Proof.
  unfold Raw.pouringRainStoryMustMentionPouringRainInStoryText,
    pouringRainStoryMustMentionPouringRainInStoryText.
  rewrite raise_rawLines, someMentionPouringRain_defined, bind_ret_l, raise_hanzi.
  destruct s as [a b c d e f g h i j k l m n o]. cbn.
  destruct i; [|reflexivity]. cbn [andb].
  destruct (existsb _ m); reflexivity.
Qed.

Lemma raise_check (r : Eff bool) (k : Eff (option Story)) :
  (x <- (check r ;; k) ;; ret (option_map Raw.raise x))
  = (check r ;; (x <- k ;; ret (option_map Raw.raise x))).
Proof.
  unfold orReturn. rewrite bind_assoc. refine (bind_ext r _ _ _).
  intros [|]; [reflexivity | rewrite bind_ret_l; reflexivity].
Qed.

Lemma raw_validateHeaderFormat_labelled p label :
  Raw.validateHeaderFormat p (Some label) = validateHeaderFormat p (newStory label).
Proof. reflexivity. Qed.

(** On an entry whose nodes all carry their label the audit over the
    nodes of the parser is the audit over [Element], with the story
    lines of the result put beside it. *)
Lemma raw_auditHanziElement_embed (path : jsstring) (hanziElement : Element) :
  Raw.auditHanziElement toLowerCase path (Raw.embed hanziElement)
  = (verdict <- auditHanziElement toLowerCase path hanziElement ;;
     ret (option_map Raw.raise verdict)).
Proof.
  unfold Raw.auditHanziElement, auditHanziElement. cbv zeta.
  rewrite raw_text_embed, bind_ret_l, raw_validateHeaderFormat_labelled.
  rewrite raise_check. f_equal. cbn [defined]. rewrite bind_ret_l.
  rewrite raise_check. f_equal.
  rewrite bind_assoc. refine (bind_ext _ _ _ _). intros rest.
  rewrite raise_check. f_equal.
  rewrite bind_assoc. refine (bind_ext _ _ _ _). intros translationStr.
  rewrite raise_check. f_equal.
  rewrite raise_check. f_equal.
  rewrite raise_check. f_equal.
  rewrite bind_assoc.
  match goal with
  | |- bind (Raw.parseChildren _ _ ?rs) _ = bind (parseChildren _ _ ?s0) _ =>
    change rs with (Raw.raise s0)
  end.
  rewrite raw_parseChildren_embed, bind_assoc.
  refine (bind_ext _ _ _ _). intros (ok, s). rewrite bind_ret_l.
  cbn [fst snd].
  rewrite raise_check. f_equal.
  rewrite raise_check, wheelStoryValid_raise. f_equal.
  rewrite raise_check, hanziBreakdownValid_raise. f_equal.
  rewrite raise_check, storyTypeValid_raise. f_equal.
  rewrite raise_check, atLeastOneStoryLine_raise. f_equal.
  rewrite raise_check, wheelStoryMentionsWheel_raise. f_equal.
  rewrite raise_check, movieSetStoryHasAtLeastFourStoryLines_raise. f_equal.
  rewrite raise_check, oldWestStoryMustBeginWithCorrectPattern_raise. f_equal.
  rewrite raise_check, sciFiStoryMustBeginWithCorrectPattern_raise. f_equal.
  rewrite raise_check, policeDramaStoryMustBeginWithCorrectPattern_raise. f_equal.
  rewrite raise_check, pouringRainStoryMustHaveEligibleSyllable_raise. f_equal.
  rewrite raise_check, storyWithPouringRainSyllableMustBePouringRainStory_raise.
  f_equal.
  rewrite raise_check, pouringRainStoryMustMentionPouringRainInStoryText_raise.
  f_equal.
Qed.
End RawAuditRefines.

(** ** Where the audit of an entry throws *)

Lemma raw_atLeastOneStoryLine_quiet p s : neverThrows (Raw.atLeastOneStoryLine p s).
Proof. unfold Raw.atLeastOneStoryLine; never_throws. Qed.
Lemma raw_movieSetStoryHasAtLeastFourStoryLines_quiet p s :
  neverThrows (Raw.movieSetStoryHasAtLeastFourStoryLines p s).
Proof. unfold Raw.movieSetStoryHasAtLeastFourStoryLines; never_throws. Qed.
Lemma raw_oldWestStoryMustBeginWithCorrectPattern_quiet p s :
  neverThrows (Raw.oldWestStoryMustBeginWithCorrectPattern p s).
Proof. unfold Raw.oldWestStoryMustBeginWithCorrectPattern; never_throws. Qed.
Lemma raw_sciFiStoryMustBeginWithCorrectPattern_quiet p s :
  neverThrows (Raw.sciFiStoryMustBeginWithCorrectPattern p s).
Proof. unfold Raw.sciFiStoryMustBeginWithCorrectPattern; never_throws. Qed.
Lemma raw_policeDramaStoryMustBeginWithCorrectPattern_quiet p s :
  neverThrows (Raw.policeDramaStoryMustBeginWithCorrectPattern p s).
Proof. unfold Raw.policeDramaStoryMustBeginWithCorrectPattern; never_throws. Qed.

Lemma header_undefined : test reHeader (toStringArg None) = false.
Proof. vm_compute. reflexivity. Qed.

Section RawThrows.
Variable toLowerCase : jsstring -> jsstring.

(** [some] over the story lines: it answers, or it throws on a line
    without text. *)
Lemma someMentionPouringRain_shape (storyLines : list (option jsstring)) :
  (exists mentioned,
      Raw.someMentionPouringRain toLowerCase storyLines = ([], Value mentioned))
  \/ (Raw.someMentionPouringRain toLowerCase storyLines = ([], Throw TypeError)
      /\ In None storyLines).
Proof.
  induction storyLines as [|line rest IH]; cbn [Raw.someMentionPouringRain].
  - left. exists false. reflexivity.
  - destruct line as [line|]; cbn [defined].
    + rewrite bind_ret_l.
      destruct (includes (utf16 "pouring rain") (toLowerCase line)).
      * left. exists true. reflexivity.
      * destruct IH as [(b & Hb) | (Ht & Hin)].
        -- left. exists b. exact Hb.
        -- right. split; [exact Ht | right; exact Hin].
    + right. split; [reflexivity | left; reflexivity].
Qed.

(** A check that passes in silence, fails with one line, or throws with
    none. *)
Lemma holds_check_throwing {A} (P : list jsstring -> result (option A) -> Prop)
  (m : Eff bool) (k : Eff (option A)) :
  (m = ([], Value true) -> holds P k) ->
  (forall line, m = ([line], Value false) -> P [line] (Value None)) ->
  (m = ([], Throw TypeError) -> P [] (Throw TypeError)) ->
  ruleShape m ->
  holds P (check m ;; k).
Proof.
  intros Hk Hfail Hthrow [H | [[line H] | H]]; rewrite H; unfold orReturn, holds.
  - change ([], Value true) with (@ret bool true).
    rewrite bind_ret_l. apply Hk, H.
  - cbn. apply Hfail. exact H.
  - cbn. apply Hthrow. exact H.
Qed.

Lemma raw_auditHanziElement_throw (path : jsstring) (hanziElement : Raw.Outline) :
  holds (Raw.throwFacts path hanziElement)
        (Raw.auditHanziElement toLowerCase path hanziElement).
Proof.
  unfold Raw.auditHanziElement, Raw.text. cbv zeta.
  destruct (Raw.dollar hanziElement) as [text|] eqn:Hdollar.
  2:{ unfold holds. cbn. split; [reflexivity|]. left.
      unfold Raw.textOf. rewrite Hdollar. reflexivity. }
  assert (Htext : Raw.textOf hanziElement = text)
    by (unfold Raw.textOf; rewrite Hdollar; reflexivity).
  cbn [defined]. rewrite !bind_ret_l.
  destruct text as [label|].
  2:{ unfold Raw.validateHeaderFormat. rewrite header_undefined.
      unfold holds. cbn. split; [reflexivity|]. left. exact Htext. }
  rewrite raw_validateHeaderFormat_labelled.
  apply holds_check_quiet;
    [apply validateHeaderFormat_quiet | intros Hheader | exact (fun _ => I)].
  apply validateHeaderFormat_pass in Hheader. cbn [headerText newStory] in Hheader.
  apply reHeader_spec in Hheader as (c & d & tail & Hlabel & _).
  cbn [defined]. rewrite bind_ret_l.
  apply holds_check_quiet;
    [apply hanziIsSingleCharacter_quiet | intros _ | exact (fun _ => I)].
  destruct (second_part_exists c (unitOf " " :: d :: tail)) as (rest & Hrest).
  rewrite <- Hlabel in Hrest. rewrite Hrest. cbn [defined]. rewrite bind_ret_l.
  apply holds_check_pinyin; [intros Htokens | intros; exact I].
  apply holds_defined_cases.
  2:{ intros Hnone. cbn [Raw.throwFacts]. split; [reflexivity|]. right.
      exists label, rest. split; [exact Htext|]. split; [exact Hrest|]. left.
      split; [exact Hnone|]. unfold pinyinTokens. rewrite Hrest. exact Htokens. }
  intros translationStr Htr.
  apply holds_check_quiet;
    [apply pinyinCountMatchesTranslationCount_quiet | intros _ | exact (fun _ => I)].
  apply holds_check_quiet;
    [apply matchingPinyinSyllable_quiet | intros _ | exact (fun _ => I)].
  apply holds_check_quiet;
    [apply multiplePinyinSyllablesWithMovieSetTag_quiet | intros _
    | exact (fun _ => I)].
  match goal with
  | |- holds _ (bind (Raw.parseChildren path hanziElement ?s0) _) =>
    pose proof (raw_parseChildren_spec path hanziElement s0) as Hparse;
      set (start := s0) in *
  end.
  destruct (Raw.verdict path hanziElement) eqn:Hverdict.
  - (* accepted children *)
    destruct Hparse as (s' & Hrun & Hsame & Hlines & _).
    rewrite Hrun. change ([], Value (true, s')) with (@ret (bool * Raw.RawStory) (true, s')).
    rewrite bind_ret_l. cbn [fst snd]. unfold orReturn at 1. rewrite bind_ret_l.
    assert (Hwheel : isWheelStory (Raw.story s')
                     = tagged (nth_error (map trim (split (unitOf "|") rest)) 2)
                              (utf16 "#🎡")).
    { destruct Hsame as (_ & _ & _ & _ & _ & Hw & _). rewrite Hw. reflexivity. }
    assert (Hrain : isPouringRainStory (Raw.story s')
                    = tagged (nth_error (map trim (split (unitOf "|") rest)) 2)
                             (utf16 "#🌧️")).
    { destruct Hsame as (_ & _ & _ & _ & _ & _ & Hr & _). rewrite Hr. reflexivity. }
    clearbody start. clear Hrun Hsame.
    apply holds_check_quiet;
      [apply wheelStoryValid_quiet | intros _ | exact (fun _ => I)].
    apply holds_check_quiet;
      [apply hanziBreakdownValid_quiet | intros _ | exact (fun _ => I)].
    apply holds_check_quiet;
      [apply storyTypeValid_quiet | intros _ | exact (fun _ => I)].
    apply holds_check_quiet;
      [apply raw_atLeastOneStoryLine_quiet | intros Hone | exact (fun _ => I)].
    apply holds_check_throwing; [intros _ | intros; exact I | intros Hthrow | ].
    3:{ unfold Raw.wheelStoryMentionsWheel.
        destruct (isWheelStory (Raw.story s')); [|left; reflexivity].
        destruct (Raw.firstLine s') as [line|]; cbn [defined];
          [|right; right; reflexivity].
        rewrite bind_ret_l.
        destruct (negb (includes (utf16 "wheel") (toLowerCase line)));
          [right; left; eexists; reflexivity | left; reflexivity]. }
    2:{ cbn [Raw.throwFacts]. split; [reflexivity|]. right.
        exists label, rest. split; [exact Htext|]. split; [exact Hrest|].
        right. right. left.
        unfold Raw.wheelStoryMentionsWheel in Hthrow.
        destruct (isWheelStory (Raw.story s')) eqn:Hw; [|discriminate Hthrow].
        split; [rewrite <- Hwheel; reflexivity|].
        unfold Raw.firstStoryLine, Raw.storyLinesOf. rewrite <- Hlines.
        split.
        - unfold Raw.firstLine in Hthrow.
          destruct (nth_error (Raw.rawLines s') 0) as [[line|]|];
            [|reflexivity|reflexivity].
          exfalso. cbn [defined] in Hthrow. rewrite bind_ret_l in Hthrow.
          destruct (negb (includes (utf16 "wheel") (toLowerCase line)));
            discriminate Hthrow.
        - intros Hnone. unfold Raw.atLeastOneStoryLine in Hone.
          rewrite Hnone in Hone. cbn [length Nat.eqb andb] in Hone.
          destruct (streq path noPronunciation) eqn:E; [|discriminate Hone].
          apply streq_eq. exact E. }
    apply holds_check_quiet;
      [apply raw_movieSetStoryHasAtLeastFourStoryLines_quiet | intros _
      | exact (fun _ => I)].
    apply holds_check_quiet;
      [apply raw_oldWestStoryMustBeginWithCorrectPattern_quiet | intros _
      | exact (fun _ => I)].
    apply holds_check_quiet;
      [apply raw_sciFiStoryMustBeginWithCorrectPattern_quiet | intros _
      | exact (fun _ => I)].
    apply holds_check_quiet;
      [apply raw_policeDramaStoryMustBeginWithCorrectPattern_quiet | intros _
      | exact (fun _ => I)].
    apply holds_check_quiet;
      [apply pouringRainStoryMustHaveEligibleSyllable_quiet | intros _
      | exact (fun _ => I)].
    apply holds_check_quiet;
      [apply storyWithPouringRainSyllableMustBePouringRainStory_quiet | intros _
      | exact (fun _ => I)].
    apply holds_check_throwing; [intros _ | intros; exact I | intros Hthrow | ].
    + unfold holds. cbn. exact I.
    + cbn [Raw.throwFacts]. split; [reflexivity|]. right.
      exists label, rest. split; [exact Htext|]. split; [exact Hrest|].
      right. right. right.
      unfold Raw.pouringRainStoryMustMentionPouringRainInStoryText in Hthrow.
      destruct (isPouringRainStory (Raw.story s')) eqn:Hr; [|discriminate Hthrow].
      split; [rewrite <- Hrain; reflexivity|].
      unfold Raw.storyLinesOf. rewrite <- Hlines.
      destruct (someMentionPouringRain_shape (Raw.rawLines s'))
        as [(b & Hb) | (_ & Hin)]; [|exact Hin].
      exfalso. rewrite Hb in Hthrow.
      change ([], Value b) with (@ret bool b) in Hthrow.
      rewrite bind_ret_l in Hthrow. destruct (negb b); discriminate Hthrow.
    + unfold Raw.pouringRainStoryMustMentionPouringRainInStoryText.
      destruct (isPouringRainStory (Raw.story s')); [|left; reflexivity].
      destruct (someMentionPouringRain_shape (Raw.rawLines s'))
        as [(b & Hb) | (Ht & _)]; rewrite ?Hb, ?Ht.
      * change ([], Value b) with (@ret bool b). rewrite bind_ret_l.
        destruct (negb b); [right; left; eexists; reflexivity | left; reflexivity].
      * right. right. reflexivity.
  - (* refused children *)
    destruct Hparse as (line & s' & Hrun). rewrite Hrun.
    unfold holds. cbn. exact I.
  - (* a child without attributes *)
    rewrite Hparse. unfold holds. cbn. split; [reflexivity|]. right.
    exists label, rest. split; [exact Htext|]. split; [exact Hrest|].
    right. left. exact Hverdict.
Qed.
End RawThrows.

Section RawEntry.
Variable toLowerCase : jsstring -> jsstring.

(** X25. On an entry whose nodes all carry their label, the audit over
    the nodes of the parser is the audit over [Element]: the same
    console, the same exception, and the same story, with its story
    lines put beside it. *)
Theorem audit_on_labelled_entries (path : jsstring) (hanziElement : Element) :
  Raw.auditHanziElement toLowerCase path (Raw.embed hanziElement)
  = (verdict <- auditHanziElement toLowerCase path hanziElement ;;
     ret (option_map Raw.raise verdict)).
Proof. apply raw_auditHanziElement_embed. Qed.

(** X12. [auditHanziElement] has written nothing when it throws, and it
    throws in these situations only: the entry has no text (no
    attributes, or no [text] among them); its label has no translation
    segment, its tokens being well formed; [parseChildren] meets a child
    without attributes; the entry carries the wheel tag and its first
    story line is missing, which only the root group allows, or has no
    text; the entry carries the pouring-rain tag and one of its story
    lines has no text. *)
Theorem audit_throws_only (path : jsstring) (hanziElement : Raw.Outline)
  (out : list jsstring) (e : Exn) :
  Raw.auditHanziElement toLowerCase path hanziElement = (out, Throw e) ->
  out = []
  /\ (Raw.textOf hanziElement = None
      \/ exists label rest,
           Raw.textOf hanziElement = Some label
           /\ nth_error (split (unitOf ":") label) 1 = Some rest
           /\ (nth_error (map trim (split (unitOf "|") rest)) 1 = None
               /\ filter malformedPinyinAndTone (pinyinTokens label) = []
               \/ Raw.verdict path hanziElement = Raw.Throws
               \/ tagged (nth_error (map trim (split (unitOf "|") rest)) 2)
                         (utf16 "#🎡") = true
                  /\ Raw.firstStoryLine hanziElement = None
                  /\ (Raw.storyLinesOf hanziElement = [] -> path = noPronunciation)
               \/ tagged (nth_error (map trim (split (unitOf "|") rest)) 2)
                         (utf16 "#🌧️") = true
                  /\ In None (Raw.storyLinesOf hanziElement))).
Proof.
  intros Hrun.
  pose proof (raw_auditHanziElement_throw toLowerCase path hanziElement) as H.
  unfold holds in H. rewrite Hrun in H. exact H.
Qed.
End RawEntry.

(** X12, witness: an entry with an empty element among its children. *)
Lemma audit_throws_only_witness :
  Raw.auditHanziElement asciiLower (utf16 "ma/1") orphanedEntry
  = ([], Throw TypeError)
  /\ @nil jsstring = []
  /\ (Raw.textOf orphanedEntry = None
      \/ exists label rest,
           Raw.textOf orphanedEntry = Some label
           /\ nth_error (split (unitOf ":") label) 1 = Some rest
           /\ (nth_error (map trim (split (unitOf "|") rest)) 1 = None
               /\ filter malformedPinyinAndTone (pinyinTokens label) = []
               \/ Raw.verdict (utf16 "ma/1") orphanedEntry = Raw.Throws
               \/ tagged (nth_error (map trim (split (unitOf "|") rest)) 2)
                         (utf16 "#🎡") = true
                  /\ Raw.firstStoryLine orphanedEntry = None
                  /\ (Raw.storyLinesOf orphanedEntry = []
                      -> utf16 "ma/1" = noPronunciation)
               \/ tagged (nth_error (map trim (split (unitOf "|") rest)) 2)
                         (utf16 "#🌧️") = true
                  /\ In None (Raw.storyLinesOf orphanedEntry))).
Proof.
  split; [vm_compute; reflexivity|].
  apply (@audit_throws_only asciiLower (utf16 "ma/1") orphanedEntry [] TypeError).
  vm_compute. reflexivity.
Defined.

(** Four entries that throw: an empty element among the children, a
    wheel story whose only child has no text, an entry without
    attributes, an entry without text. *)
Example raw_audit_runs :
  Raw.auditHanziElement asciiLower (utf16 "ma/1") orphanedEntry
  = ([], Throw TypeError)
  /\ Raw.auditHanziElement asciiLower (utf16 "lun/2") muteWheelEntry
     = ([], Throw TypeError)
  /\ Raw.auditHanziElement asciiLower (utf16 "ma/1") (Raw.mkOutline None None)
     = ([], Throw TypeError)
  /\ Raw.auditHanziElement asciiLower (utf16 "ma/1") (Raw.mkOutline (Some None) None)
     = ([], Throw TypeError).
Proof. repeat split; vm_compute; reflexivity. Qed.
